(** * sync-async-api: admission control, queueing, worker dispatch and
      callback delivery

    A shallow embedding of the Python sources under [app/]:
    [config.py], [utils/rate_limiter.py], [worker/queue_manager.py],
    [worker/callback.py], [worker/processor.py], [db/repository.py],
    [api/sync_endpoint.py], [api/async_endpoint.py], [api/queries.py]
    and the prime and matrix operations of [core/work.py].

    Conventions.
    - Python [int] is [Z]; Python [float] (token counts, timestamps,
      durations) is idealised as the rationals [Q], so rounding error of
      IEEE arithmetic is not part of the model. Where a statement gives
      the integer part of a quotient of floats ([retry_after]), it is
      restricted to inputs on which rounding cannot change that integer.
    - Python [str] is [string]; [None] is [None] of an option.
    - Code that raises returns [Raise e]; code that would suspend the
      calling coroutine for ever on the present state returns [Block].
    - The outside world (clock, work engine, callback target) is given to
      the code as oracles. *)

From Stdlib Require Import ZArith QArith Qround String DecimalString Lia Lqa.
From stdpp Require Import gmap strings list.

Local Open Scope Z_scope.

(** ** Python values *)

(** [str(n)] for an [int]. *)
Definition show_Z (z : Z) : string := NilZero.string_of_int (Z.to_int z).

(** [s[:n]]. *)
Definition str_take (n : nat) (s : string) : string := String.substring 0 n s.

(** [min(a, b)] on numbers: [b] when [b < a], else [a]. *)
Definition py_min (a b : Q) : Q := if Qlt_le_dec b a then b else a.

(** [int(x)] for a float: truncation towards zero. *)
Definition py_int (x : Q) : Z := Z.quot (Qnum x) (Zpos (Qden x)).

(** [math.ceil(x)], the rounding the specification names. *)
Definition py_ceil (x : Q) : Z := Qceiling x.

(** Exceptions the modelled code can raise. *)
Inductive Exn : Type :=
| ZeroDivisionError
| UnboundLocalError (var : string)
| TypeError (msg : string)
| ValueError (msg : string)
| IntegrityError (msg : string)
| QueueFull
| AsyncioTimeoutError
| EngineError (msg : string)
| HTTPException (status_code : Z) (detail : string).

(** [str(e)]. *)
Definition exn_str (e : Exn) : string :=
  match e with
  | ZeroDivisionError => "float division by zero"
  | UnboundLocalError v =>
      "cannot access local variable '" +:+ v +:+
      "' where it is not associated with a value"
  | TypeError m | ValueError m | IntegrityError m | EngineError m => m
  | QueueFull | AsyncioTimeoutError => ""
  | HTTPException c d => show_Z c +:+ ": " +:+ d
  end.

(** Result of running a piece of code. *)
Inductive Outcome (A : Type) : Type :=
| Ret (a : A)
| Raise (e : Exn)
| Block.
Arguments Ret {A} a.
Arguments Raise {A} e.
Arguments Block {A}.

(** ** config.py *)

Module Config.

Record Settings : Type := {
  max_sync_concurrency : Z;
  work_timeout_seconds : Z;
  num_workers : Z;
  max_queue_size : Z;
  callback_timeout_seconds : Z;
  max_callback_retries : Z;
  retry_backoff_base : Z;
  rate_limit_requests : Z;
  rate_limit_window_seconds : Z
}.

(** The defaults of [class Settings]. *)
Definition default_settings : Settings := {|
  max_sync_concurrency := 10;
  work_timeout_seconds := 30;
  num_workers := 5;
  max_queue_size := 100;
  callback_timeout_seconds := 10;
  max_callback_retries := 3;
  retry_backoff_base := 2;
  rate_limit_requests := 100;
  rate_limit_window_seconds := 60
|}.

End Config.
Import Config.

(** ** utils/rate_limiter.py *)

Module RateLimiter.

(** [self.buckets]: client_ip -> (tokens, last_update). *)
Abbreviation Buckets := (gmap string (Q * Q)).

(** [refill_rate = max_tokens / window]; the caller checks [window <> 0]. *)
Definition refill_rate (s : Settings) : Q :=
  (inject_Z (rate_limit_requests s) / inject_Z (rate_limit_window_seconds s))%Q.

(** [self.buckets[client_ip]] on the [defaultdict]: a missing key is
    inserted with the factory's value [(rate_limit_requests, time.time())];
    [t_new] is that reading of the clock. *)
Definition bucket_get (s : Settings) (client_ip : string) (t_new : Q)
    (buckets : Buckets) : (Q * Q) * Buckets :=
  match buckets !! client_ip with
  | Some b => (b, buckets)
  | None =>
      let b := (inject_Z (rate_limit_requests s), t_new) in
      (b, <[client_ip := b]> buckets)
  end.

(** [tokens = min(max_tokens, tokens + time_passed * refill_rate)]. *)
Definition refill (s : Settings) (bucket : Q * Q) (now : Q) : Q :=
  let '(tokens, last_update) := bucket in
  let time_passed := (now - last_update)%Q in
  py_min (inject_Z (rate_limit_requests s))
         (tokens + time_passed * refill_rate s)%Q.

(** [RateLimiter.check_rate_limit]. [now] is the reading of [time.time()]
    in the body, [t_new] the one the default factory takes when the client
    is new. The quotient under [int(...)] is exact here and a rounded
    double in the code. *)
Definition check_rate_limit (s : Settings) (client_ip : string)
    (t_new now : Q) (buckets : Buckets) : Outcome (bool * Z) * Buckets :=
  if rate_limit_window_seconds s =? 0 then (Raise ZeroDivisionError, buckets)
  else
    let '(bucket, buckets) := bucket_get s client_ip t_new buckets in
    let tokens := refill s bucket now in
    if Qle_bool 1 tokens then
      (Ret (true, 0), <[client_ip := ((tokens - 1)%Q, now)]> buckets)
    else if Qeq_bool (refill_rate s) 0 then (Raise ZeroDivisionError, buckets)
    else
      let retry_after := py_int ((1 - tokens) / refill_rate s)%Q in
      (Ret (false, retry_after), buckets).

(** One call of the limiter as data, and a run of calls. *)
Record Check : Type := { chk_client : string; chk_t_new : Q; chk_now : Q }.

Definition run_check (s : Settings) (buckets : Buckets) (c : Check) : Buckets :=
  snd (check_rate_limit s (chk_client c) (chk_t_new c) (chk_now c) buckets).

Definition run_checks (s : Settings) (cs : list Check) (buckets : Buckets) : Buckets :=
  fold_left (run_check s) cs buckets.

(** The bucket invariant of the specification. *)
Definition bucket_in_range (s : Settings) (b : Q * Q) : Prop :=
  (0 <= fst b)%Q /\ (fst b <= inject_Z (rate_limit_requests s))%Q.

End RateLimiter.

(** ** Code with state, exceptions and suspension

    [M S A] is code running on a state [S]: it returns, raises or blocks,
    and in every case leaves a state behind (writes made before a [raise]
    stay). *)

Definition M (S A : Type) : Type := S -> Outcome A * S.

Definition ret {S A} (a : A) : M S A := fun s => (Ret a, s).
Definition raise {S A} (e : Exn) : M S A := fun s => (Raise e, s).
Definition block {S A} : M S A := fun s => (Block, s).

Definition bind {S A B} (m : M S A) (k : A -> M S B) : M S B :=
  fun s =>
    match m s with
    | (Ret a, s') => k a s'
    | (Raise e, s') => (Raise e, s')
    | (Block, s') => (Block, s')
    end.

Notation "x <- m ;; k" := (bind m (fun x => k))
  (at level 100, m at next level, right associativity).
Notation "m ;; k" := (bind m (fun _ => k))
  (at level 100, right associativity).

(** [try: m  except Exception as e: h e]. *)
Definition try_except {S A} (m : M S A) (h : Exn -> M S A) : M S A :=
  fun s =>
    match m s with
    | (Raise e, s') => h e s'
    | r => r
    end.

(** [try: m  finally: fin]. A blocked body never reaches [fin]. *)
Definition try_finally {S A} (m : M S A) (fin : M S unit) : M S A :=
  fun s =>
    match m s with
    | (Block, s') => (Block, s')
    | (o, s') =>
        match fin s' with
        | (Ret _, s'') => (o, s'')
        | (Raise e, s'') => (Raise e, s'')
        | (Block, s'') => (Block, s'')
        end
    end.

(** Run code written for a component [T] of the state [S]. *)
Definition lift {S T A} (get : S -> T) (set : T -> S -> S) (m : M T A) : M S A :=
  fun s => let '(o, t) := m (get s) in (o, set t s).

(** ** asyncio.Queue and asyncio.Semaphore, as the code uses them *)

Module Asyncio.

(** [asyncio.Queue]: [_queue] (a deque, head first), [_maxsize],
    [_unfinished_tasks]. *)
Record Queue (A : Type) : Type := {
  _queue : list A;
  _maxsize : Z;
  _unfinished_tasks : Z
}.
Arguments _queue {A} q.
Arguments _maxsize {A} q.
Arguments _unfinished_tasks {A} q.

Definition new_queue {A} (maxsize : Z) : Queue A :=
  {| _queue := []; _maxsize := maxsize; _unfinished_tasks := 0 |}.

Definition qsize {A} (q : Queue A) : Z := Z.of_nat (length (_queue q)).

(** [full()]: a queue with [maxsize <= 0] is never full. *)
Definition full {A} (q : Queue A) : bool :=
  if _maxsize q <=? 0 then false else _maxsize q <=? qsize q.

Definition put_nowait {A} (item : A) : M (Queue A) unit :=
  fun q =>
    if full q then (Raise QueueFull, q)
    else (Ret tt, {| _queue := _queue q ++ [item];
                     _maxsize := _maxsize q;
                     _unfinished_tasks := _unfinished_tasks q + 1 |}).

(** [await get()]: suspends while the queue is empty. *)
Definition get {A} : M (Queue A) A :=
  fun q =>
    match _queue q with
    | [] => (Block, q)
    | item :: rest =>
        (Ret item, {| _queue := rest;
                      _maxsize := _maxsize q;
                      _unfinished_tasks := _unfinished_tasks q |})
    end.

Definition task_done {A} : M (Queue A) unit :=
  fun q =>
    if _unfinished_tasks q <=? 0
    then (Raise (ValueError "task_done() called too many times"), q)
    else (Ret tt, {| _queue := _queue q;
                     _maxsize := _maxsize q;
                     _unfinished_tasks := _unfinished_tasks q - 1 |}).

(** [asyncio.Semaphore]: [_value] and the number of live waiters. *)
Record Semaphore : Type := { _value : Z; _waiters : nat }.

Definition new_semaphore (value : Z) : Semaphore :=
  {| _value := value; _waiters := 0 |}.

Definition locked (sem : Semaphore) : bool :=
  (_value sem =? 0) || negb (Nat.eqb (_waiters sem) 0).

(** [await acquire()]: takes a permit when not locked, else suspends. *)
Definition acquire : M Semaphore unit :=
  fun sem =>
    if locked sem then (Block, sem)
    else (Ret tt, {| _value := _value sem - 1; _waiters := _waiters sem |}).

Definition release : M Semaphore unit :=
  fun sem => (Ret tt, {| _value := _value sem + 1; _waiters := _waiters sem |}).

End Asyncio.

(** ** core/schemas.py and the rows of the [requests] table *)

(** A JSON object ([dict[str, Any]]); values are kept as their text. *)
Definition Dict : Type := list (string * string).

Record WorkPayload : Type := {
  operation : string;
  complexity : Z;
  data : Dict
}.

(** The [status] column. *)
Inductive Status : Type := pending | processing | done | failed.

#[global] Instance Status_eq_dec : EqDecision Status.
Proof. solve_decision. Defined.

(** The [mode] column: ["sync"] or ["async"]. *)
Inductive Mode : Type := sync | async.

(** Modelled from the spec: the [requests] table of [schema.sql], which is
    not among the sources. Its columns are those the SQL of
    [db/repository.py] names; rows are keyed by the request identifier, a
    new row has no result, error or timestamps other than [created_at],
    and its attempt counter is 0. *)
Module Request.
Record t : Type := {
  id : string;
  mode : Mode;
  payload : WorkPayload;
  status : Status;
  callback_url : option string;
  created_at : Q;
  client_ip : string;
  result : option Dict;
  last_error : option string;
  started_at : option Q;
  completed_at : option Q;
  attempts : Z
}.
End Request.

(** The job dictionary put on the queue by [async_endpoint]. *)
Module Job.
Record t : Type := {
  request_id : string;
  payload : WorkPayload;
  callback_url : string
}.
End Job.

(** The JSON body posted to the callback URL. *)
Module CallbackPayload.
Record t : Type := {
  request_id : string;
  status : Status;
  result : option Dict;
  error : option string;
  execution_time_ms : Q;
  completed_at : Q
}.
End CallbackPayload.

Module SyncResponse.
Record t : Type := {
  request_id : string;
  status : Status;
  result : option Dict;
  error : option string;
  execution_time_ms : Q
}.
End SyncResponse.

Module AsyncResponse.
Record t : Type := {
  request_id : string;
  status : Status;
  message : string
}.
End AsyncResponse.

(** ** worker/queue_manager.py *)

Module QueueManager.

Record t : Type := {
  queue : Asyncio.Queue Job.t;
  total_enqueued : Z;
  total_processed : Z
}.

(** [QueueManager.__init__]. *)
Definition init (s : Settings) : t :=
  {| queue := Asyncio.new_queue (max_queue_size s);
     total_enqueued := 0;
     total_processed := 0 |}.

Definition set_queue (q : Asyncio.Queue Job.t) (qm : t) : t :=
  {| queue := q;
     total_enqueued := total_enqueued qm;
     total_processed := total_processed qm |}.

Definition incr_total_enqueued : M t unit :=
  fun qm => (Ret tt, {| queue := queue qm;
                        total_enqueued := total_enqueued qm + 1;
                        total_processed := total_processed qm |}).

Definition incr_total_processed : M t unit :=
  fun qm => (Ret tt, {| queue := queue qm;
                        total_enqueued := total_enqueued qm;
                        total_processed := total_processed qm + 1 |}).

Definition enqueue (job : Job.t) : M t bool :=
  try_except
    (lift queue set_queue (Asyncio.put_nowait job);;
     incr_total_enqueued;;
     ret true)
    (fun e => match e with
              | QueueFull => ret false
              | _ => raise e
              end).

Definition dequeue : M t Job.t := lift queue set_queue Asyncio.get.

Definition task_done : M t unit :=
  lift queue set_queue Asyncio.task_done;;
  incr_total_processed.

Definition get_size (qm : t) : Z := Asyncio.qsize (queue qm).

Record Metrics : Type := {
  m_current_size : Z;
  m_max_size : Z;
  m_total_enqueued : Z;
  m_total_processed : Z
}.

Definition get_metrics (s : Settings) (qm : t) : Metrics :=
  {| m_current_size := get_size qm;
     m_max_size := max_queue_size s;
     m_total_enqueued := total_enqueued qm;
     m_total_processed := total_processed qm |}.

End QueueManager.

(** ** The process state *)

(** What the code does to the outside, in order (a record of the run, not
    read by the code). *)
Inductive Event : Type :=
| EvStatus (request_id : string) (st : Status)
| EvWork (payload : WorkPayload)
| EvPost (url : string) (body : CallbackPayload.t) (attempt : Z)
| EvSleep (seconds : Z).

Record World : Type := {
  db : gmap string Request.t;
  queue_manager : QueueManager.t;
  sync_semaphore : Asyncio.Semaphore;
  time_source : nat -> Q;
  time_reads : nat;
  events : list Event
}.

Definition set_db (d : gmap string Request.t) (w : World) : World :=
  {| db := d; queue_manager := queue_manager w;
     sync_semaphore := sync_semaphore w; time_source := time_source w;
     time_reads := time_reads w; events := events w |}.

Definition set_queue_manager (qm : QueueManager.t) (w : World) : World :=
  {| db := db w; queue_manager := qm;
     sync_semaphore := sync_semaphore w; time_source := time_source w;
     time_reads := time_reads w; events := events w |}.

Definition set_sync_semaphore (sem : Asyncio.Semaphore) (w : World) : World :=
  {| db := db w; queue_manager := queue_manager w;
     sync_semaphore := sem; time_source := time_source w;
     time_reads := time_reads w; events := events w |}.

Definition set_events (evs : list Event) (w : World) : World :=
  {| db := db w; queue_manager := queue_manager w;
     sync_semaphore := sync_semaphore w; time_source := time_source w;
     time_reads := time_reads w; events := evs |}.

(** The process after start-up: empty table, [QueueManager()],
    [asyncio.Semaphore(settings.max_sync_concurrency)]. *)
Definition init_world (s : Settings) (clock : nat -> Q) : World :=
  {| db := ∅;
     queue_manager := QueueManager.init s;
     sync_semaphore := Asyncio.new_semaphore (max_sync_concurrency s);
     time_source := clock;
     time_reads := 0;
     events := [] |}.

Definition emit (e : Event) : M World unit :=
  fun w => (Ret tt, set_events (events w ++ [e]) w).

(** [time.time()]: the next reading of the clock. *)
Definition time_time : M World Q :=
  fun w =>
    (Ret (time_source w (time_reads w)),
     {| db := db w; queue_manager := queue_manager w;
        sync_semaphore := sync_semaphore w; time_source := time_source w;
        time_reads := S (time_reads w); events := events w |}).

(** [await asyncio.sleep(seconds)]. *)
Definition asyncio_sleep (seconds : Z) : M World unit := emit (EvSleep seconds).

Definition on_queue_manager {A} (m : M QueueManager.t A) : M World A :=
  lift queue_manager set_queue_manager m.

Definition on_semaphore {A} (m : M Asyncio.Semaphore A) : M World A :=
  lift sync_semaphore set_sync_semaphore m.

(** ** db/repository.py *)

Module Repository.

Definition new_row (request_id : string) (mode : Mode) (payload : WorkPayload)
    (callback_url : option string) (created_at : Q) (client_ip : string)
    : Request.t :=
  {| Request.id := request_id;
     Request.mode := mode;
     Request.payload := payload;
     Request.status := pending;
     Request.callback_url := callback_url;
     Request.created_at := created_at;
     Request.client_ip := client_ip;
     Request.result := None;
     Request.last_error := None;
     Request.started_at := None;
     Request.completed_at := None;
     Request.attempts := 0 |}.

(** [SET status = ?] with the optional [started_at = ?], [completed_at = ?]. *)
Definition set_status (status : Status) (started_at completed_at : option Q)
    (r : Request.t) : Request.t :=
  {| Request.id := Request.id r;
     Request.mode := Request.mode r;
     Request.payload := Request.payload r;
     Request.status := status;
     Request.callback_url := Request.callback_url r;
     Request.created_at := Request.created_at r;
     Request.client_ip := Request.client_ip r;
     Request.result := Request.result r;
     Request.last_error := Request.last_error r;
     Request.started_at :=
       match started_at with Some t => Some t | None => Request.started_at r end;
     Request.completed_at :=
       match completed_at with Some t => Some t | None => Request.completed_at r end;
     Request.attempts := Request.attempts r |}.

(** [SET result = ?, last_error = ?]. *)
Definition set_result (result : option Dict) (error : option string)
    (r : Request.t) : Request.t :=
  {| Request.id := Request.id r;
     Request.mode := Request.mode r;
     Request.payload := Request.payload r;
     Request.status := Request.status r;
     Request.callback_url := Request.callback_url r;
     Request.created_at := Request.created_at r;
     Request.client_ip := Request.client_ip r;
     Request.result := result;
     Request.last_error := error;
     Request.started_at := Request.started_at r;
     Request.completed_at := Request.completed_at r;
     Request.attempts := Request.attempts r |}.

(** [SET attempts = attempts + 1, last_error = ?]. *)
Definition bump_attempts (error : option string) (r : Request.t) : Request.t :=
  {| Request.id := Request.id r;
     Request.mode := Request.mode r;
     Request.payload := Request.payload r;
     Request.status := Request.status r;
     Request.callback_url := Request.callback_url r;
     Request.created_at := Request.created_at r;
     Request.client_ip := Request.client_ip r;
     Request.result := Request.result r;
     Request.last_error := error;
     Request.started_at := Request.started_at r;
     Request.completed_at := Request.completed_at r;
     Request.attempts := Request.attempts r + 1 |}.

(** [UPDATE requests SET ... WHERE id = ?]: no row, no change. *)
Definition update_row (request_id : string) (f : Request.t -> Request.t)
    : M World unit :=
  fun w =>
    match db w !! request_id with
    | Some r => (Ret tt, set_db (<[request_id := f r]> (db w)) w)
    | None => (Ret tt, w)
    end.

(** [INSERT INTO requests ...]: the table is keyed by the request
    identifier, so the insert of an identifier already present fails. *)
Definition create_request (request_id : string) (mode : Mode)
    (payload : WorkPayload) (callback_url : option string)
    (client_ip : string) : M World unit :=
  now <- time_time;;
  fun w =>
    match db w !! request_id with
    | Some _ =>
        (Raise (IntegrityError "UNIQUE constraint failed: requests.id"), w)
    | None =>
        let row := new_row request_id mode payload callback_url now client_ip in
        emit (EvStatus request_id pending)
             (set_db (<[request_id := row]> (db w)) w)
    end.

Definition get_request (request_id : string) : M World (option Request.t) :=
  fun w => (Ret (db w !! request_id), w).

Definition update_request_status (request_id : string) (status : Status)
    (started_at completed_at : option Q) : M World unit :=
  fun w =>
    match db w !! request_id with
    | Some _ =>
        (update_row request_id (set_status status started_at completed_at);;
         emit (EvStatus request_id status)) w
    | None => (Ret tt, w)
    end.

(** [json.dumps(result) if result else None]: an empty dict is stored as
    NULL. *)
Definition result_column (result : option Dict) : option Dict :=
  match result with
  | Some ((_ :: _) as d) => Some d
  | _ => None
  end.

Definition update_request_result (request_id : string) (result : option Dict)
    (error : option string) : M World unit :=
  update_row request_id (set_result (result_column result) error).

Definition increment_callback_attempts (request_id : string)
    (error : option string) : M World unit :=
  update_row request_id (bump_attempts error).

End Repository.

(** ** The work engine, time-boxed

    [do_work] is outside the core. One invocation is described by what it
    would do if left alone: how long it runs, whether it returns a result
    or raises, and the moments, in seconds from its start, at which it is
    suspended at an [await] (the [await asyncio.sleep(0)] of the
    operations). Between two such moments the coroutine holds the event
    loop. *)
Record WorkRun : Type := {
  run_duration : Q;
  run_result : string + Dict;
  run_awaits : list Q
}.

(** [asyncio.wait_for] can give up on the coroutine, with
    [asyncio.TimeoutError], only when the event loop has control and the
    deadline has passed: before the coroutine starts when [timeout <= 0],
    else at the first [await] of the run that comes [timeout] seconds or
    more after its start. A run that ends without such an [await] hands
    over its result or its exception, however late. *)
Definition wait_for_gives_up (timeout : Z) (run : WorkRun) : bool :=
  (timeout <=? 0) ||
  existsb
    (fun t => Qle_bool (inject_Z timeout) t && Qle_bool t (run_duration run))
    (run_awaits run).

(** [await asyncio.wait_for(do_work(payload), timeout=timeout)]. *)
Definition wait_for_do_work (payload : WorkPayload) (run : WorkRun)
    (timeout : Z) : M World Dict :=
  emit (EvWork payload);;
  if wait_for_gives_up timeout run
  then raise AsyncioTimeoutError
  else match run_result run with
       | inl msg => raise (EngineError msg)
       | inr d => ret d
       end.

Definition timeout_message (s : Settings) : string :=
  "Work execution timeout after " +:+ show_Z (work_timeout_seconds s) +:+ "s".

Definition error_message (e : Exn) : string :=
  "Work execution error: " +:+ exn_str e.

(** ** worker/callback.py *)

Module Callback.

(** What one [client.post] does. *)
Inductive HttpOutcome : Type :=
| HttpResponse (status_code : Z) (text : string)
| HttpTimeout
| HttpRequestError (msg : string)
| HttpOtherError (msg : string).

(** A callback target: the outcome of the post of each attempt. *)
Definition Target : Type := nat -> HttpOutcome.

(** The value bound to [error] by a failed attempt; [None] when the
    attempt succeeds ([status_code < 400]). *)
Definition attempt_error (s : Settings) (o : HttpOutcome) : option string :=
  match o with
  | HttpResponse status_code text =>
      if status_code <? 400 then None
      else Some ("HTTP " +:+ show_Z status_code +:+ ": " +:+ str_take 100 text)
  | HttpTimeout =>
      Some ("Timeout after " +:+ show_Z (callback_timeout_seconds s) +:+ "s")
  | HttpRequestError msg => Some ("Request error: " +:+ str_take 100 msg)
  | HttpOtherError msg => Some ("Unexpected error: " +:+ str_take 100 msg)
  end.

(** The text taken from the response or the exception, after slicing. *)
Definition captured_text (o : HttpOutcome) : string :=
  match o with
  | HttpResponse _ text => str_take 100 text
  | HttpTimeout => ""
  | HttpRequestError msg | HttpOtherError msg => str_take 100 msg
  end.

Definition failure_message (s : Settings) (error : string) : string :=
  "Failed after " +:+ show_Z (max_callback_retries s) +:+
  " attempts. Last error: " +:+ error.

(** [for attempt in range(max_retries): ...] from iteration [attempt] on,
    with [remaining] iterations to go and the local [error] as it stands,
    followed by the [return] after the loop. *)
Fixpoint deliver_attempts (s : Settings) (callback_url : string)
    (body : CallbackPayload.t) (target : Target)
    (remaining attempt : nat) (error : option string)
    : M World (bool * option string) :=
  match remaining with
  | O =>
      match error with
      | Some e => ret (false, Some (failure_message s e))
      | None => raise (UnboundLocalError "error")
      end
  | S remaining' =>
      emit (EvPost callback_url body (Z.of_nat attempt));;
      match attempt_error s (target attempt) with
      | None => ret (true, None)
      | Some e =>
          (if Z.of_nat attempt <? max_callback_retries s - 1
           then asyncio_sleep (retry_backoff_base s ^ Z.of_nat attempt)
           else ret tt);;
          deliver_attempts s callback_url body target remaining' (S attempt) (Some e)
      end
  end.

Definition deliver_callback (s : Settings) (callback_url : string)
    (body : CallbackPayload.t) (request_id : string) (target : Target)
    : M World (bool * option string) :=
  deliver_attempts s callback_url body target
    (Z.to_nat (max_callback_retries s)) 0 None.

End Callback.

(** ** worker/processor.py *)

Module Processor.

(** [req["started_at"]] as the right operand of a float subtraction: a
    missing row or a NULL column is a [TypeError]. *)
Definition started_at_of (req : option Request.t) : M World Q :=
  match req with
  | None => raise (TypeError "'NoneType' object is not subscriptable")
  | Some r =>
      match Request.started_at r with
      | Some t => ret t
      | None =>
          raise (TypeError "unsupported operand type(s) for -: 'float' and 'NoneType'")
      end
  end.

(** The body of the inner [try]: execute, persist, deliver. *)
Definition on_success (s : Settings) (job : Job.t) (run : WorkRun)
    (target : Callback.Target) : M World unit :=
  let request_id := Job.request_id job in
  result <- wait_for_do_work (Job.payload job) run (work_timeout_seconds s);;
  req <- Repository.get_request request_id;;
  now <- time_time;;
  started <- started_at_of req;;
  let execution_time_ms := ((now - started) * 1000)%Q in
  Repository.update_request_result request_id (Some result) None;;
  t_done <- time_time;;
  Repository.update_request_status request_id done None (Some t_done);;
  t_cb <- time_time;;
  let callback_payload :=
    {| CallbackPayload.request_id := request_id;
       CallbackPayload.status := done;
       CallbackPayload.result := Some result;
       CallbackPayload.error := None;
       CallbackPayload.execution_time_ms := execution_time_ms;
       CallbackPayload.completed_at := t_cb |} in
  r <- Callback.deliver_callback s (Job.callback_url job) callback_payload
         request_id target;;
  let '(success, error) := r in
  if success then ret tt
  else Repository.increment_callback_attempts request_id error.

(** The two [except] clauses share their shape: persist the message, mark
    [failed], post the failure payload and drop what delivery returns. *)
Definition on_failure (s : Settings) (job : Job.t) (target : Callback.Target)
    (error_msg : string) (execution_time_ms : Q) : M World unit :=
  let request_id := Job.request_id job in
  Repository.update_request_result request_id None (Some error_msg);;
  t_done <- time_time;;
  Repository.update_request_status request_id failed None (Some t_done);;
  t_cb <- time_time;;
  let callback_payload :=
    {| CallbackPayload.request_id := request_id;
       CallbackPayload.status := failed;
       CallbackPayload.result := None;
       CallbackPayload.error := Some error_msg;
       CallbackPayload.execution_time_ms := execution_time_ms;
       CallbackPayload.completed_at := t_cb |} in
  Callback.deliver_callback s (Job.callback_url job) callback_payload
    request_id target;;
  ret tt.

(** [except asyncio.TimeoutError] and [except Exception as e]. *)
Definition handler (s : Settings) (job : Job.t) (target : Callback.Target)
    (e : Exn) : M World unit :=
  match e with
  | AsyncioTimeoutError =>
      on_failure s job target (timeout_message s)
        (inject_Z (work_timeout_seconds s * 1000))
  | _ => on_failure s job target (error_message e) 0%Q
  end.

(** What the loop does with a job it has dequeued. *)
Definition process_job (s : Settings) (job : Job.t) (run : WorkRun)
    (target : Callback.Target) : M World unit :=
  t_start <- time_time;;
  Repository.update_request_status (Job.request_id job) processing
    (Some t_start) None;;
  try_finally
    (try_except (on_success s job run target) (handler s job target))
    (on_queue_manager QueueManager.task_done).

(** One turn of [while True] in [worker_loop]. *)
Definition worker_iteration (s : Settings) (run : WorkRun)
    (target : Callback.Target) : M World unit :=
  try_except
    (job <- on_queue_manager QueueManager.dequeue;;
     process_job s job run target)
    (fun _ => asyncio_sleep 1).

End Processor.

(** ** api/sync_endpoint.py *)

Module SyncEndpoint.

(** [async with sync_semaphore: body]. *)
Definition with_semaphore {A} (body : M World A) : M World A :=
  on_semaphore Asyncio.acquire;;
  try_finally body (on_semaphore Asyncio.release).

Definition respond (request_id : string) (status : Status)
    (result : option Dict) (error : option string) (execution_time_ms : Q)
    : SyncResponse.t :=
  {| SyncResponse.request_id := request_id;
     SyncResponse.status := status;
     SyncResponse.result := result;
     SyncResponse.error := error;
     SyncResponse.execution_time_ms := execution_time_ms |}.

(** The [try] block and its two handlers. *)
Definition execute (s : Settings) (request_id : string) (payload : WorkPayload)
    (run : WorkRun) (start_time : Q) : M World SyncResponse.t :=
  try_except
    (result <- wait_for_do_work payload run (work_timeout_seconds s);;
     now <- time_time;;
     let execution_time_ms := ((now - start_time) * 1000)%Q in
     Repository.update_request_result request_id (Some result) None;;
     t_done <- time_time;;
     Repository.update_request_status request_id done None (Some t_done);;
     ret (respond request_id done (Some result) None execution_time_ms))
    (fun e =>
       match e with
       | AsyncioTimeoutError =>
           let error_msg := timeout_message s in
           let execution_time_ms := inject_Z (work_timeout_seconds s * 1000) in
           Repository.update_request_result request_id None (Some error_msg);;
           t_done <- time_time;;
           Repository.update_request_status request_id failed None (Some t_done);;
           ret (respond request_id failed None (Some error_msg) execution_time_ms)
       | _ =>
           let error_msg := error_message e in
           now <- time_time;;
           let execution_time_ms := ((now - start_time) * 1000)%Q in
           Repository.update_request_result request_id None (Some error_msg);;
           t_done <- time_time;;
           Repository.update_request_status request_id failed None (Some t_done);;
           ret (respond request_id failed None (Some error_msg) execution_time_ms)
       end).

(** [request_id] is the value of [str(uuid.uuid4())]. *)
Definition sync_endpoint (s : Settings) (request_id client_ip : string)
    (payload : WorkPayload) (run : WorkRun) : M World SyncResponse.t :=
  fun w =>
    if Asyncio.locked (sync_semaphore w) && (Asyncio._value (sync_semaphore w) =? 0)
    then raise (HTTPException 503
                  "Server is at maximum capacity. Please try again later.") w
    else
      with_semaphore
        (Repository.create_request request_id sync payload None client_ip;;
         start_time <- time_time;;
         Repository.update_request_status request_id processing
           (Some start_time) None;;
         execute s request_id payload run start_time) w.

(** Permits currently held, out of [max_sync_concurrency]. *)
Definition held_permits (s : Settings) (w : World) : Z :=
  max_sync_concurrency s - Asyncio._value (sync_semaphore w).

End SyncEndpoint.

(** ** api/async_endpoint.py *)

Module AsyncEndpoint.

(** [validation] is what [validate_callback_url] answers: [None] for
    [(True, None)], [Some error] for [(False, error)]. *)
Definition async_endpoint (validation : option string)
    (request_id client_ip : string) (payload : WorkPayload)
    (callback_url : string) : M World AsyncResponse.t :=
  match validation with
  | Some error => raise (HTTPException 400 error)
  | None =>
      Repository.create_request request_id async payload (Some callback_url)
        client_ip;;
      let job := {| Job.request_id := request_id;
                    Job.payload := payload;
                    Job.callback_url := callback_url |} in
      enqueued <- on_queue_manager (QueueManager.enqueue job);;
      if enqueued then
        ret {| AsyncResponse.request_id := request_id;
               AsyncResponse.status := pending;
               AsyncResponse.message :=
                 "Request accepted and queued for processing" |}
      else raise (HTTPException 429 "Queue is full. Please try again later.")
  end.

(** The rejection of a submission that found the queue full. *)
Definition queue_full_rejection : Exn :=
  HTTPException 429 "Queue is full. Please try again later.".

End AsyncEndpoint.

(** ** The running process

    Requests arrive and workers take turns; each action runs to its end
    on the state the previous one left. The coroutines of the real
    process interleave at their [await]s, but a row is only ever written
    by the coroutine that created it or by the one worker that dequeued
    its job, in that coroutine's program order, so what is written to any
    one row, and in which order, is the same as here. *)
Inductive Action : Type :=
| SyncRequest (request_id client_ip : string) (payload : WorkPayload)
    (run : WorkRun)
| AsyncRequest (validation : option string) (request_id client_ip : string)
    (payload : WorkPayload) (callback_url : string)
| WorkerTurn (run : WorkRun) (target : Callback.Target).

Definition step (s : Settings) (w : World) (a : Action) : World :=
  match a with
  | SyncRequest request_id client_ip payload run =>
      snd (SyncEndpoint.sync_endpoint s request_id client_ip payload run w)
  | AsyncRequest validation request_id client_ip payload callback_url =>
      snd (AsyncEndpoint.async_endpoint validation request_id client_ip
             payload callback_url w)
  | WorkerTurn run target =>
      snd (Processor.worker_iteration s run target w)
  end.

Definition run_actions (s : Settings) (acts : list Action) (w : World) : World :=
  fold_left (step s) acts w.

(** The statuses written to the row of [request_id], oldest first. *)
Fixpoint status_history (request_id : string) (evs : list Event) : list Status :=
  match evs with
  | [] => []
  | EvStatus r st :: evs' =>
      if decide (r = request_id) then st :: status_history request_id evs'
      else status_history request_id evs'
  | _ :: evs' => status_history request_id evs'
  end.

(** The jobs waiting in the queue. *)
Definition queued_jobs (w : World) : list Job.t :=
  Asyncio._queue (QueueManager.queue (queue_manager w)).

(** The edges of the lifecycle: [pending -> processing -> done | failed]. *)
Definition lifecycle_edge (a b : Status) : bool :=
  match a, b with
  | pending, processing => true
  | processing, done => true
  | processing, failed => true
  | _, _ => false
  end.

(** A history that starts at [pending] and follows edges only. *)
Fixpoint follows_edges (a : Status) (h : list Status) : bool :=
  match h with
  | [] => true
  | b :: h' => lifecycle_edge a b && follows_edges b h'
  end.

Definition lifecycle_history (h : list Status) : bool :=
  match h with
  | [] => true
  | a :: h' => bool_decide (a = pending) && follows_edges a h'
  end.

(** ** What a piece of code may change *)

(** [m] takes every state to one related to it by [R], however it ends. *)
Definition preserves {A} (R : relation World) (m : M World A) : Prop :=
  forall w, R w (snd (m w)).

(** From [w] to [w'] only the row of [request_id] may have changed, no row
    was removed, the only status writes were to that row, and the queue
    holds the same jobs. *)
Record touch (request_id : string) (w w' : World) : Prop := {
  touch_other_rows :
    forall x, x <> request_id -> db w' !! x = db w !! x;
  touch_rows_stay :
    forall x, is_Some (db w !! x) -> is_Some (db w' !! x);
  touch_events :
    exists L, events w' = events w ++ L /\
              forall x, x <> request_id -> status_history x L = [];
  touch_queue : queued_jobs w' = queued_jobs w
}.

(** ** How an execution ends, and the row it leaves *)

(** The three ways [asyncio.wait_for(do_work(...))] ends. *)
Inductive Verdict : Type :=
| Succeeded (result : Dict)
| TimedOut
| Crashed (msg : string).

Definition verdict (s : Settings) (run : WorkRun) : Verdict :=
  if wait_for_gives_up (work_timeout_seconds s) run
  then TimedOut
  else match run_result run with
       | inl msg => Crashed msg
       | inr d => Succeeded d
       end.

Definition verdict_status (v : Verdict) : Status :=
  match v with Succeeded _ => done | _ => failed end.

(** The message an execution that did not succeed leaves in [last_error]. *)
Definition verdict_error (s : Settings) (v : Verdict) : option string :=
  match v with
  | Succeeded _ => None
  | TimedOut => Some (timeout_message s)
  | Crashed msg => Some (error_message (EngineError msg))
  end.

Definition row_started (t : Q) (r : Request.t) : Request.t :=
  Repository.set_status processing (Some t) None r.

Definition row_done (t : Q) (d : Dict) (r : Request.t) : Request.t :=
  Repository.set_status done None (Some t)
    (Repository.set_result (Repository.result_column (Some d)) None r).

Definition row_failed (t : Q) (msg : string) (r : Request.t) : Request.t :=
  Repository.set_status failed None (Some t)
    (Repository.set_result None (Some msg) r).

(** The row after a worker or the sync endpoint is through with it:
    started at [t1], completed at [t2]; [delivered] and [delivery_error]
    are what [deliver_callback] returned. *)
Definition settled_row (s : Settings) (v : Verdict) (delivered : bool)
    (delivery_error : option string) (t1 t2 : Q) (r : Request.t) : Request.t :=
  match v with
  | Succeeded d =>
      let r' := row_done t2 d (row_started t1 r) in
      if delivered then r' else Repository.bump_attempts delivery_error r'
  | TimedOut => row_failed t2 (timeout_message s) (row_started t1 r)
  | Crashed msg =>
      row_failed t2 (error_message (EngineError msg)) (row_started t1 r)
  end.

(** The identifiers of the jobs waiting in the queue. *)
Definition queued_ids (w : World) : list string :=
  Job.request_id <$> queued_jobs w.

(** What holds of the table, the queue and the record of status writes
    between any two actions. *)
Record consistent (w : World) : Prop := {
  rows_match_history :
    forall x,
      match db w !! x with
      | Some r => last (status_history x (events w)) = Some (Request.status r)
      | None => status_history x (events w) = []
      end;
  histories_follow_lifecycle :
    forall x, lifecycle_history (status_history x (events w)) = true;
  queued_are_pending :
    forall x, x ∈ queued_ids w -> status_history x (events w) = [pending];
  queued_once : NoDup (queued_ids w)
}.

(** Every queued job has its row, and a request without a row has no
    status write. *)
Record grounded (w : World) : Prop := {
  queued_have_rows : forall x, x ∈ queued_ids w -> is_Some (db w !! x);
  no_row_no_history :
    forall x, db w !! x = None -> status_history x (events w) = []
}.

(** The request [request_id] has the row [r], was written [pending] and
    nothing since, and no job for it is in the queue. *)
Record parked (request_id : string) (r : Request.t) (w : World) : Prop := {
  parked_row : db w !! request_id = Some r;
  parked_history : status_history request_id (events w) = [pending];
  parked_unqueued : request_id ∉ queued_ids w
}.

(** ** Vocabulary for the statements about callback delivery *)

Module CallbackTrace.
Import Callback.

(** An attempt fails: a status of 400 or more, a timeout or an error. *)
Definition failed_attempt (o : HttpOutcome) : bool :=
  match o with
  | HttpResponse status_code _ => 400 <=? status_code
  | _ => true
  end.

(** The fixed part of the message of a failed attempt; the captured text
    follows it. *)
Definition error_label (s : Settings) (o : HttpOutcome) : string :=
  match o with
  | HttpResponse status_code _ => "HTTP " +:+ show_Z status_code +:+ ": "
  | HttpTimeout =>
      "Timeout after " +:+ show_Z (callback_timeout_seconds s) +:+ "s"
  | HttpRequestError _ => "Request error: "
  | HttpOtherError _ => "Unexpected error: "
  end.

(** The attempt numbers posted, and the seconds slept, in order. *)
Definition posts_of (evs : list Event) : list Z :=
  omap (fun e => match e with EvPost _ _ i => Some i | _ => None end) evs.

Definition sleeps_of (evs : list Event) : list Z :=
  omap (fun e => match e with EvSleep d => Some d | _ => None end) evs.

(** What the specification expects of a delivery that never succeeds:
    attempts [first .. first + count - 1] of [total], each followed by a
    sleep of [base ^ i] seconds except attempt [total - 1]. *)
Definition expected_backoff_trace (s : Settings) (callback_url : string)
    (body : CallbackPayload.t) (total first count : nat) : list Event :=
  flat_map
    (fun i =>
       EvPost callback_url body (Z.of_nat i) ::
       (if (S i <? total)%nat
        then [EvSleep (retry_backoff_base s ^ Z.of_nat i)]
        else []))
    (seq first count).

End CallbackTrace.

(** ** core/schemas.py, [RequestStatus] *)

Module RequestStatus.
Record t : Type := {
  request_id : string;
  mode : Mode;
  status : Status;
  payload : WorkPayload;
  result : option Dict;
  created_at : Q;
  completed_at : option Q;
  execution_time_ms : option Q;
  attempts : Z;
  last_error : option string
}.
End RequestStatus.

(** ** api/queries.py *)

Module Queries.

(** The truth value of a REAL column: NULL and [0.0] are false. *)
Definition truthy (x : option Q) : bool :=
  match x with
  | Some t => negb (Qeq_bool t 0)
  | None => false
  end.

(** [(req["completed_at"] - req["started_at"]) * 1000] when both are
    truthy, else [None]. *)
Definition execution_time_ms (req : Request.t) : option Q :=
  match Request.started_at req, Request.completed_at req with
  | Some started, Some completed =>
      if truthy (Some started) && truthy (Some completed)
      then Some ((completed - started) * 1000)%Q
      else None
  | _, _ => None
  end.

(** [GET /requests/{request_id}]. *)
Definition get_request (request_id : string) : M World RequestStatus.t :=
  req <- Repository.get_request request_id;;
  match req with
  | None => raise (HTTPException 404 "Request not found")
  | Some r =>
      ret {| RequestStatus.request_id := Request.id r;
             RequestStatus.mode := Request.mode r;
             RequestStatus.status := Request.status r;
             RequestStatus.payload := Request.payload r;
             RequestStatus.result := Request.result r;
             RequestStatus.created_at := Request.created_at r;
             RequestStatus.completed_at := Request.completed_at r;
             RequestStatus.execution_time_ms := execution_time_ms r;
             RequestStatus.attempts := Request.attempts r;
             RequestStatus.last_error := Request.last_error r |}
  end.

End Queries.

(** ** core/work.py, the prime search *)

Module Work.

(** [range(a, b)]. *)
Definition range (a b : Z) : list Z := seqZ a (b - a).

(** [is_prime] inside [_prime_operation]; [int(num ** 0.5)] is the
    integer square root, the power being taken in the reals. *)
Definition is_prime (num : Z) : bool :=
  if num <? 2 then false
  else forallb (fun i => negb (num mod i =? 0)) (range 2 (Z.sqrt num + 1)).

(** The locals of the [while] loop. *)
Record PrimeState : Type := {
  count : Z;
  num : Z;
  prime : Z;
  checks : Z
}.

(** One pass through the body of the loop. *)
Definition prime_step (st : PrimeState) : PrimeState :=
  if is_prime (num st)
  then {| count := count st + 1; num := num st + 1; prime := num st;
          checks := checks st + 1 |}
  else {| count := count st; num := num st + 1; prime := prime st;
          checks := checks st + 1 |}.

(** [while count < n and checks < max_checks: ...], at most [fuel]
    passes; [None] when the passes run out before the condition fails.
    The [await asyncio.sleep(0)] every hundredth pass gives up control and
    nothing else. *)
Fixpoint prime_loop (fuel : nat) (n max_checks : Z) (st : PrimeState)
    : option PrimeState :=
  if (count st <? n) && (checks st <? max_checks)
  then match fuel with
       | O => None
       | S fuel' => prime_loop fuel' n max_checks (prime_step st)
       end
  else Some st.

(** The dict returned, without its constant ["operation": "prime"]. *)
Record PrimeResult : Type := {
  res_prime : Z;
  res_position : Z
}.

Definition _prime_operation (n complexity : Z) : option PrimeResult :=
  let max_checks := n * complexity in
  match prime_loop (Z.to_nat max_checks) n max_checks
          {| count := 0; num := 2; prime := 2; checks := 0 |} with
  | Some st => Some {| res_prime := prime st; res_position := count st |}
  | None => None
  end.

(** The primes among the first [k] candidates [2, 3, ..., k + 1], as the
    loop meets them. *)
Definition primes_met (k : Z) : list Z := List.filter is_prime (seqZ 2 k).

(** The locals after [k] passes through the loop. *)
Definition after (k : Z) : PrimeState :=
  {| count := Z.of_nat (length (primes_met k));
     num := 2 + k;
     prime := List.last (primes_met k) 2;
     checks := k |}.

End Work.

(** ** core/work.py, the matrix operation *)

Module Matrix.
Import Work.

(** [for x in xs: body] on an accumulator; [None] is an exception raised
    by the body ([IndexError], [ZeroDivisionError]). *)
Fixpoint for_each {A S} (xs : list A) (body : A -> S -> option S) (acc : S)
    : option S :=
  match xs with
  | [] => Some acc
  | x :: xs' =>
      match body x acc with
      | Some acc' => for_each xs' body acc'
      | None => None
      end
  end.

Definition len {A} (l : list A) : Z := Z.of_nat (length l).

(** [l[i]]: a negative index counts from the end; [IndexError] outside
    the list. *)
Definition index {A} (l : list A) (i : Z) : option A :=
  let k := if i <? 0 then i + len l else i in
  if k <? 0 then None else l !! Z.to_nat k.

(** [a % b] for integers: [ZeroDivisionError] when [b] is zero. *)
Definition py_mod (a b : Z) : option Z :=
  if b =? 0 then None else Some (a mod b).

Definition matrix_a (size : Z) : list (list Z) :=
  map (fun i => map (fun j => i + j) (range 0 (Z.min size 50)))
    (range 0 (Z.min size 50)).

Definition matrix_b (size : Z) : list (list Z) :=
  map (fun i => map (fun j => i * j) (range 0 (Z.min size 50)))
    (range 0 (Z.min size 50)).

(** [matrix_a[i][j] * matrix_b[j][i % len(matrix_b)]]. *)
Definition term (a b : list (list Z)) (i j : Z) : option Z :=
  row_a ← index a i;
  x ← index row_a j;
  row_b ← index b j;
  k ← py_mod i (len b);
  y ← index row_b k;
  Some (x * y).

(** The two inner [for] loops, which make one pass of the outer one (its
    [await asyncio.sleep(0)] gives up control and nothing else). *)
Definition one_pass (a b : list (list Z)) (result_sum : Z) : option Z :=
  for_each (range 0 (len a))
    (fun i result_sum =>
       b0 ← index b 0;
       for_each (range 0 (len b0))
         (fun j result_sum => t ← term a b i j; Some (result_sum + t))
         result_sum)
    result_sum.

(** The dict returned, without its constant ["operation": "matrix"]. *)
Record MatrixResult : Type := {
  result_sum : Z;
  mat_size : Z;
  mat_iterations : Z
}.

Definition _matrix_operation (size complexity : Z) : option MatrixResult :=
  let a := matrix_a size in
  let b := matrix_b size in
  let iterations := complexity * 100 in
  total ← for_each (range 0 iterations) (fun _ acc => one_pass a b acc) 0;
  Some {| result_sum := total; mat_size := size; mat_iterations := iterations |}.

(** The sum over [i, j < m] of [(i + j) * (j * i)]. *)
Definition pass_sum (m : Z) : Z := m ^ 2 * (m - 1) ^ 2 * (2 * m - 1) / 6.

End Matrix.

(** ** Vocabulary for the statements about runs *)

Module RateLimiterRuns.
Import RateLimiter.

(** A run of calls of the limiter, keeping what each call returned. *)
Fixpoint run_checks_log (s : Settings) (cs : list Check) (buckets : Buckets)
    : list (Outcome (bool * Z)) * Buckets :=
  match cs with
  | [] => ([], buckets)
  | c :: cs' =>
      let '(o, buckets') :=
        check_rate_limit s (chk_client c) (chk_t_new c) (chk_now c) buckets in
      let '(os, buckets'') := run_checks_log s cs' buckets' in
      (o :: os, buckets'')
  end.

(** [n] requests of one client at the same instant [t]. *)
Definition burst (client : string) (t : Q) (n : nat) : list Check :=
  replicate n {| chk_client := client; chk_t_new := t; chk_now := t |}.

End RateLimiterRuns.

(** Calls on the queue manager, and what came of them. *)
Module QueueOps.

(** The calls a producer or a worker makes on the queue manager. *)
Inductive Op : Type :=
| Enqueue (job : Job.t)
| Dequeue
| TaskDone.

(** The manager together with the jobs [enqueue] accepted and the jobs
    [dequeue] handed out so far, oldest first. *)
Record State : Type := {
  manager : QueueManager.t;
  accepted : list Job.t;
  handed_out : list Job.t
}.

Definition apply_op (st : State) (op : Op) : State :=
  match op with
  | Enqueue job =>
      let '(o, qm) := QueueManager.enqueue job (manager st) in
      {| manager := qm;
         accepted := match o with
                     | Ret true => accepted st ++ [job]
                     | _ => accepted st
                     end;
         handed_out := handed_out st |}
  | Dequeue =>
      let '(o, qm) := QueueManager.dequeue (manager st) in
      {| manager := qm;
         accepted := accepted st;
         handed_out := match o with
                       | Ret job => handed_out st ++ [job]
                       | _ => handed_out st
                       end |}
  | TaskDone =>
      {| manager := snd (QueueManager.task_done (manager st));
         accepted := accepted st;
         handed_out := handed_out st |}
  end.

Definition run_ops (s : Settings) (ops : list Op) : State :=
  fold_left apply_op ops
    {| manager := QueueManager.init s; accepted := []; handed_out := [] |}.

(** What every run keeps. *)
Record sound (s : Settings) (st : State) : Prop := {
  sound_fifo :
    accepted st
    = handed_out st ++ Asyncio._queue (QueueManager.queue (manager st));
  sound_maxsize :
    Asyncio._maxsize (QueueManager.queue (manager st)) = max_queue_size s;
  sound_bounded :
    0 < max_queue_size s ->
    QueueManager.get_size (manager st) <= max_queue_size s;
  sound_enqueued :
    QueueManager.total_enqueued (manager st) = Z.of_nat (length (accepted st));
  sound_unfinished :
    Asyncio._unfinished_tasks (QueueManager.queue (manager st))
    = QueueManager.total_enqueued (manager st)
      - QueueManager.total_processed (manager st);
  sound_processed : 0 <= QueueManager.total_processed (manager st);
  sound_pending :
    0 <= Asyncio._unfinished_tasks (QueueManager.queue (manager st))
}.

End QueueOps.

Module CallbackRuns.
Import Callback CallbackTrace.

(** The first of the attempts [first .. first + count - 1] that the target
    lets succeed. *)
Fixpoint first_success (target : Target) (first count : nat) : option nat :=
  match count with
  | O => None
  | S count' =>
      if failed_attempt (target first)
      then first_success target (S first) count'
      else Some first
  end.

(** The number of posts a delivery with [count] attempts to go makes from
    attempt [first] on. *)
Fixpoint attempts_made (target : Target) (first count : nat) : nat :=
  match count with
  | O => O
  | S count' =>
      if failed_attempt (target first)
      then S (attempts_made target (S first) count')
      else 1%nat
  end.

End CallbackRuns.

(** [m] never suspends: it returns or raises in every state. *)
Definition never_blocks {A} (m : M World A) : Prop :=
  forall w, fst (m w) <> Block.

Module WorkerRuns.
Import Callback CallbackTrace CallbackRuns.

(** What [deliver_callback] returns against [target] when it has at least
    one attempt to make. *)
Definition delivery_result (s : Settings) (target : Target)
    : bool * option string :=
  let retries := Z.to_nat (max_callback_retries s) in
  match first_success target 0 retries with
  | Some _ => (true, None)
  | None =>
      let final := target (retries - 1)%nat in
      (false,
       Some (failure_message s (error_label s final +:+ captured_text final)))
  end.

(** The posts among [evs]: where to, what, and the attempt number. *)
Definition posted (evs : list Event) : list (string * CallbackPayload.t * Z) :=
  omap (fun e => match e with
                 | EvPost url body i => Some (url, body, i)
                 | _ => None
                 end) evs.

(** The callback payload the worker builds for a job whose execution ended
    with [v]; [started], [measured] and [stamped] are the clock readings
    taken when the job was started, when the execution time was measured
    and when the payload was built. *)
Definition outcome_payload (s : Settings) (job : Job.t) (v : Verdict)
    (started measured stamped : Q) : CallbackPayload.t :=
  {| CallbackPayload.request_id := Job.request_id job;
     CallbackPayload.status := verdict_status v;
     CallbackPayload.result :=
       match v with Succeeded d => Some d | _ => None end;
     CallbackPayload.error := verdict_error s v;
     CallbackPayload.execution_time_ms :=
       match v with
       | Succeeded _ => ((measured - started) * 1000)%Q
       | TimedOut => inject_Z (work_timeout_seconds s * 1000)
       | Crashed _ => 0%Q
       end;
     CallbackPayload.completed_at := stamped |}.

End WorkerRuns.

(** From [w] to [w'] the queue manager was left alone. *)
Definition same_queue_manager (w w' : World) : Prop :=
  queue_manager w' = queue_manager w.

(** The counters of a queue manager while no worker holds a job. *)
Record settled_queue (s : Settings) (qm : QueueManager.t) : Prop := {
  settled_unfinished :
    Asyncio._unfinished_tasks (QueueManager.queue qm) = QueueManager.get_size qm;
  settled_counters :
    QueueManager.total_enqueued qm
    = QueueManager.total_processed qm + QueueManager.get_size qm;
  settled_maxsize :
    Asyncio._maxsize (QueueManager.queue qm) = max_queue_size s;
  settled_bounded :
    0 < max_queue_size s -> QueueManager.get_size qm <= max_queue_size s;
  settled_processed : 0 <= QueueManager.total_processed qm
}.

(** [r] is the row the async endpoint wrote when it admitted [job], as
    written. *)
Definition admitted_row (job : Job.t) (r : Request.t) : Prop :=
  exists created_at client_ip,
    r = Repository.new_row (Job.request_id job) async (Job.payload job)
          (Some (Job.callback_url job)) created_at client_ip.

(** Every queued job still has the row of its admission, and no two
    queued jobs share an identifier. *)
Record queue_backed (w : World) : Prop := {
  backed_rows :
    forall job, job ∈ queued_jobs w ->
      exists r, db w !! Job.request_id job = Some r /\ admitted_row job r;
  backed_once : NoDup (queued_ids w)
}.

(** ** Inputs used to exercise the statements below *)

Module Samples.

(** A burst of requests of one client, all at the same instant. *)
Definition burst_check : RateLimiter.Check :=
  {| RateLimiter.chk_client := "203.0.113.7";
     RateLimiter.chk_t_new := 0%Q;
     RateLimiter.chk_now := 0%Q |}.

(** The buckets after [rate_limit_requests] allowed requests of the burst
    under the default settings: the client's bucket is empty. *)
Definition drained_buckets : RateLimiter.Buckets :=
  RateLimiter.run_checks default_settings (replicate 100 burst_check) ∅.

(** The default settings with a queue of two places. *)
Definition small_queue_settings : Settings := {|
  max_sync_concurrency := 10;
  work_timeout_seconds := 30;
  num_workers := 5;
  max_queue_size := 2;
  callback_timeout_seconds := 10;
  max_callback_retries := 3;
  retry_backoff_base := 2;
  rate_limit_requests := 100;
  rate_limit_window_seconds := 60
|}.

Definition hash_payload : WorkPayload :=
  {| operation := "hash"; complexity := 1; data := [("input", "abc")] |}.


Definition job_of (request_id : string) : Job.t :=
  {| Job.request_id := request_id;
     Job.payload := hash_payload;
     Job.callback_url := "https://client.example/hook" |}.

(** A queue manager of two places, both taken. *)
Definition full_queue_manager : QueueManager.t :=
  snd (QueueManager.enqueue (job_of "r2")
         (snd (QueueManager.enqueue (job_of "r1")
                 (QueueManager.init small_queue_settings)))).

(** A callback target that answers 500 to every post. *)
Definition broken_target : Callback.Target :=
  fun _ => Callback.HttpResponse 500 "Internal Server Error".

Definition sample_body : CallbackPayload.t :=
  {| CallbackPayload.request_id := "r1";
     CallbackPayload.status := done;
     CallbackPayload.result := Some [("operation", "hash")];
     CallbackPayload.error := None;
     CallbackPayload.execution_time_ms := 12%Q;
     CallbackPayload.completed_at := 5%Q |}.

(** A clock that ticks once per reading. *)
Definition ticking_clock (n : nat) : Q := inject_Z (Z.of_nat n).

(** An execution that would take 31 seconds, awaiting every ten
    seconds and half a second before its end; one that ends in a second;
    and one that raises before any [await]. *)
Definition slow_run : WorkRun :=
  {| run_duration := 31%Q;
     run_result := inr [("operation", "hash")];
     run_awaits := [0%Q; 10%Q; 20%Q; (61 # 2)%Q] |}.

Definition quick_run : WorkRun :=
  {| run_duration := 1%Q;
     run_result := inr [("operation", "hash")];
     run_awaits := [0%Q] |}.

Definition crashing_run : WorkRun :=
  {| run_duration := 1%Q;
     run_result := inl "Unknown operation: sort";
     run_awaits := [] |}.


(** The process after one accepted async submission. *)
Definition one_job_world : World :=
  snd (AsyncEndpoint.async_endpoint None "r1" "198.51.100.4" hash_payload
         "https://client.example/hook"
         (init_world default_settings ticking_clock)).

(** The row that submission created. *)
Definition r1_row : Request.t :=
  Repository.new_row "r1" async hash_payload
    (Some "https://client.example/hook") 0%Q "198.51.100.4".

(** Settings with a single sync permit, and the process while one sync
    request holds it. *)
Definition one_permit_settings : Settings := {|
  max_sync_concurrency := 1;
  work_timeout_seconds := 30;
  num_workers := 5;
  max_queue_size := 100;
  callback_timeout_seconds := 10;
  max_callback_retries := 3;
  retry_backoff_base := 2;
  rate_limit_requests := 100;
  rate_limit_window_seconds := 60
|}.

Definition saturated_world : World :=
  snd (on_semaphore Asyncio.acquire
         (init_world one_permit_settings ticking_clock)).

(** Two submissions fill the queue of two places; then workers take
    three turns. *)
Definition filling_actions : list Action :=
  [AsyncRequest None "r1" "198.51.100.4" hash_payload
     "https://client.example/hook";
   AsyncRequest None "r2" "198.51.100.4" hash_payload
     "https://client.example/hook"].

Definition draining_actions : list Action :=
  [WorkerTurn quick_run broken_target;
   WorkerTurn slow_run broken_target;
   WorkerTurn quick_run broken_target].

(** The default settings with [MAX_CALLBACK_RETRIES=0], and the process
    after one accepted async submission under them. *)
Definition no_retry_settings : Settings := {|
  max_sync_concurrency := 10;
  work_timeout_seconds := 30;
  num_workers := 5;
  max_queue_size := 100;
  callback_timeout_seconds := 10;
  max_callback_retries := 0;
  retry_backoff_base := 2;
  rate_limit_requests := 100;
  rate_limit_window_seconds := 60
|}.

Definition one_job_world_no_retry : World :=
  snd (AsyncEndpoint.async_endpoint None "r1" "198.51.100.4" hash_payload
         "https://client.example/hook"
         (init_world no_retry_settings ticking_clock)).

End Samples.

Module MoreSamples.

(** A callback target that answers 503 to the first post and 200 to
    every later one. *)
Definition flaky_target : Callback.Target :=
  fun i => match i with
           | O => Callback.HttpResponse 503 "Service Unavailable"
           | _ => Callback.HttpResponse 200 "ok"
           end.

End MoreSamples.

(** * Properties *)

(** ** Rate limiter *)

Module RateLimiterFacts.
Import RateLimiter.

Lemma py_min_le_l (a b : Q) : (py_min a b <= a)%Q.
Proof. unfold py_min. destruct (Qlt_le_dec b a); lra. Qed.

Lemma py_int_nonneg_floor (x : Q) : (0 <= x)%Q -> py_int x = Qfloor x.
Proof.
  destruct x as [n d]. unfold py_int, Qle. simpl. intros Hn.
  apply Z.quot_div_nonneg; lia.
Qed.

Lemma refill_le_max (s : Settings) (bucket : Q * Q) (now : Q) :
  (refill s bucket now <= inject_Z (rate_limit_requests s))%Q.
Proof. destruct bucket as [tokens last_update]. apply py_min_le_l. Qed.

Lemma bucket_get_lookup (s : Settings) (client : string) (t_new : Q)
    (buckets : Buckets) :
  snd (bucket_get s client t_new buckets) !! client
  = Some (fst (bucket_get s client t_new buckets)).
Proof.
  unfold bucket_get. destruct (buckets !! client) eqn:E; simpl; [done|].
  by rewrite lookup_insert_eq.
Qed.

Lemma bucket_get_range (s : Settings) (client : string) (t_new : Q)
    (buckets : Buckets) :
  0 <= rate_limit_requests s ->
  map_Forall (fun _ b => bucket_in_range s b) buckets ->
  map_Forall (fun _ b => bucket_in_range s b)
    (snd (bucket_get s client t_new buckets)).
Proof.
  intros Hmax Hall. unfold bucket_get.
  destruct (buckets !! client) eqn:E; simpl; [done|].
  apply map_Forall_insert_2; [|done].
  split; simpl; [|lra].
  change 0%Q with (inject_Z 0). rewrite <- Zle_Qle. lia.
Qed.

Lemma check_rate_limit_range (s : Settings) (client : string) (t_new now : Q)
    (buckets : Buckets) :
  0 <= rate_limit_requests s ->
  map_Forall (fun _ b => bucket_in_range s b) buckets ->
  map_Forall (fun _ b => bucket_in_range s b)
    (snd (check_rate_limit s client t_new now buckets)).
Proof.
  intros Hmax Hall. unfold check_rate_limit.
  destruct (rate_limit_window_seconds s =? 0); [done|].
  pose proof (bucket_get_range s client t_new buckets Hmax Hall) as Hget.
  destruct (bucket_get s client t_new buckets) as [bucket buckets1].
  simpl in Hget.
  destruct (Qle_bool 1 (refill s bucket now)) eqn:Hge; simpl.
  - apply Qle_bool_iff in Hge.
    apply map_Forall_insert_2; [|done].
    pose proof (refill_le_max s bucket now).
    split; simpl; lra.
  - destruct (Qeq_bool (refill_rate s) 0); done.
Qed.

Lemma run_checks_range (s : Settings) (cs : list Check) (buckets : Buckets) :
  0 <= rate_limit_requests s ->
  map_Forall (fun _ b => bucket_in_range s b) buckets ->
  map_Forall (fun _ b => bucket_in_range s b) (run_checks s cs buckets).
Proof.
  intros Hmax. revert buckets.
  induction cs as [|c cs IH]; intros buckets Hall; simpl; [done|].
  apply IH. by apply check_rate_limit_range.
Qed.

(** C8. Whatever checks were made, for whatever clients and at whatever
    clock readings, every stored bucket holds a token count in
    [[0, max_tokens]] (for a limit [max_tokens >= 0], without which the
    interval is empty); and the count a later check computes from it by
    refilling is again at most [max_tokens]. *)
Theorem bucket_tokens_in_range (s : Settings) (cs : list Check)
    (client : string) (bucket : Q * Q) :
  0 <= rate_limit_requests s ->
  run_checks s cs ∅ !! client = Some bucket ->
  (0 <= fst bucket)%Q /\
  (fst bucket <= inject_Z (rate_limit_requests s))%Q /\
  forall now, (refill s bucket now <= inject_Z (rate_limit_requests s))%Q.
Proof.
  intros Hmax Hlook.
  destruct (run_checks_range s cs ∅ Hmax (map_Forall_empty _) client bucket
              Hlook) as [Hlow Hhigh].
  split; [exact Hlow|]. split; [exact Hhigh|].
  intros now. apply refill_le_max.
Qed.

Lemma bucket_tokens_in_range_witness :
  (0 <= 99)%Q /\ (99 <= inject_Z (rate_limit_requests default_settings))%Q.
Proof.
  destruct (bucket_tokens_in_range default_settings [Samples.burst_check]
              "203.0.113.7" (99%Q, 0%Q)) as (Hlow & Hhigh & _).
  - vm_compute. discriminate.
  - vm_compute. reflexivity.
  - split; [exact Hlow | exact Hhigh].
Defined.

Lemma refill_rate_pos (s : Settings) :
  0 < rate_limit_requests s -> 0 < rate_limit_window_seconds s ->
  (0 < refill_rate s)%Q.
Proof.
  intros Hm Hw. unfold refill_rate, Qdiv.
  apply Qmult_lt_0_compat.
  - change 0%Q with (inject_Z 0). rewrite <- Zlt_Qlt. lia.
  - apply Qinv_lt_0_compat. change 0%Q with (inject_Z 0).
    rewrite <- Zlt_Qlt. lia.
Qed.

(** What a check leaves behind, case by case. *)
Lemma check_rate_limit_cases (s : Settings) (client : string) (t_new now : Q)
    (buckets : Buckets) :
  let got := bucket_get s client t_new buckets in
  let tokens := refill s (fst got) now in
  match check_rate_limit s client t_new now buckets with
  | (Ret (true, retry_after), buckets') =>
      retry_after = 0 /\ (1 <= tokens)%Q /\
      buckets' = <[client := ((tokens - 1)%Q, now)]> (snd got)
  | (Ret (false, retry_after), buckets') =>
      retry_after = py_int ((1 - tokens) / refill_rate s)%Q /\
      (tokens < 1)%Q /\ buckets' = snd got
  | (Raise e, buckets') =>
      e = ZeroDivisionError /\
      ((rate_limit_window_seconds s = 0 /\ buckets' = buckets) \/
       (refill_rate s == 0 /\ (tokens < 1)%Q /\ buckets' = snd got))
  | (Block, _) => False
  end.
Proof.
  unfold check_rate_limit.
  destruct (rate_limit_window_seconds s =? 0) eqn:Hw.
  { apply Z.eqb_eq in Hw. simpl. auto. }
  destruct (bucket_get s client t_new buckets) as [bucket buckets1]. simpl.
  destruct (Qle_bool 1 (refill s bucket now)) eqn:Hge.
  { apply Qle_bool_iff in Hge. auto. }
  assert (refill s bucket now < 1)%Q as Hlt.
  { apply Qnot_le_lt. intros Hle. apply Qle_bool_iff in Hle. congruence. }
  destruct (Qeq_bool (refill_rate s) 0) eqn:Hz.
  { apply Qeq_bool_iff in Hz. auto 6. }
  auto.
Qed.

Lemma refill_rate_above_one (s : Settings) :
  1 <= rate_limit_window_seconds s ->
  rate_limit_window_seconds s < rate_limit_requests s ->
  (1 < refill_rate s)%Q.
Proof.
  intros Hw Hm. unfold refill_rate. apply Qlt_shift_div_l.
  - change 0%Q with (inject_Z 0). rewrite <- Zlt_Qlt. lia.
  - rewrite Qmult_1_l, <- Zlt_Qlt. exact Hm.
Qed.

Lemma refill_nonneg (s : Settings) (tok last now : Q) :
  0 <= rate_limit_requests s ->
  (0 <= refill_rate s)%Q ->
  (0 <= tok)%Q -> (last <= now)%Q ->
  (0 <= refill s (tok, last) now)%Q.
Proof.
  intros Hm Hrate Htok Hclock. unfold refill, py_min.
  destruct (Qlt_le_dec _ _).
  - assert (0 <= (now - last) * refill_rate s)%Q
      by (apply Qmult_le_0_compat; lra).
    lra.
  - change 0%Q with (inject_Z 0). rewrite <- Zle_Qle. exact Hm.
Qed.

(** C2, what the code does. Take settings with more than one token per
    second ([rate_limit_window_seconds < rate_limit_requests], as the
    defaults 60 and 100 are; at most [2^53] tokens, so that doubles hold
    the settings exactly) and a client whose bucket exists, holds no
    negative count and was last updated no later than now. Whenever such
    a client is denied, [int((1 - tokens) / refill_rate)] is 0, while the
    quotient is positive and its ceiling, the value the specification
    gives, is 1: the hint says "try again in 0 seconds", and the client
    that does so, at the same reading of the clock, is denied again. *)
Theorem denied_hint_is_zero_above_one_token_per_second (s : Settings)
    (client : string) (t_new now : Q) (buckets buckets' : Buckets)
    (tok last : Q) (retry_after : Z) :
  1 <= rate_limit_window_seconds s ->
  rate_limit_window_seconds s < rate_limit_requests s ->
  rate_limit_requests s <= 2 ^ 53 ->
  buckets !! client = Some (tok, last) ->
  (0 <= tok)%Q ->
  (last <= now)%Q ->
  check_rate_limit s client t_new now buckets
    = (Ret (false, retry_after), buckets') ->
  let tokens := refill s (tok, last) now in
  (0 <= tokens < 1)%Q /\
  retry_after = 0 /\
  (0 < (1 - tokens) / refill_rate s)%Q /\
  py_ceil ((1 - tokens) / refill_rate s) = 1 /\
  check_rate_limit s client t_new now buckets' = (Ret (false, 0), buckets').
Proof.
  intros Hw Hm _ Hlook Htok Hclock Hcheck tokens.
  pose proof (check_rate_limit_cases s client t_new now buckets) as Hc.
  rewrite Hcheck in Hc. cbn zeta in Hc. unfold bucket_get in Hc.
  rewrite Hlook in Hc. cbn [fst snd] in Hc.
  destruct Hc as (Hra & Hlt & ->). fold tokens in Hra, Hlt.
  pose proof (refill_rate_above_one s Hw Hm) as Hrate.
  assert (0 <= tokens)%Q as Hpos
    by (apply refill_nonneg; [lia|lra|done|done]).
  assert (0 < (1 - tokens) / refill_rate s)%Q as Hq0.
  { apply Qlt_shift_div_l; lra. }
  assert ((1 - tokens) / refill_rate s < 1)%Q as Hq1.
  { apply Qlt_shift_div_r; lra. }
  rewrite py_int_nonneg_floor in Hra by lra.
  assert (retry_after = 0) as ->.
  { subst retry_after.
    pose proof (Qfloor_le ((1 - tokens) / refill_rate s)) as Hfl.
    pose proof (Qlt_floor ((1 - tokens) / refill_rate s)) as Hfl'.
    assert (inject_Z (Qfloor ((1 - tokens) / refill_rate s)) < inject_Z 1)%Q
      as H1 by (change (inject_Z 1) with 1%Q; lra).
    assert (inject_Z (-1) < inject_Z (Qfloor ((1 - tokens) / refill_rate s)))%Q
      as H2.
    { rewrite inject_Z_plus in Hfl'. change (inject_Z 1) with 1%Q in Hfl'.
      change (inject_Z (-1)) with (-1)%Q. lra. }
    rewrite <- Zlt_Qlt in H1, H2. lia. }
  split; [split; [exact Hpos|exact Hlt]|].
  split; [reflexivity|]. split; [exact Hq0|]. split; [|exact Hcheck].
  unfold py_ceil.
  pose proof (Qle_ceiling ((1 - tokens) / refill_rate s)) as Hc1.
  pose proof (Qceiling_lt ((1 - tokens) / refill_rate s)) as Hc2.
  assert (inject_Z 0 < inject_Z (Qceiling ((1 - tokens) / refill_rate s)))%Q
    as H1 by (change (inject_Z 0) with 0%Q; lra).
  assert (inject_Z (Qceiling ((1 - tokens) / refill_rate s)) < inject_Z 2)%Q
    as H2.
  { unfold Z.sub in Hc2. rewrite inject_Z_plus, inject_Z_opp in Hc2.
    change (inject_Z 1) with 1%Q in Hc2.
    change (inject_Z 2) with 2%Q. lra. }
  rewrite <- Zlt_Qlt in H1, H2. lia.
Qed.

Lemma denied_hint_is_zero_above_one_token_per_second_witness :
  exists tokens : Q,
    (0 <= tokens < 1)%Q /\
    py_ceil ((1 - tokens) / refill_rate default_settings) = 1 /\
    check_rate_limit default_settings "203.0.113.7" 0 0 Samples.drained_buckets
    = (Ret (false, 0), Samples.drained_buckets).
Proof.
  edestruct (denied_hint_is_zero_above_one_token_per_second default_settings
               "203.0.113.7" 0 0 Samples.drained_buckets
               Samples.drained_buckets)
    as (Hrange & _ & _ & Hceil & Hagain).
  - vm_compute. discriminate.
  - reflexivity.
  - vm_compute. discriminate.
  - vm_compute. reflexivity.
  - vm_compute. discriminate.
  - vm_compute. discriminate.
  - vm_compute. reflexivity.
  - eexists. split; [exact Hrange|]. split; [exact Hceil|exact Hagain].
Defined.

(** C9, as the code has it. A check creates the client's bucket with full
    tokens when it is absent; an allowed check then stores the refilled
    count less one together with the present time; a denied check stores
    nothing, so the token count and timestamp stay as they were (or as
    just created); no other client's bucket is touched. *)
Theorem check_bucket_effect (s : Settings) (client : string) (t_new now : Q)
    (buckets : Buckets) :
  let got := bucket_get s client t_new buckets in
  let tokens := refill s (fst got) now in
  fst got = default (inject_Z (rate_limit_requests s), t_new) (buckets !! client) /\
  match check_rate_limit s client t_new now buckets with
  | (Ret (true, _), buckets') =>
      (1 <= tokens)%Q /\
      buckets' = <[client := ((tokens - 1)%Q, now)]> buckets
  | (Ret (false, _), buckets') =>
      (tokens < 1)%Q /\
      buckets' !! client = Some (fst got) /\
      forall other, other <> client -> buckets' !! other = buckets !! other
  | (Raise _, buckets') =>
      forall other, other <> client -> buckets' !! other = buckets !! other
  | (Block, _) => False
  end.
Proof.
  intros got tokens.
  pose proof (check_rate_limit_cases s client t_new now buckets) as Hc.
  pose proof (bucket_get_lookup s client t_new buckets) as Hlook.
  fold got in Hc, Hlook. fold tokens in Hc.
  assert (forall other, other <> client ->
            snd got !! other = buckets !! other) as Hother.
  { intros other Hne. unfold got, bucket_get.
    destruct (buckets !! client); simpl; [done|].
    by rewrite lookup_insert_ne. }
  split.
  { unfold got, bucket_get. by destruct (buckets !! client). }
  destruct (check_rate_limit s client t_new now buckets) as [[[[] ra]|e|] buckets'].
  - destruct Hc as (_ & Hge & ->). split; [done|].
    clear Hge Hlook Hother. subst tokens got. unfold bucket_get.
    destruct (buckets !! client); simpl; [done|].
    by rewrite insert_insert_eq.
  - destruct Hc as (_ & Hlt & ->). auto.
  - destruct Hc as (_ & [[_ ->] | (_ & _ & ->)]); auto.
  - done.
Qed.

(** C9, counterexample. Default settings, the emptied bucket of the burst
    (tokens 0, timestamp 0): a check at time 3/10 finds 1/2 token, is
    denied, and leaves the stored timestamp at 0 and the stored count at
    0. *)
Lemma denied_check_stores_nothing :
  let r := check_rate_limit default_settings "203.0.113.7" 0 (3 # 10)
             Samples.drained_buckets in
  fst r = Ret (false, 0) /\
  match snd r !! "203.0.113.7" with
  | Some (tokens, last_update) =>
      tokens == 0 /\ last_update == 0 /\ ~ last_update == 3 # 10 /\
      ~ tokens == refill default_settings (0, 0)%Q (3 # 10)
  | None => False
  end.
Proof. vm_compute. repeat split; discriminate. Qed.

End RateLimiterFacts.

(** ** Job queue *)

Module QueueManagerFacts.
Import QueueManager.

Lemma enqueue_full (job : Job.t) (qm : t) :
  Asyncio.full (queue qm) = true -> enqueue job qm = (Ret false, qm).
Proof.
  intros Hfull. unfold enqueue, try_except, bind, lift, Asyncio.put_nowait.
  rewrite Hfull. simpl. by destruct qm.
Qed.

Lemma enqueue_not_full (job : Job.t) (qm : t) :
  Asyncio.full (queue qm) = false ->
  enqueue job qm =
    (Ret true,
     {| queue := {| Asyncio._queue := Asyncio._queue (queue qm) ++ [job];
                    Asyncio._maxsize := Asyncio._maxsize (queue qm);
                    Asyncio._unfinished_tasks :=
                      Asyncio._unfinished_tasks (queue qm) + 1 |};
        total_enqueued := total_enqueued qm + 1;
        total_processed := total_processed qm |}).
Proof.
  intros Hfull. unfold enqueue, try_except, bind, lift, Asyncio.put_nowait.
  rewrite Hfull. reflexivity.
Qed.

(** C4. On a queue holding as many jobs as its capacity (a positive
    [maxsize]), [enqueue] returns [False] at once and leaves the manager,
    hence the queue's contents and [total_enqueued], as it was. With a
    capacity of 2, three enqueues on a fresh manager answer [True], [True],
    [False], and the metrics then read [current_size = 2],
    [total_enqueued = 2]. *)
Theorem enqueue_at_capacity (s : Settings) (qm : t) (job j1 j2 j3 : Job.t) :
  0 < Asyncio._maxsize (queue qm) ->
  get_size qm = Asyncio._maxsize (queue qm) ->
  enqueue job qm = (Ret false, qm) /\
  (max_queue_size s = 2 ->
   let r1 := enqueue j1 (init s) in
   let r2 := enqueue j2 (snd r1) in
   let r3 := enqueue j3 (snd r2) in
   fst r1 = Ret true /\ fst r2 = Ret true /\ fst r3 = Ret false /\
   Asyncio._queue (queue (snd r3)) = [j1; j2] /\
   m_current_size (get_metrics s (snd r3)) = 2 /\
   m_total_enqueued (get_metrics s (snd r3)) = 2).
Proof.
  intros Hpos Hsize. split.
  - apply enqueue_full. unfold Asyncio.full, get_size in *.
    destruct (Asyncio._maxsize (queue qm) <=? 0) eqn:E; [lia|].
    apply Z.leb_le. lia.
  - intros Hcap. unfold get_metrics, init. rewrite Hcap. cbv.
    repeat split; reflexivity.
Qed.

Lemma enqueue_at_capacity_witness :
  enqueue (Samples.job_of "r3") Samples.full_queue_manager
  = (Ret false, Samples.full_queue_manager).
Proof.
  apply (enqueue_at_capacity Samples.small_queue_settings
           Samples.full_queue_manager (Samples.job_of "r3")
           (Samples.job_of "r1") (Samples.job_of "r2") (Samples.job_of "r3")).
  - vm_compute. reflexivity.
  - vm_compute. reflexivity.
Defined.

End QueueManagerFacts.

(** ** Reasoning about code in [M] *)

Module Exec.

Lemma status_history_app (x : string) (l1 l2 : list Event) :
  status_history x (l1 ++ l2) = status_history x l1 ++ status_history x l2.
Proof.
  induction l1 as [|[r st| | |] l1 IH]; simpl; try done.
  destruct (decide (r = x)); simpl; by rewrite IH.
Qed.

Lemma started_at_set_status (st : Status) (t : Q) (ca : option Q)
    (r : Request.t) :
  Request.started_at (Repository.set_status st (Some t) ca r) = Some t.
Proof. reflexivity. Qed.

Lemma task_done_cases (qm : QueueManager.t) :
  exists o qm',
    QueueManager.task_done qm = (o, qm') /\
    o <> Block /\
    Asyncio._queue (QueueManager.queue qm')
    = Asyncio._queue (QueueManager.queue qm).
Proof.
  unfold QueueManager.task_done, bind, lift, Asyncio.task_done,
    QueueManager.incr_total_processed.
  destruct (Asyncio._unfinished_tasks (QueueManager.queue qm) <=? 0);
    simpl; eauto 6.
Qed.

Section Preserves.
Context (R : relation World) `{!Reflexive R, !Transitive R}.

Lemma preserves_ret {A} (a : A) : preserves R (ret a).
Proof. intros w. simpl. reflexivity. Qed.

Lemma preserves_raise {A} (e : Exn) : preserves R (@raise World A e).
Proof. intros w. simpl. reflexivity. Qed.

Lemma preserves_bind {A B} (m : M World A) (k : A -> M World B) :
  preserves R m -> (forall a, preserves R (k a)) -> preserves R (bind m k).
Proof.
  intros Hm Hk w. unfold bind. specialize (Hm w).
  destruct (m w) as [[a|e|] w']; simpl in *; [|done..].
  by etrans; [|apply Hk].
Qed.

Lemma preserves_try_except {A} (m : M World A) (h : Exn -> M World A) :
  preserves R m -> (forall e, preserves R (h e)) ->
  preserves R (try_except m h).
Proof.
  intros Hm Hh w. unfold try_except. specialize (Hm w).
  destruct (m w) as [[a|e|] w']; simpl in *; [done| |done].
  by etrans; [|apply Hh].
Qed.

Lemma preserves_try_finally {A} (m : M World A) (fin : M World unit) :
  preserves R m -> preserves R fin -> preserves R (try_finally m fin).
Proof.
  intros Hm Hfin w. unfold try_finally. specialize (Hm w).
  destruct (m w) as [[a|e|] w']; simpl in *; [| |done];
    specialize (Hfin w'); destruct (fin w') as [[[]|e'|] w'']; simpl in *;
    by etrans.
Qed.

End Preserves.

End Exec.

(** ** Callback delivery *)

Module CallbackFacts.
Import Callback CallbackTrace Exec.

Lemma set_events_events (w : World) : set_events (events w) w = w.
Proof. by destruct w. Qed.

Lemma set_events_twice (evs evs' : list Event) (w : World) :
  set_events evs' (set_events evs w) = set_events evs' w.
Proof. reflexivity. Qed.

Lemma str_take_length (n : nat) (s : string) :
  (String.length (str_take n s) <= n)%nat.
Proof.
  unfold str_take. revert s.
  induction n as [|n IH]; intros [|c s]; simpl; try lia.
  specialize (IH s). lia.
Qed.

Lemma append_assoc (a b c : string) : (a +:+ b) +:+ c = a +:+ (b +:+ c).
Proof.
  induction a as [|x a IH]; [done|].
  change (String x ((a +:+ b) +:+ c) = String x (a +:+ (b +:+ c))).
  by rewrite IH.
Qed.

Lemma append_empty_r (a : string) : a +:+ "" = a.
Proof.
  induction a as [|x a IH]; [done|].
  change (String x (a +:+ "") = String x a). by rewrite IH.
Qed.

Lemma attempt_error_failed (s : Settings) (o : HttpOutcome) :
  failed_attempt o = true ->
  attempt_error s o = Some (error_label s o +:+ captured_text o).
Proof.
  destruct o as [c text| |msg|msg]; simpl; intros H; try reflexivity.
  - assert ((c <? 400) = false) as -> by lia.
    by rewrite !append_assoc.
  - by rewrite append_empty_r.
Qed.

Lemma captured_text_bounded (o : HttpOutcome) :
  (String.length (captured_text o) <= 100)%nat.
Proof.
  destruct o; simpl; try apply str_take_length. lia.
Qed.

Lemma deliver_attempts_all_fail (s : Settings) (callback_url : string)
    (body : CallbackPayload.t) (target : Target) :
  forall (n a : nat) (err : option string) (w : World),
    Z.of_nat (a + n) = max_callback_retries s ->
    (forall i, (a <= i < a + n)%nat -> failed_attempt (target i) = true) ->
    (n = 0%nat -> is_Some err) ->
    exists e,
      deliver_attempts s callback_url body target n a err w
      = (Ret (false, Some (failure_message s e)),
         set_events
           (events w ++ expected_backoff_trace s callback_url body (a + n) a n)
           w)
      /\ match n with
         | O => err = Some e
         | S _ => attempt_error s (target (a + n - 1)%nat) = Some e
         end.
Proof.
  induction n as [|n IH]; intros a err w Htotal Hfail Herr.
  - destruct (Herr eq_refl) as [e ->]. exists e. split; [|done].
    simpl. unfold ret, expected_backoff_trace. simpl.
    by rewrite app_nil_r, set_events_events.
  - assert (failed_attempt (target a) = true) as Ha by (apply Hfail; lia).
    pose proof (attempt_error_failed s _ Ha) as Hea.
    destruct (IH (S a) (Some (error_label s (target a) +:+ captured_text (target a)))
                (set_events
                   (events w ++
                    EvPost callback_url body (Z.of_nat a) ::
                    (if (S a <? a + S n)%nat
                     then [EvSleep (retry_backoff_base s ^ Z.of_nat a)]
                     else []))
                   w))
      as (e & Hrun & Hlast).
    { rewrite <- Htotal. f_equal. lia. }
    { intros i Hi. apply Hfail. lia. }
    { eauto. }
    exists e. split.
    + cbn [deliver_attempts]. unfold bind at 1. unfold emit at 1.
      cbn [fst snd]. rewrite Hea. unfold bind at 1.
      replace (Z.of_nat a <? max_callback_retries s - 1)
        with (S a <? a + S n)%nat.
      2:{ rewrite <- Htotal.
          destruct (Nat.ltb_spec (S a) (a + S n));
            destruct (Z.ltb_spec (Z.of_nat a) (Z.of_nat (a + S n) - 1)); lia. }
      replace (S a + n)%nat with (a + S n)%nat in Hrun by lia.
      destruct (S a <? a + S n)%nat eqn:Hlt.
      * unfold asyncio_sleep, emit. cbn [events set_events].
        rewrite set_events_twice. cbn [events set_events].
        rewrite <- app_assoc. cbn [app].
        rewrite Hrun. f_equal. unfold expected_backoff_trace.
        cbn [seq flat_map]. rewrite Hlt.
        cbn [events set_events]. rewrite <- !app_assoc. reflexivity.
      * unfold ret at 1. rewrite Hrun. f_equal. unfold expected_backoff_trace.
        cbn [seq flat_map]. rewrite Hlt.
        cbn [events set_events]. rewrite <- !app_assoc. reflexivity.
    + destruct n as [|n].
      * replace (a + 1 - 1)%nat with a by lia. congruence.
      * replace (a + S (S n) - 1)%nat with (S a + S n - 1)%nat by lia.
        exact Hlast.
Qed.

(** Whatever the target does, a delivery leaves nothing behind but posts
    and sleeps, and with at least one attempt to make it returns. *)
Lemma deliver_attempts_effect (s : Settings) (callback_url : string)
    (body : CallbackPayload.t) (target : Target) :
  forall (n a : nat) (err : option string) (w : World),
    exists o trace,
      deliver_attempts s callback_url body target n a err w
      = (o, set_events (events w ++ trace) w)
      /\ (forall x, status_history x trace = [])
      /\ ((n = 0%nat -> is_Some err) -> exists ok e, o = Ret (ok, e)).
Proof.
  induction n as [|n IH]; intros a err w.
  - destruct err as [e|]; simpl.
    + exists (Ret (false, Some (failure_message s e))), [].
      unfold ret. rewrite app_nil_r, set_events_events. eauto.
    + exists (Raise (UnboundLocalError "error")), [].
      unfold raise. rewrite app_nil_r, set_events_events.
      split; [done|]. split; [done|].
      intros H. by destruct (H eq_refl).
  - cbn [deliver_attempts]. unfold bind at 1, emit at 1. cbn [fst snd].
    destruct (attempt_error s (target a)) as [e|] eqn:He.
    + unfold bind at 1.
      destruct (Z.of_nat a <? max_callback_retries s - 1).
      * unfold asyncio_sleep, emit.
        edestruct (IH (S a) (Some e)) as (o & trace & -> & Hq & Hret).
        exists o,
          (EvPost callback_url body (Z.of_nat a) ::
           EvSleep (retry_backoff_base s ^ Z.of_nat a) :: trace).
        split; [|split; [intros x; simpl; apply Hq | intros _; eauto]].
        cbn [events set_events]. rewrite <- !app_assoc. reflexivity.
      * unfold ret at 1.
        edestruct (IH (S a) (Some e)) as (o & trace & -> & Hq & Hret).
        exists o, (EvPost callback_url body (Z.of_nat a) :: trace).
        split; [|split; [intros x; simpl; apply Hq | intros _; eauto]].
        cbn [events set_events]. rewrite <- !app_assoc. reflexivity.
    + exists (Ret (true, None)), [EvPost callback_url body (Z.of_nat a)].
      split; [reflexivity|]. split; [done|]. eauto.
Qed.

Lemma deliver_callback_effect (s : Settings) (callback_url : string)
    (body : CallbackPayload.t) (request_id : string) (target : Target)
    (w : World) :
  exists o trace,
    deliver_callback s callback_url body request_id target w
    = (o, set_events (events w ++ trace) w)
    /\ (forall x, status_history x trace = [])
    /\ (1 <= max_callback_retries s -> exists ok e, o = Ret (ok, e)).
Proof.
  destruct (deliver_attempts_effect s callback_url body target
              (Z.to_nat (max_callback_retries s)) 0%nat None w)
    as (o & trace & Hrun & Hq & Hret).
  exists o, trace. split; [exact Hrun|]. split; [exact Hq|].
  intros HR. apply Hret. lia.
Qed.

Lemma deliver_callback_returns (s : Settings) (callback_url : string)
    (body : CallbackPayload.t) (request_id : string) (target : Target)
    (w : World) :
  1 <= max_callback_retries s ->
  exists ok e trace,
    deliver_callback s callback_url body request_id target w
    = (Ret (ok, e), set_events (events w ++ trace) w)
    /\ forall x, status_history x trace = [].
Proof.
  intros HR.
  destruct (deliver_callback_effect s callback_url body request_id target w)
    as (o & trace & Hrun & Hq & Hret).
  destruct (Hret HR) as (ok & e & ->). eauto.
Qed.

(** With no attempt to make, the loop body never binds [error] and the
    [return] after the loop raises. *)
Lemma deliver_callback_unbound (s : Settings) (callback_url : string)
    (body : CallbackPayload.t) (request_id : string) (target : Target)
    (w : World) :
  max_callback_retries s <= 0 ->
  deliver_callback s callback_url body request_id target w
  = (Raise (UnboundLocalError "error"), w).
Proof.
  intros HR. unfold deliver_callback.
  replace (Z.to_nat (max_callback_retries s)) with 0%nat by lia.
  reflexivity.
Qed.

Lemma posts_of_expected (s : Settings) (callback_url : string)
    (body : CallbackPayload.t) (total : nat) :
  forall n a,
    posts_of (expected_backoff_trace s callback_url body total a n)
    = map Z.of_nat (seq a n).
Proof.
  unfold expected_backoff_trace, posts_of.
  induction n as [|n IH]; intros a; [done|].
  cbn [seq flat_map map]. rewrite <- (IH (S a)).
  destruct (S a <? total)%nat; reflexivity.
Qed.

Lemma sleeps_of_expected (s : Settings) (callback_url : string)
    (body : CallbackPayload.t) (total : nat) :
  forall n a,
    (a + n)%nat = total ->
    sleeps_of (expected_backoff_trace s callback_url body total a n)
    = map (fun i => retry_backoff_base s ^ Z.of_nat i) (seq a (n - 1)).
Proof.
  unfold expected_backoff_trace, sleeps_of.
  induction n as [|n IH]; intros a Htotal; [done|].
  cbn [seq flat_map]. specialize (IH (S a)).
  destruct n as [|n].
  - assert ((S a <? total)%nat = false) as -> by (apply Nat.ltb_ge; lia).
    reflexivity.
  - assert ((S a <? total)%nat = true) as -> by (apply Nat.ltb_lt; lia).
    replace (S (S n) - 1)%nat with (S (S n - 1)) by lia.
    cbn [seq map]. rewrite <- IH by lia. reflexivity.
Qed.

Lemma last_of_expected (s : Settings) (callback_url : string)
    (body : CallbackPayload.t) (total : nat) :
  (0 < total)%nat ->
  last (expected_backoff_trace s callback_url body total 0 total)
  = Some (EvPost callback_url body (Z.of_nat (total - 1))).
Proof.
  intros Hpos. unfold expected_backoff_trace.
  destruct total as [|t]; [lia|].
  replace (S t - 1)%nat with t by lia.
  rewrite seq_S, flat_map_app. cbn [seq flat_map Nat.add].
  rewrite Nat.ltb_irrefl, app_nil_r. apply last_snoc.
Qed.

(** C3. With [R = max_callback_retries >= 1] and a target whose every
    attempt fails, [deliver_callback] posts attempts [0 .. R-1] and no
    more, sleeps [backoff_base ^ i] seconds right after failed attempt [i]
    for [i = 0 .. R-2], ends on the last post without a sleep, touches
    nothing else, and returns [(False, "Failed after R attempts. Last
    error: ...")] built from the error of attempt [R-1], whose captured
    text is at most 100 characters long. *)
Theorem deliver_callback_exhausts_retries (s : Settings) (callback_url : string)
    (body : CallbackPayload.t) (request_id : string) (target : Target)
    (w : World) :
  1 <= max_callback_retries s ->
  (forall i, (i < Z.to_nat (max_callback_retries s))%nat ->
             failed_attempt (target i) = true) ->
  let R := Z.to_nat (max_callback_retries s) in
  let final := target (R - 1)%nat in
  let trace := expected_backoff_trace s callback_url body R 0 R in
  deliver_callback s callback_url body request_id target w
  = (Ret (false,
          Some (failure_message s
                  (error_label s final +:+ captured_text final))),
     set_events (events w ++ trace) w) /\
  posts_of trace = map Z.of_nat (seq 0 R) /\
  sleeps_of trace
  = map (fun i => retry_backoff_base s ^ Z.of_nat i) (seq 0 (R - 1)) /\
  last trace = Some (EvPost callback_url body (Z.of_nat (R - 1))) /\
  (String.length (captured_text final) <= 100)%nat.
Proof.
  intros HR Hfail R final trace.
  destruct (deliver_attempts_all_fail s callback_url body target R 0%nat None w)
    as (e & Hrun & Hlast).
  { unfold R. simpl. lia. }
  { intros i Hi. apply Hfail. unfold R in Hi. lia. }
  { unfold R. lia. }
  assert (R = S (R - 1)) as HS by (unfold R; lia).
  rewrite HS in Hlast. cbn [Nat.add] in Hlast. rewrite <- HS in Hlast.
  rewrite attempt_error_failed in Hlast by (apply Hfail; unfold R; lia).
  injection Hlast as <-.
  split; [exact Hrun|].
  split; [apply posts_of_expected|].
  split; [by apply sleeps_of_expected|].
  split; [apply last_of_expected; unfold R; lia|].
  apply captured_text_bounded.
Qed.

Lemma deliver_callback_exhausts_retries_witness :
  fst (deliver_callback default_settings "https://client.example/hook"
         Samples.sample_body "r1" Samples.broken_target
         (init_world default_settings Samples.ticking_clock))
  = Ret (false,
         Some "Failed after 3 attempts. Last error: HTTP 500: Internal Server Error")
  /\ sleeps_of
       (expected_backoff_trace default_settings "https://client.example/hook"
          Samples.sample_body 3 0 3) = [1; 2].
Proof.
  pose proof (deliver_callback_exhausts_retries default_settings
                "https://client.example/hook" Samples.sample_body "r1"
                Samples.broken_target
                (init_world default_settings Samples.ticking_clock)) as H.
  assert (1 <= max_callback_retries default_settings) as HR
    by (vm_compute; discriminate).
  assert (forall i, (i < Z.to_nat (max_callback_retries default_settings))%nat ->
                    failed_attempt (Samples.broken_target i) = true) as Hall
    by (intros i _; reflexivity).
  destruct (H HR Hall) as (Hrun & _ & Hsleeps & _).
  split.
  - rewrite Hrun. reflexivity.
  - exact Hsleeps.
Defined.

(** A target that never succeeds makes the delivery return failure with
    the error of the last attempt. *)
Lemma deliver_callback_all_fail (s : Settings) (callback_url : string)
    (body : CallbackPayload.t) (request_id : string) (target : Target)
    (w : World) :
  1 <= max_callback_retries s ->
  (forall i, (i < Z.to_nat (max_callback_retries s))%nat ->
             failed_attempt (target i) = true) ->
  let final := target (Z.to_nat (max_callback_retries s) - 1)%nat in
  fst (deliver_callback s callback_url body request_id target w)
  = Ret (false,
         Some (failure_message s (error_label s final +:+ captured_text final))).
Proof.
  intros HR Hfail final.
  destruct (deliver_attempts_all_fail s callback_url body target
              (Z.to_nat (max_callback_retries s)) 0%nat None w)
    as (e & Hrun & Hlast).
  { simpl. lia. }
  { intros i Hi. apply Hfail. lia. }
  { lia. }
  unfold deliver_callback. rewrite Hrun. cbn [fst].
  destruct (Z.to_nat (max_callback_retries s)) as [|k] eqn:Hk; [lia|].
  cbn [Nat.add] in Hlast.
  rewrite attempt_error_failed in Hlast by (apply Hfail; lia).
  injection Hlast as <-. reflexivity.
Qed.

End CallbackFacts.

(** ** Running the code symbolically *)

Ltac exec_unfold :=
  unfold Processor.worker_iteration, Processor.process_job,
    Processor.on_success, Processor.on_failure,
    Processor.handler, Processor.started_at_of,
    SyncEndpoint.with_semaphore, SyncEndpoint.execute, SyncEndpoint.respond,
    Repository.update_request_status, Repository.update_request_result,
    Repository.increment_callback_attempts, Repository.update_row,
    Repository.get_request, Repository.create_request,
    QueueManager.dequeue, Asyncio.get, Asyncio.acquire, Asyncio.release,
    wait_for_do_work, on_queue_manager, on_semaphore, lift,
    try_finally, try_except, bind, ret, raise, block, emit, time_time,
    asyncio_sleep,
    set_db, set_events, set_queue_manager, set_sync_semaphore,
    QueueManager.set_queue.

Ltac exec_norm :=
  cbn [fst snd db events queue_manager sync_semaphore time_source time_reads
       QueueManager.queue QueueManager.total_enqueued
       QueueManager.total_processed
       Asyncio._queue Asyncio._maxsize Asyncio._unfinished_tasks
       Asyncio._value Asyncio._waiters].

Ltac exec :=
  repeat (exec_unfold; exec_norm;
          rewrite ?lookup_insert_eq, ?insert_insert_eq,
                  ?Exec.started_at_set_status).


Ltac deliver HR ok e trace Heq Hq :=
  match goal with
  | |- context [Callback.deliver_callback ?s ?u ?b ?i ?t
                  (Build_World ?a1 ?a2 ?a3 ?a4 ?a5 ?a6)] =>
      destruct (CallbackFacts.deliver_callback_returns s u b i t
                  (Build_World a1 a2 a3 a4 a5 a6) HR)
        as (ok & e & trace & Heq & Hq);
      rewrite Heq
  end.

Ltac finish_job qm :=
  let o := fresh "o" in
  let qm' := fresh "qm" in
  let Hq := fresh "Hqueue" in
  let Hb := fresh "Hblock" in
  destruct (Exec.task_done_cases qm) as (o & qm' & -> & Hb & Hq);
  destruct o as [[]|?|]; [| |done]; exec;
  rewrite <- ?app_assoc; cbn [app]; repeat split; auto; try done.

(** ** Worker *)

Module ProcessorFacts.
Import Callback CallbackTrace.

(** What [process_job] leaves when the row of the job exists and the
    delivery has at least one attempt to make. *)
Lemma process_job_run (s : Settings) (job : Job.t) (run : WorkRun)
    (target : Target) (w : World) (r : Request.t) :
  1 <= max_callback_retries s ->
  db w !! Job.request_id job = Some r ->
  exists (t1 t2 : Q) (ok : bool) (e : option string)
         (body : CallbackPayload.t) (w0 w0' : World) (trace : list Event),
    deliver_callback s (Job.callback_url job) body (Job.request_id job)
      target w0 = (Ret (ok, e), w0') /\
    (forall x, status_history x trace = []) /\
    let w' := snd (Processor.process_job s job run target w) in
    fst (Processor.process_job s job run target w) <> Block /\
    db w' = <[Job.request_id job :=
                settled_row s (verdict s run) ok e t1 t2 r]> (db w) /\
    events w' = events w ++
                EvStatus (Job.request_id job) processing ::
                EvWork (Job.payload job) ::
                EvStatus (Job.request_id job) (verdict_status (verdict s run)) ::
                trace /\
    queued_jobs w' = queued_jobs w.
Proof.
  intros HR Hr. destruct w as [d qm sem clk n evs]. cbn [db] in Hr.
  unfold verdict, queued_jobs.
  exec. rewrite Hr. exec.
  destruct (wait_for_gives_up (work_timeout_seconds s) run).
  - exec. deliver HR ok e trace Heq Hq. exec.
    eexists (clk n), _, ok, e, _, _, _, trace.
    split; [exact Heq|]. split; [exact Hq|].
    finish_job qm.
  - destruct (run_result run) as [msg|result]; exec.
    + deliver HR ok e trace Heq Hq. exec.
      eexists (clk n), _, ok, e, _, _, _, trace.
      split; [exact Heq|]. split; [exact Hq|].
      finish_job qm.
    + deliver HR ok e trace Heq Hq. exec.
      eexists (clk n), _, ok, e, _, _, _, trace.
      split; [exact Heq|]. split; [exact Hq|].
      destruct ok; exec; finish_job qm.
Qed.


(** A turn of the loop with a job at the head of the queue is
    [process_job] on the state without that job, under the outer
    [except]. *)
Lemma worker_iteration_dequeues (s : Settings) (run : WorkRun)
    (target : Target) (w : World) (job : Job.t) (rest : list Job.t) :
  queued_jobs w = job :: rest ->
  exists w1,
    db w1 = db w /\ events w1 = events w /\ queued_jobs w1 = rest /\
    Processor.worker_iteration s run target w
    = try_except (Processor.process_job s job run target)
        (fun _ => asyncio_sleep 1) w1.
Proof.
  intros Hq. destruct w as [d [[q ms un] te tp] sem clk n evs].
  unfold queued_jobs in Hq. cbn in Hq. subst q.
  exists (Build_World d
            (QueueManager.Build_t (Asyncio.Build_Queue _ rest ms un) te tp)
            sem clk n evs).
  repeat split; reflexivity.
Qed.

Lemma worker_iteration_idle (s : Settings) (run : WorkRun)
    (target : Target) (w : World) :
  queued_jobs w = [] ->
  Processor.worker_iteration s run target w = (Block, w).
Proof.
  intros Hq. destruct w as [d [[q ms un] te tp] sem clk n evs].
  unfold queued_jobs in Hq. cbn in Hq. subst q. reflexivity.
Qed.

(** The outer [except] adds a sleep and nothing else. *)
Lemma outer_except_effect (m : M World unit) (w : World) :
  exists tail,
    db (snd (try_except m (fun _ => asyncio_sleep 1) w)) = db (snd (m w)) /\
    events (snd (try_except m (fun _ => asyncio_sleep 1) w))
    = events (snd (m w)) ++ tail /\
    (forall x, status_history x tail = []) /\
    queued_jobs (snd (try_except m (fun _ => asyncio_sleep 1) w))
    = queued_jobs (snd (m w)).
Proof.
  unfold try_except. destruct (m w) as [[[]|e|] w'].
  - exists []. by rewrite app_nil_r.
  - exists [EvSleep 1]. by destruct w'.
  - exists []. by rewrite app_nil_r.
Qed.

(** What a turn of the loop leaves when a job is waiting, its row exists
    and the delivery has at least one attempt to make. *)
Lemma worker_iteration_run (s : Settings) (run : WorkRun) (target : Target)
    (w : World) (job : Job.t) (rest : list Job.t) (r : Request.t) :
  1 <= max_callback_retries s ->
  queued_jobs w = job :: rest ->
  db w !! Job.request_id job = Some r ->
  exists (t1 t2 : Q) (ok : bool) (e : option string)
         (body : CallbackPayload.t) (w0 w0' : World) (trace : list Event),
    deliver_callback s (Job.callback_url job) body (Job.request_id job)
      target w0 = (Ret (ok, e), w0') /\
    (forall x, status_history x trace = []) /\
    let w' := snd (Processor.worker_iteration s run target w) in
    db w' = <[Job.request_id job :=
                settled_row s (verdict s run) ok e t1 t2 r]> (db w) /\
    events w' = events w ++
                EvStatus (Job.request_id job) processing ::
                EvWork (Job.payload job) ::
                EvStatus (Job.request_id job) (verdict_status (verdict s run)) ::
                trace /\
    queued_jobs w' = rest.
Proof.
  intros HR Hq Hr.
  destruct (worker_iteration_dequeues s run target w job rest Hq)
    as (w1 & Hdb & Hev & Hq1 & ->).
  rewrite <- Hdb in Hr.
  destruct (process_job_run s job run target w1 r HR Hr)
    as (t1 & t2 & ok & e & body & w0 & w0' & trace & Hdel & Hquiet & Hrun).
  cbn zeta in Hrun. destruct Hrun as (_ & Hdb' & Hev' & Hq').
  destruct (outer_except_effect (Processor.process_job s job run target) w1)
    as (tail & Hdb2 & Hev2 & Hquiet2 & Hq2).
  exists t1, t2, ok, e, body, w0, w0', (trace ++ tail).
  split; [exact Hdel|]. split.
  { intros x. rewrite Exec.status_history_app, Hquiet, Hquiet2. done. }
  cbn zeta. rewrite Hdb2, Hev2, Hq2, Hdb', Hev', Hq', Hdb, Hev, Hq1.
  rewrite <- app_assoc. done.
Qed.


(** C1, what the code does. When every delivery attempt fails, the worker
    records the failure (attempt counter plus one, delivery error in
    [last_error], status still [done]) only for a job whose execution
    succeeded. For a job that timed out or raised, the value returned by
    [deliver_callback] is dropped: the counter keeps its value and
    [last_error] keeps the execution error. *)
Theorem delivery_failure_recorded_only_after_success (s : Settings)
    (run : WorkRun) (target : Target) (w : World) (job : Job.t)
    (rest : list Job.t) (r : Request.t) :
  1 <= max_callback_retries s ->
  queued_jobs w = job :: rest ->
  db w !! Job.request_id job = Some r ->
  (forall i, (i < Z.to_nat (max_callback_retries s))%nat ->
             failed_attempt (target i) = true) ->
  let final := target (Z.to_nat (max_callback_retries s) - 1)%nat in
  let delivery_error :=
    failure_message s (error_label s final +:+ captured_text final) in
  exists r',
    db (snd (Processor.worker_iteration s run target w)) !! Job.request_id job
    = Some r' /\
    Request.status r' = verdict_status (verdict s run) /\
    match verdict s run with
    | Succeeded _ =>
        Request.attempts r' = Request.attempts r + 1 /\
        Request.last_error r' = Some delivery_error
    | v =>
        Request.attempts r' = Request.attempts r /\
        Request.last_error r' = verdict_error s v
    end.
Proof.
  intros HR Hq Hr Hfail final delivery_error.
  destruct (worker_iteration_run s run target w job rest r HR Hq Hr)
    as (t1 & t2 & ok & e & body & w0 & w0' & trace & Hdel & _ & Hrun).
  cbn zeta in Hrun. destruct Hrun as (Hdb & _ & _).
  pose proof (CallbackFacts.deliver_callback_all_fail s (Job.callback_url job)
                body (Job.request_id job) target w0 HR Hfail) as Hall.
  rewrite Hdel in Hall. cbn [fst] in Hall. injection Hall as -> ->.
  rewrite Hdb, lookup_insert_eq. eexists. split; [reflexivity|].
  destruct (verdict s run); simpl; auto.
Qed.

Lemma delivery_failure_recorded_only_after_success_witness :
  exists r',
    db (snd (Processor.worker_iteration default_settings Samples.slow_run
               Samples.broken_target Samples.one_job_world)) !! "r1"
    = Some r' /\
    Request.status r' = failed /\
    Request.attempts r' = 0 /\
    Request.last_error r' = Some "Work execution timeout after 30s".
Proof.
  destruct (delivery_failure_recorded_only_after_success default_settings
              Samples.slow_run Samples.broken_target Samples.one_job_world
              (Samples.job_of "r1") [] Samples.r1_row)
    as (r' & Hrow & Hstatus & Hrest).
  - vm_compute. discriminate.
  - vm_compute. reflexivity.
  - vm_compute. reflexivity.
  - intros i _. reflexivity.
  - exists r'. split; [exact Hrow|]. split; [exact Hstatus|]. exact Hrest.
Defined.

End ProcessorFacts.

(** ** Sync endpoint *)

Module SyncEndpointFacts.
Import SyncEndpoint.

(** C5. While the permits held equal the ceiling [max_sync_concurrency],
    [sync_endpoint] raises the 503 rejection at once: it does not block,
    and it leaves the whole process state as it was, so no row is created
    and the work engine is not invoked. *)
Theorem sync_rejected_at_ceiling (s : Settings) (request_id client_ip : string)
    (payload : WorkPayload) (run : WorkRun) (w : World) :
  held_permits s w = max_sync_concurrency s ->
  sync_endpoint s request_id client_ip payload run w
  = (Raise (HTTPException 503
              "Server is at maximum capacity. Please try again later."), w)
  /\ db (snd (sync_endpoint s request_id client_ip payload run w)) = db w
  /\ events (snd (sync_endpoint s request_id client_ip payload run w))
     = events w.
Proof.
  intros Hheld. unfold held_permits in Hheld.
  assert (Asyncio._value (sync_semaphore w) = 0) as Hzero by lia.
  assert (sync_endpoint s request_id client_ip payload run w
          = (Raise (HTTPException 503
                      "Server is at maximum capacity. Please try again later."),
             w)) as Hrun.
  { unfold sync_endpoint, Asyncio.locked. rewrite Hzero. reflexivity. }
  by rewrite Hrun.
Qed.

Lemma sync_rejected_at_ceiling_witness :
  fst (sync_endpoint Samples.one_permit_settings "r9" "198.51.100.4"
         Samples.hash_payload Samples.quick_run Samples.saturated_world)
  = Raise (HTTPException 503
             "Server is at maximum capacity. Please try again later.").
Proof.
  destruct (sync_rejected_at_ceiling Samples.one_permit_settings "r9"
              "198.51.100.4" Samples.hash_payload Samples.quick_run
              Samples.saturated_world) as (Hrun & _).
  - vm_compute. reflexivity.
  - rewrite Hrun. reflexivity.
Defined.

(** What an admitted sync request with a fresh identifier leaves. *)
Lemma sync_endpoint_fresh (s : Settings) (request_id client_ip : string)
    (payload : WorkPayload) (run : WorkRun) (w : World) :
  Asyncio.locked (sync_semaphore w) = false ->
  db w !! request_id = None ->
  exists (t0 t1 t2 : Q) (resp : SyncResponse.t),
    let w' := snd (sync_endpoint s request_id client_ip payload run w) in
    fst (sync_endpoint s request_id client_ip payload run w) = Ret resp /\
    SyncResponse.status resp = verdict_status (verdict s run) /\
    SyncResponse.error resp = verdict_error s (verdict s run) /\
    db w' = <[request_id :=
                settled_row s (verdict s run) true None t1 t2
                  (Repository.new_row request_id sync payload None t0
                     client_ip)]> (db w) /\
    events w' = events w ++
                [EvStatus request_id pending; EvStatus request_id processing;
                 EvWork payload;
                 EvStatus request_id (verdict_status (verdict s run))] /\
    queued_jobs w' = queued_jobs w.
Proof.
  intros Hfree Hrow. destruct w as [d qm sem clk n evs].
  cbn [db sync_semaphore] in *.
  unfold sync_endpoint, verdict, queued_jobs. cbn [sync_semaphore].
  rewrite Hfree. cbn [andb]. exec. rewrite Hfree. exec. rewrite Hrow. exec.
  destruct (wait_for_gives_up (work_timeout_seconds s) run).
  - exec. eexists (clk n), (clk (S n)), _, _.
    rewrite <- ?app_assoc. cbn [app]. repeat split; reflexivity.
  - destruct (run_result run) as [msg|result]; exec.
    + eexists (clk n), (clk (S n)), _, _.
      rewrite <- ?app_assoc. cbn [app]. repeat split; reflexivity.
    + eexists (clk n), (clk (S n)), _, _.
      rewrite <- ?app_assoc. cbn [app]. repeat split; reflexivity.
Qed.

(** Any sync request either changes neither table, status writes nor
    queue, or is an admitted request with a fresh identifier. *)
Lemma sync_endpoint_cases (s : Settings) (request_id client_ip : string)
    (payload : WorkPayload) (run : WorkRun) (w : World) :
  let w' := snd (sync_endpoint s request_id client_ip payload run w) in
  (db w' = db w /\ events w' = events w /\ queued_jobs w' = queued_jobs w) \/
  (Asyncio.locked (sync_semaphore w) = false /\ db w !! request_id = None).
Proof.
  destruct (Asyncio.locked (sync_semaphore w)) eqn:Hlocked;
    [|destruct (db w !! request_id) eqn:Hrow; [|by right]]; left;
    destruct w as [d qm sem clk n evs]; cbn [db sync_semaphore] in *;
    unfold sync_endpoint, queued_jobs; cbn [sync_semaphore]; rewrite Hlocked.
  - destruct (Asyncio._value sem =? 0); cbn [andb]; [done|].
    exec. rewrite Hlocked. done.
  - cbn [andb]. exec. rewrite Hlocked. exec. rewrite Hrow. done.
Qed.

End SyncEndpointFacts.

(** ** Execution timeout, on both paths *)

Module TimeoutFacts.






End TimeoutFacts.

(** ** Async endpoint *)

Module AsyncEndpointFacts.
Import AsyncEndpoint.

(** Every async submission is of one of three kinds: it changes neither
    table, status writes nor queue (bad callback URL, or identifier
    taken) and does not end in the queue-full rejection; or it creates
    the row and enqueues the job; or it creates the row and is rejected
    because the queue is full. *)
Lemma async_endpoint_cases (validation : option string)
    (request_id client_ip : string) (payload : WorkPayload)
    (callback_url : string) (w : World) :
  let out := async_endpoint validation request_id client_ip payload
               callback_url w in
  let w' := snd out in
  let job := {| Job.request_id := request_id;
                Job.payload := payload;
                Job.callback_url := callback_url |} in
  (db w' = db w /\ events w' = events w /\ queued_jobs w' = queued_jobs w /\
   fst out <> Raise queue_full_rejection) \/
  (db w !! request_id = None /\
   exists t0,
     db w' = <[request_id :=
                 Repository.new_row request_id async payload
                   (Some callback_url) t0 client_ip]> (db w) /\
     events w' = events w ++ [EvStatus request_id pending] /\
     ((queued_jobs w' = queued_jobs w ++ [job] /\
       fst out <> Raise queue_full_rejection) \/
      (queued_jobs w' = queued_jobs w /\
       fst out = Raise queue_full_rejection))).
Proof.
  destruct w as [d qm sem clk n evs]. unfold async_endpoint, queued_jobs.
  destruct validation as [error|].
  { left. cbn. repeat split; done. }
  destruct (d !! request_id) eqn:Hrow.
  { left. exec. rewrite Hrow. cbn. repeat split; done. }
  right. split; [exact Hrow|]. exists (clk n).
  exec. rewrite Hrow. exec.
  destruct (Asyncio.full (QueueManager.queue qm)) eqn:Hfull.
  - rewrite (QueueManagerFacts.enqueue_full _ _ Hfull). exec.
    repeat split; try done. right. done.
  - rewrite (QueueManagerFacts.enqueue_not_full _ _ Hfull). exec.
    repeat split; try done. left. done.
Qed.

End AsyncEndpointFacts.

(** ** The lifecycle of a request record *)

Module LifecycleFacts.

Lemma lifecycle_history_prefix (h : list Status) :
  lifecycle_history h = true <->
  h `prefix_of` [pending; processing; done] \/
  h `prefix_of` [pending; processing; failed].
Proof.
  split.
  - intros H.
    destruct h as [|a [|b [|c [|d h]]]]; simpl in H.
    + left. by exists [pending; processing; done].
    + destruct a; try done. left. by exists [processing; done].
    + destruct a, b; try done. left. by exists [done].
    + destruct a, b, c; try done; [left|right]; by exists [].
    + destruct a, b, c, d; done.
  - intros [[k Hk]|[k Hk]];
      destruct h as [|a [|b [|c [|d h]]]]; simplify_eq/=; done.
Qed.

Lemma consistent_init (s : Settings) (clock : nat -> Q) :
  consistent (init_world s clock).
Proof.
  split.
  - intros x. cbn [init_world db events]. by rewrite lookup_empty.
  - done.
  - intros x Hx. by apply elem_of_nil in Hx.
  - constructor.
Qed.

Lemma consistent_same (w w' : World) :
  consistent w ->
  db w' = db w -> events w' = events w -> queued_jobs w' = queued_jobs w ->
  consistent w'.
Proof.
  intros [H1 H2 H3 H4] Hdb Hev Hq.
  split; unfold queued_ids in *; rewrite ?Hdb, ?Hev, ?Hq; done.
Qed.

(** One identifier gets a new row value and new status writes; the rest
    is as before. *)
Lemma consistent_advance (w w' : World) (x : string) (r' : Request.t)
    (h : list Status) :
  consistent w ->
  db w' = <[x := r']> (db w) ->
  (forall y, status_history y (events w')
             = status_history y (events w) ++ (if decide (x = y) then h else [])) ->
  last (status_history x (events w) ++ h) = Some (Request.status r') ->
  lifecycle_history (status_history x (events w) ++ h) = true ->
  (forall y, y ∈ queued_ids w' ->
             (y <> x /\ y ∈ queued_ids w) \/
             (y = x /\ status_history x (events w) ++ h = [pending])) ->
  NoDup (queued_ids w') ->
  consistent w'.
Proof.
  intros [H1 H2 H3 H4] Hdb Hev Hlast Hlife Hqueue Hnodup.
  split; [| | |exact Hnodup].
  - intros y. rewrite Hdb, Hev. destruct (decide (x = y)) as [->|Hne].
    + by rewrite lookup_insert_eq.
    + rewrite lookup_insert_ne by done. rewrite app_nil_r. apply H1.
  - intros y. rewrite Hev. destruct (decide (x = y)) as [->|Hne]; [done|].
    rewrite app_nil_r. apply H2.
  - intros y Hy. rewrite Hev.
    destruct (Hqueue y Hy) as [[Hne Hin]|[-> Hpend]].
    + rewrite decide_False by done. rewrite app_nil_r. by apply H3.
    + by rewrite decide_True.
Qed.

Lemma settled_row_status (s : Settings) (v : Verdict) (ok : bool)
    (e : option string) (t1 t2 : Q) (r : Request.t) :
  Request.status (settled_row s v ok e t1 t2 r) = verdict_status v.
Proof. destruct v, ok; reflexivity. Qed.

Lemma absent_not_queued (w : World) (x : string) :
  consistent w -> status_history x (events w) = [] -> x ∉ queued_ids w.
Proof.
  intros Hw Hnone Hin.
  pose proof (queued_are_pending w Hw x Hin) as Hpend. congruence.
Qed.

Lemma absent_row_no_history (w : World) (x : string) :
  consistent w -> db w !! x = None -> status_history x (events w) = [].
Proof.
  intros Hw Hrow. pose proof (rows_match_history w Hw x) as H.
  by rewrite Hrow in H.
Qed.

Lemma consistent_sync (s : Settings) (request_id client_ip : string)
    (payload : WorkPayload) (run : WorkRun) (w : World) :
  consistent w ->
  consistent (snd (SyncEndpoint.sync_endpoint s request_id client_ip payload
                     run w)).
Proof.
  intros Hw.
  destruct (SyncEndpointFacts.sync_endpoint_cases s request_id client_ip
              payload run w) as [(Hdb & Hev & Hq)|[Hfree Hrow]].
  { by apply (consistent_same w). }
  destruct (SyncEndpointFacts.sync_endpoint_fresh s request_id client_ip
              payload run w Hfree Hrow) as (t0 & t1 & t2 & resp & Hrun).
  cbn zeta in Hrun. destruct Hrun as (_ & _ & _ & Hdb & Hev & Hq).
  pose proof (absent_row_no_history w request_id Hw Hrow) as Hnone.
  eapply (consistent_advance w _ request_id _
            [pending; processing; verdict_status (verdict s run)] Hw Hdb).
  - intros y. rewrite Hev, Exec.status_history_app. f_equal. simpl.
    by destruct (decide (request_id = y)).
  - rewrite Hnone, settled_row_status. reflexivity.
  - rewrite Hnone. by destruct (verdict s run).
  - intros y Hy. left. unfold queued_ids in *. rewrite Hq in Hy.
    split; [|done]. intros ->.
    by apply (absent_not_queued w request_id Hw Hnone).
  - unfold queued_ids. rewrite Hq. apply (queued_once w Hw).
Qed.

Lemma consistent_async (validation : option string)
    (request_id client_ip : string) (payload : WorkPayload)
    (callback_url : string) (w : World) :
  consistent w ->
  consistent (snd (AsyncEndpoint.async_endpoint validation request_id
                     client_ip payload callback_url w)).
Proof.
  intros Hw.
  destruct (AsyncEndpointFacts.async_endpoint_cases validation request_id
              client_ip payload callback_url w)
    as [(Hdb & Hev & Hq & _)|(Hrow & t0 & Hdb & Hev & Hqueue)].
  { by apply (consistent_same w). }
  pose proof (absent_row_no_history w request_id Hw Hrow) as Hnone.
  pose proof (absent_not_queued w request_id Hw Hnone) as Hfresh.
  eapply (consistent_advance w _ request_id _ [pending] Hw Hdb).
  - intros y. by rewrite Hev, Exec.status_history_app.
  - by rewrite Hnone.
  - by rewrite Hnone.
  - intros y Hy. unfold queued_ids in *.
    destruct Hqueue as [[Hq _]|[Hq _]]; rewrite Hq in Hy.
    + rewrite fmap_app in Hy. apply elem_of_app in Hy as [Hy|Hy].
      * left. split; [|done]. by intros ->.
      * right. apply list_elem_of_singleton in Hy. simpl in Hy.
        split; [done|]. by rewrite Hnone.
    + left. split; [|done]. by intros ->.
  - unfold queued_ids in *.
    destruct Hqueue as [[Hq _]|[Hq _]]; rewrite Hq.
    + rewrite fmap_app. apply NoDup_app. split; [apply (queued_once w Hw)|].
      split; [|apply NoDup_singleton].
      intros y Hy Hy'. apply list_elem_of_singleton in Hy'. simpl in Hy'.
      by subst y.
    + apply (queued_once w Hw).
Qed.

Lemma consistent_worker (s : Settings) (run : WorkRun)
    (target : Callback.Target) (w : World) :
  1 <= max_callback_retries s ->
  consistent w ->
  consistent (snd (Processor.worker_iteration s run target w)).
Proof.
  intros HR Hw.
  destruct (queued_jobs w) as [|job rest] eqn:Hq.
  { by rewrite ProcessorFacts.worker_iteration_idle. }
  assert (Job.request_id job ∈ queued_ids w) as Hin.
  { unfold queued_ids. rewrite Hq. simpl. apply list_elem_of_here. }
  pose proof (queued_are_pending w Hw _ Hin) as Hpend.
  pose proof (rows_match_history w Hw (Job.request_id job)) as Hrow.
  destruct (db w !! Job.request_id job) as [r|] eqn:Hr; [|congruence].
  destruct (ProcessorFacts.worker_iteration_run s run target w job rest r
              HR Hq Hr)
    as (t1 & t2 & ok & e & body & w0 & w0' & trace & _ & Hquiet & Hrun).
  cbn zeta in Hrun. destruct Hrun as (Hdb & Hev & Hq').
  pose proof (queued_once w Hw) as Hnodup.
  unfold queued_ids in Hnodup. rewrite Hq in Hnodup. simpl in Hnodup.
  apply NoDup_cons in Hnodup as [Hhead Hrest].
  eapply (consistent_advance w _ (Job.request_id job) _
            [processing; verdict_status (verdict s run)] Hw Hdb).
  - intros y. rewrite Hev, Exec.status_history_app. f_equal. simpl.
    rewrite Hquiet. by destruct (decide (Job.request_id job = y)).
  - rewrite Hpend, settled_row_status. reflexivity.
  - rewrite Hpend. by destruct (verdict s run).
  - intros y Hy. left. unfold queued_ids in *. rewrite Hq' in Hy.
    split; [by intros ->|]. rewrite Hq. simpl. by apply list_elem_of_further.
  - unfold queued_ids. by rewrite Hq'.
Qed.

Lemma consistent_step (s : Settings) (w : World) (a : Action) :
  1 <= max_callback_retries s -> consistent w -> consistent (step s w a).
Proof.
  intros HR Hw. destruct a; simpl.
  - by apply consistent_sync.
  - by apply consistent_async.
  - by apply consistent_worker.
Qed.

Lemma consistent_run (s : Settings) (acts : list Action) (w : World) :
  1 <= max_callback_retries s ->
  consistent w -> consistent (run_actions s acts w).
Proof.
  intros HR. revert w.
  induction acts as [|a acts IH]; intros w Hw; simpl; [done|].
  apply IH. by apply consistent_step.
Qed.

(** The lifecycle where it holds (the setting C7 has in mind). Start the
    process and let any requests arrive and any workers take turns, with
    at least one delivery attempt configured. Then for every
    request identifier the statuses written to its row, in order, are an
    initial part of [pending, processing, done] or of
    [pending, processing, failed]: each write moves one step forward,
    [done] and [failed] come only after [processing], and nothing is
    written after them. The row, when there is one, carries the last
    status written; without a row nothing was written. *)
Theorem status_only_moves_forward (s : Settings) (clock : nat -> Q)
    (acts : list Action) (request_id : string) :
  1 <= max_callback_retries s ->
  let w := run_actions s acts (init_world s clock) in
  let history := status_history request_id (events w) in
  (history `prefix_of` [pending; processing; done] \/
   history `prefix_of` [pending; processing; failed]) /\
  match db w !! request_id with
  | Some r => last history = Some (Request.status r)
  | None => history = []
  end.
Proof.
  intros HR w history.
  pose proof (consistent_run s acts (init_world s clock) HR
                (consistent_init s clock)) as Hw.
  split.
  - apply lifecycle_history_prefix, (histories_follow_lifecycle _ Hw).
  - apply (rows_match_history _ Hw).
Qed.

(** With no delivery attempt to make, [deliver_callback] raises after the
    row of a successful job was marked [done]; the [except Exception]
    clause of the worker then stores the exception text and marks the row
    [failed]. *)
Lemma process_job_without_attempts (s : Settings) (job : Job.t)
    (run : WorkRun) (target : Callback.Target) (w : World) (r : Request.t)
    (d : Dict) :
  max_callback_retries s <= 0 ->
  db w !! Job.request_id job = Some r ->
  verdict s run = Succeeded d ->
  exists (t2 : Q) (r1 : Request.t),
    let w' := snd (Processor.process_job s job run target w) in
    db w' = <[Job.request_id job :=
                row_failed t2 (error_message (UnboundLocalError "error")) r1]>
              (db w) /\
    events w' = events w ++
                [EvStatus (Job.request_id job) processing;
                 EvWork (Job.payload job);
                 EvStatus (Job.request_id job) done;
                 EvStatus (Job.request_id job) failed].
Proof.
  intros HR Hr Hv. destruct w as [dbw qm sem clk n evs]. cbn [db] in Hr.
  unfold verdict in Hv.
  exec. rewrite Hr. exec.
  destruct (wait_for_gives_up (work_timeout_seconds s) run);
    [done|].
  destruct (run_result run) as [msg|result]; [done|]. exec.
  rewrite !CallbackFacts.deliver_callback_unbound by done. exec.
  rewrite !CallbackFacts.deliver_callback_unbound by done. exec.
  eexists _, _.
  destruct (Exec.task_done_cases qm) as (o & qm' & -> & Hb & Hq).
  destruct o as [[]|?|]; [| |done]; exec;
    rewrite <- ?app_assoc; cbn [app]; split; reflexivity.
Qed.

(** C7, where the code departs from it. Settings with
    [max_callback_retries <= 0], a job at the head of the queue whose row
    exists and whose execution succeeds: one turn of a worker writes
    [processing], [done] and then [failed] to the row, and leaves it
    [failed] with no result and the text of the [UnboundLocalError] in
    [last_error]. *)
Theorem done_overwritten_without_attempts (s : Settings) (run : WorkRun)
    (target : Callback.Target) (w : World) (job : Job.t) (rest : list Job.t)
    (r : Request.t) (d : Dict) :
  max_callback_retries s <= 0 ->
  queued_jobs w = job :: rest ->
  db w !! Job.request_id job = Some r ->
  verdict s run = Succeeded d ->
  let w' := snd (Processor.worker_iteration s run target w) in
  status_history (Job.request_id job) (events w')
  = status_history (Job.request_id job) (events w) ++
    [processing; done; failed] /\
  exists r',
    db w' !! Job.request_id job = Some r' /\
    Request.status r' = failed /\
    Request.result r' = None /\
    Request.last_error r'
    = Some (error_message (UnboundLocalError "error")).
Proof.
  intros HR Hq Hr Hv w'. unfold w'.
  destruct (ProcessorFacts.worker_iteration_dequeues s run target w job rest Hq)
    as (w1 & Hdb & Hev & Hq1 & ->).
  rewrite <- Hdb in Hr.
  destruct (process_job_without_attempts s job run target w1 r d HR Hr Hv)
    as (t2 & r1 & Hrun).
  cbn zeta in Hrun. destruct Hrun as (Hdb' & Hev').
  destruct (ProcessorFacts.outer_except_effect
              (Processor.process_job s job run target) w1)
    as (tail & Hdb2 & Hev2 & Hquiet & _).
  rewrite Hdb2, Hev2, Hdb', Hev', Hev. split.
  - rewrite !Exec.status_history_app, Hquiet, app_nil_r. simpl.
    by rewrite !decide_True.
  - rewrite lookup_insert_eq. eexists. split; [reflexivity|]. done.
Qed.

Lemma done_overwritten_without_attempts_witness :
  status_history "r1"
    (events (snd (Processor.worker_iteration Samples.no_retry_settings
                    Samples.quick_run Samples.broken_target
                    Samples.one_job_world_no_retry)))
  = [pending; processing; done; failed].
Proof.
  destruct (done_overwritten_without_attempts Samples.no_retry_settings
              Samples.quick_run Samples.broken_target
              Samples.one_job_world_no_retry (Samples.job_of "r1") []
              Samples.r1_row [("operation", "hash")]) as (Hhist & _).
  - vm_compute. discriminate.
  - vm_compute. reflexivity.
  - vm_compute. reflexivity.
  - vm_compute. reflexivity.
  - etrans; [apply Hhist|]. vm_compute. reflexivity.
Defined.

Lemma status_only_moves_forward_example :
  status_history "r1"
    (events (run_actions default_settings
               [AsyncRequest None "r1" "198.51.100.4" Samples.hash_payload
                  "https://client.example/hook";
                WorkerTurn Samples.quick_run Samples.broken_target]
               (init_world default_settings Samples.ticking_clock)))
  = [pending; processing; done].
Proof. vm_compute. reflexivity. Qed.

End LifecycleFacts.

(** ** What a worker may touch *)

Module TouchFacts.
Import Exec.

#[global] Instance touch_refl (request_id : string) : Reflexive (touch request_id).
Proof.
  intros w. split; try done. exists []. by rewrite app_nil_r.
Qed.

#[global] Instance touch_trans (request_id : string) :
  Transitive (touch request_id).
Proof.
  intros w1 w2 w3 [A1 B1 (L1 & E1 & Q1) C1] [A2 B2 (L2 & E2 & Q2) C2].
  split.
  - intros x Hx. by rewrite A2, A1.
  - auto.
  - exists (L1 ++ L2). split; [by rewrite E2, E1, app_assoc|].
    intros x Hx. by rewrite status_history_app, Q1, Q2.
  - by rewrite C2.
Qed.

Lemma touch_time_time (request_id : string) :
  preserves (touch request_id) time_time.
Proof.
  intros [d qm sem clk n evs]. split; try done.
  exists []. by rewrite app_nil_r.
Qed.

Lemma touch_emit (request_id : string) (e : Event) :
  (forall x, x <> request_id -> status_history x [e] = []) ->
  preserves (touch request_id) (emit e).
Proof.
  intros He [d qm sem clk n evs]. split; try done. by exists [e].
Qed.

Lemma touch_sleep (request_id : string) (seconds : Z) :
  preserves (touch request_id) (asyncio_sleep seconds).
Proof. by apply touch_emit. Qed.

Lemma touch_update_row (request_id : string) (f : Request.t -> Request.t) :
  preserves (touch request_id) (Repository.update_row request_id f).
Proof.
  intros [d qm sem clk n evs]. unfold Repository.update_row. cbn [db].
  destruct (d !! request_id) as [r|] eqn:Hr; [|reflexivity].
  split; cbn.
  - intros x Hx. by rewrite lookup_insert_ne.
  - intros x Hx. rewrite lookup_insert. by case_decide.
  - exists []. by rewrite app_nil_r.
  - done.
Qed.

Lemma touch_update_request_status (request_id : string) (status : Status)
    (started_at completed_at : option Q) :
  preserves (touch request_id)
    (Repository.update_request_status request_id status started_at
       completed_at).
Proof.
  intros w. unfold Repository.update_request_status.
  destruct (db w !! request_id); [|reflexivity].
  apply (preserves_bind (touch request_id)).
  - apply touch_update_row.
  - intros _. apply touch_emit. intros x Hx. simpl. by rewrite decide_False.
Qed.

Lemma touch_update_request_result (request_id : string)
    (result : option Dict) (error : option string) :
  preserves (touch request_id)
    (Repository.update_request_result request_id result error).
Proof. apply touch_update_row. Qed.

Lemma touch_increment_callback_attempts (request_id : string)
    (error : option string) :
  preserves (touch request_id)
    (Repository.increment_callback_attempts request_id error).
Proof. apply touch_update_row. Qed.

Lemma touch_get_request (request_id x : string) :
  preserves (touch request_id) (Repository.get_request x).
Proof. intros w. reflexivity. Qed.

Lemma touch_started_at_of (request_id : string) (req : option Request.t) :
  preserves (touch request_id) (Processor.started_at_of req).
Proof.
  intros w. unfold Processor.started_at_of.
  destruct req as [r|]; [destruct (Request.started_at r)|]; reflexivity.
Qed.

Lemma touch_wait_for_do_work (request_id : string) (payload : WorkPayload)
    (run : WorkRun) (timeout : Z) :
  preserves (touch request_id) (wait_for_do_work payload run timeout).
Proof.
  unfold wait_for_do_work. apply (preserves_bind (touch request_id)).
  - by apply touch_emit.
  - intros _. destruct (wait_for_gives_up _ _);
      [apply (preserves_raise (touch _))|].
    destruct (run_result run);
      [apply (preserves_raise (touch _)) | apply (preserves_ret (touch _))].
Qed.

Lemma touch_deliver_callback (request_id : string) (s : Settings)
    (callback_url : string) (body : CallbackPayload.t) (rid : string)
    (target : Callback.Target) :
  preserves (touch request_id)
    (Callback.deliver_callback s callback_url body rid target).
Proof.
  intros w.
  destruct (CallbackFacts.deliver_callback_effect s callback_url body rid
              target w) as (o & trace & -> & Hq & _).
  destruct w as [d qm sem clk n evs]. split; try done.
  exists trace. split; [done|]. intros x _. apply Hq.
Qed.

Lemma touch_task_done (request_id : string) :
  preserves (touch request_id) (on_queue_manager QueueManager.task_done).
Proof.
  intros [d qm sem clk n evs]. unfold on_queue_manager, lift. cbn.
  destruct (task_done_cases qm) as (o & qm' & -> & _ & Hq).
  split; try done. exists []. by rewrite app_nil_r.
Qed.

Create HintDb touch.
#[global] Hint Resolve touch_time_time touch_sleep touch_update_request_status
  touch_update_request_result touch_increment_callback_attempts
  touch_get_request touch_started_at_of touch_wait_for_do_work
  touch_deliver_callback touch_task_done : touch.

Ltac touch_steps :=
  repeat first
    [ solve [eauto with touch]
    | apply (preserves_ret (touch _))
    | apply (preserves_raise (touch _))
    | apply (preserves_bind (touch _)); [|intros ?] ].

Lemma touch_on_failure (s : Settings) (job : Job.t)
    (target : Callback.Target) (error_msg : string) (execution_time_ms : Q) :
  preserves (touch (Job.request_id job))
    (Processor.on_failure s job target error_msg execution_time_ms).
Proof. unfold Processor.on_failure. touch_steps. Qed.

Lemma touch_on_success (s : Settings) (job : Job.t) (run : WorkRun)
    (target : Callback.Target) :
  preserves (touch (Job.request_id job))
    (Processor.on_success s job run target).
Proof.
  unfold Processor.on_success. touch_steps.
  match goal with
  | r : (bool * option string)%type |- _ => destruct r as [[] e]
  end; touch_steps.
Qed.

Lemma touch_process_job (s : Settings) (job : Job.t) (run : WorkRun)
    (target : Callback.Target) :
  preserves (touch (Job.request_id job))
    (Processor.process_job s job run target).
Proof.
  unfold Processor.process_job. touch_steps.
  apply (preserves_try_finally (touch _)); [|apply touch_task_done].
  apply (preserves_try_except (touch _)); [apply touch_on_success|].
  intros e. unfold Processor.handler.
  destruct e; apply touch_on_failure.
Qed.

End TouchFacts.

(** ** A submission rejected for a full queue *)

Module RejectionFacts.
Import Exec TouchFacts.

Lemma worker_iteration_touch (s : Settings) (run : WorkRun)
    (target : Callback.Target) (w : World) (job : Job.t) (rest : list Job.t) :
  queued_jobs w = job :: rest ->
  exists w1,
    db w1 = db w /\ events w1 = events w /\ queued_jobs w1 = rest /\
    touch (Job.request_id job) w1
      (snd (Processor.worker_iteration s run target w)).
Proof.
  intros Hq.
  destruct (ProcessorFacts.worker_iteration_dequeues s run target w job rest Hq)
    as (w1 & Hdb & Hev & Hq1 & ->).
  exists w1. split; [done|]. split; [done|]. split; [done|].
  apply (preserves_try_except (touch _)).
  - apply touch_process_job.
  - intros _. apply touch_sleep.
Qed.

Lemma grounded_init (s : Settings) (clock : nat -> Q) :
  grounded (init_world s clock).
Proof.
  split.
  - intros x Hx. by apply elem_of_nil in Hx.
  - done.
Qed.

Lemma grounded_same (w w' : World) :
  grounded w ->
  db w' = db w -> events w' = events w -> queued_jobs w' = queued_jobs w ->
  grounded w'.
Proof.
  intros [H1 H2] Hdb Hev Hq.
  split; unfold queued_ids in *; rewrite ?Hdb, ?Hev, ?Hq; done.
Qed.

(** A row is created for [x] with status writes to [x] only, and the
    queue gains at most a job for [x]. *)
Lemma grounded_created (w w' : World) (x : string) (r : Request.t)
    (L : list Event) :
  grounded w ->
  db w' = <[x := r]> (db w) ->
  events w' = events w ++ L ->
  (forall y, y <> x -> status_history y L = []) ->
  (forall y, y ∈ queued_ids w' -> y = x \/ y ∈ queued_ids w) ->
  grounded w'.
Proof.
  intros [H1 H2] Hdb Hev HL Hq. split.
  - intros y Hy. rewrite Hdb, lookup_insert. case_decide; [done|].
    destruct (Hq y Hy) as [->|Hin]; [done|]. by apply H1.
  - intros y Hy. rewrite Hdb in Hy. rewrite lookup_insert in Hy.
    case_decide; [done|].
    rewrite Hev, status_history_app, HL by done. by rewrite H2.
Qed.

Lemma grounded_step (s : Settings) (w : World) (a : Action) :
  grounded w -> grounded (step s w a).
Proof.
  intros Hw. destruct a as [rid ip p run|v rid ip p url|run target]; simpl.
  - destruct (SyncEndpointFacts.sync_endpoint_cases s rid ip p run w)
      as [(Hdb & Hev & Hq)|[Hfree Hrow]].
    { by apply (grounded_same w). }
    destruct (SyncEndpointFacts.sync_endpoint_fresh s rid ip p run w Hfree Hrow)
      as (t0 & t1 & t2 & resp & Hrun).
    cbn zeta in Hrun. destruct Hrun as (_ & _ & _ & Hdb & Hev & Hq).
    eapply (grounded_created w _ rid _ _ Hw Hdb Hev).
    + intros y Hy. simpl. by rewrite !decide_False.
    + intros y Hy. right. unfold queued_ids in *. by rewrite <- Hq.
  - destruct (AsyncEndpointFacts.async_endpoint_cases v rid ip p url w)
      as [(Hdb & Hev & Hq & _)|(Hrow & t0 & Hdb & Hev & Hqueue)].
    { by apply (grounded_same w). }
    eapply (grounded_created w _ rid _ _ Hw Hdb Hev).
    + intros y Hy. simpl. by rewrite decide_False.
    + intros y Hy. unfold queued_ids in *.
      destruct Hqueue as [[Hq _]|[Hq _]]; rewrite Hq in Hy; [|by right].
      rewrite fmap_app in Hy. apply elem_of_app in Hy as [Hy|Hy]; [by right|].
      left. by apply list_elem_of_singleton in Hy.
  - destruct (queued_jobs w) as [|job rest] eqn:Hq.
    { by rewrite ProcessorFacts.worker_iteration_idle. }
    destruct (worker_iteration_touch s run target w job rest Hq)
      as (w1 & Hdb & Hev & Hq1 & [A B (L & E & QL) C]).
    destruct Hw as [H1 H2].
    assert (is_Some (db w !! Job.request_id job)) as Hjob.
    { apply H1. unfold queued_ids. rewrite Hq. simpl. apply list_elem_of_here. }
    split.
    + intros y Hy. apply B. rewrite Hdb. apply H1.
      unfold queued_ids in *. rewrite C, Hq1 in Hy. rewrite Hq. simpl.
      by apply list_elem_of_further.
    + intros y Hy.
      assert (y <> Job.request_id job) as Hne.
      { intros ->. rewrite <- Hdb in Hjob. apply B in Hjob.
        rewrite Hy in Hjob. by destruct Hjob. }
      rewrite E, status_history_app, QL by done.
      rewrite Hev, app_nil_r. apply H2.
      rewrite <- Hdb, <- (A y Hne). exact Hy.
Qed.

Lemma grounded_run (s : Settings) (acts : list Action) (w : World) :
  grounded w -> grounded (run_actions s acts w).
Proof.
  revert w. induction acts as [|a acts IH]; intros w Hw; simpl; [done|].
  apply IH. by apply grounded_step.
Qed.

Lemma parked_same (rid : string) (r : Request.t) (w w' : World) :
  parked rid r w ->
  db w' = db w -> events w' = events w -> queued_jobs w' = queued_jobs w ->
  parked rid r w'.
Proof.
  intros [H1 H2 H3] Hdb Hev Hq.
  split; unfold queued_ids in *; rewrite ?Hdb, ?Hev, ?Hq; done.
Qed.

(** Work on another identifier leaves a parked request parked. *)
Lemma parked_other (rid : string) (r : Request.t) (w w' : World)
    (x : string) (r' : Request.t) (L : list Event) :
  parked rid r w ->
  x <> rid ->
  db w' = <[x := r']> (db w) ->
  events w' = events w ++ L ->
  status_history rid L = [] ->
  (forall y, y ∈ queued_ids w' -> y = x \/ y ∈ queued_ids w) ->
  parked rid r w'.
Proof.
  intros [H1 H2 H3] Hne Hdb Hev HL Hq. split.
  - by rewrite Hdb, lookup_insert_ne.
  - by rewrite Hev, status_history_app, HL, app_nil_r.
  - intros Hin. destruct (Hq rid Hin) as [->|Hin']; done.
Qed.

Lemma parked_step (s : Settings) (rid : string) (r : Request.t) (w : World)
    (a : Action) :
  parked rid r w -> parked rid r (step s w a).
Proof.
  intros Hw. destruct a as [x ip p run|v x ip p url|run target]; simpl.
  - destruct (SyncEndpointFacts.sync_endpoint_cases s x ip p run w)
      as [(Hdb & Hev & Hq)|[Hfree Hrow]].
    { by apply (parked_same rid r w). }
    assert (x <> rid) as Hne.
    { intros ->. rewrite (parked_row _ _ _ Hw) in Hrow. done. }
    destruct (SyncEndpointFacts.sync_endpoint_fresh s x ip p run w Hfree Hrow)
      as (t0 & t1 & t2 & resp & Hrun).
    cbn zeta in Hrun. destruct Hrun as (_ & _ & _ & Hdb & Hev & Hq).
    eapply (parked_other rid r w _ x _ _ Hw Hne Hdb Hev).
    + simpl. by rewrite !decide_False.
    + intros y Hy. right. unfold queued_ids in *. by rewrite <- Hq.
  - destruct (AsyncEndpointFacts.async_endpoint_cases v x ip p url w)
      as [(Hdb & Hev & Hq & _)|(Hrow & t0 & Hdb & Hev & Hqueue)].
    { by apply (parked_same rid r w). }
    assert (x <> rid) as Hne.
    { intros ->. rewrite (parked_row _ _ _ Hw) in Hrow. done. }
    eapply (parked_other rid r w _ x _ _ Hw Hne Hdb Hev).
    + simpl. by rewrite decide_False.
    + intros y Hy. unfold queued_ids in *.
      destruct Hqueue as [[Hq _]|[Hq _]]; rewrite Hq in Hy; [|by right].
      rewrite fmap_app in Hy. apply elem_of_app in Hy as [Hy|Hy]; [by right|].
      left. by apply list_elem_of_singleton in Hy.
  - destruct (queued_jobs w) as [|job rest] eqn:Hq.
    { by rewrite ProcessorFacts.worker_iteration_idle. }
    destruct (worker_iteration_touch s run target w job rest Hq)
      as (w1 & Hdb & Hev & Hq1 & [A B (L & E & QL) C]).
    destruct Hw as [H1 H2 H3].
    assert (rid <> Job.request_id job) as Hne.
    { intros ->. apply H3. unfold queued_ids. rewrite Hq. simpl.
      apply list_elem_of_here. }
    split.
    + by rewrite (A rid Hne), Hdb.
    + by rewrite E, status_history_app, (QL rid Hne), Hev, app_nil_r.
    + intros Hin. apply H3. unfold queued_ids in *.
      rewrite C, Hq1 in Hin. rewrite Hq. simpl. by apply list_elem_of_further.
Qed.

Lemma parked_run (s : Settings) (rid : string) (r : Request.t)
    (acts : list Action) (w : World) :
  parked rid r w -> parked rid r (run_actions s acts w).
Proof.
  revert w. induction acts as [|a acts IH]; intros w Hw; simpl; [done|].
  apply IH. by apply parked_step.
Qed.

(** C10. Let the process run through any actions, then let an async
    submission be rejected because the queue is full. The row created for
    it at admission is still there with status [pending] and no job for it
    is in the queue; and whatever requests and worker turns follow, that
    row stays exactly as it is, [pending] is the only status ever written
    to it, and no job for it ever appears in the queue. *)
Theorem rejected_submission_stays_pending (s : Settings) (clock : nat -> Q)
    (before after : list Action) (validation : option string)
    (request_id client_ip : string) (payload : WorkPayload)
    (callback_url : string) :
  let w := run_actions s before (init_world s clock) in
  let out := AsyncEndpoint.async_endpoint validation request_id client_ip
               payload callback_url w in
  fst out = Raise AsyncEndpoint.queue_full_rejection ->
  let w' := run_actions s after (snd out) in
  exists r,
    db (snd out) !! request_id = Some r /\
    Request.status r = pending /\
    Request.mode r = async /\
    (request_id ∉ queued_ids (snd out)) /\
    db w' !! request_id = Some r /\
    status_history request_id (events w') = [pending] /\
    request_id ∉ queued_ids w'.
Proof.
  intros w out Hrej w'.
  pose proof (grounded_run s before (init_world s clock) (grounded_init s clock))
    as Hw. fold w in Hw.
  destruct (AsyncEndpointFacts.async_endpoint_cases validation request_id
              client_ip payload callback_url w)
    as [(_ & _ & _ & Hno)|(Hrow & t0 & Hdb & Hev & Hqueue)].
  { by fold out in Hno. }
  fold out in Hdb, Hev, Hqueue.
  destruct Hqueue as [[_ Hno]|[Hq _]]; [done|].
  assert (parked request_id
            (Repository.new_row request_id async payload (Some callback_url)
               t0 client_ip) (snd out)) as Hparked.
  { split.
    - by rewrite Hdb, lookup_insert_eq.
    - rewrite Hev, status_history_app, (no_row_no_history w Hw _ Hrow).
      simpl. by rewrite decide_True.
    - unfold queued_ids. rewrite Hq. intros Hin.
      apply (queued_have_rows w Hw) in Hin. rewrite Hrow in Hin.
      by destruct Hin. }
  pose proof (parked_run s _ _ after _ Hparked) as [P1 P2 P3].
  destruct Hparked as [Q1 Q2 Q3].
  eexists. repeat split; eauto.
Qed.

Lemma rejected_submission_stays_pending_witness :
  let w := run_actions Samples.small_queue_settings Samples.filling_actions
             (init_world Samples.small_queue_settings Samples.ticking_clock) in
  let out := AsyncEndpoint.async_endpoint None "r3" "198.51.100.4"
               Samples.hash_payload "https://client.example/hook" w in
  let w' := run_actions Samples.small_queue_settings Samples.draining_actions
              (snd out) in
  fst out = Raise AsyncEndpoint.queue_full_rejection /\
  exists r,
    db w' !! "r3" = Some r /\ Request.status r = pending /\
    status_history "r3" (events w') = [pending].
Proof.
  intros w out w'.
  assert (fst out = Raise AsyncEndpoint.queue_full_rejection) as Hrej
    by (vm_compute; reflexivity).
  split; [exact Hrej|].
  destruct (rejected_submission_stays_pending Samples.small_queue_settings
              Samples.ticking_clock Samples.filling_actions
              Samples.draining_actions None "r3" "198.51.100.4"
              Samples.hash_payload "https://client.example/hook" Hrej)
    as (r & _ & Hst & _ & _ & Hrow & Hhist & _).
  exists r. split; [exact Hrow|]. split; [exact Hst|]. exact Hhist.
Defined.

End RejectionFacts.

(** ** Rate limiter: admission, bursts and retries *)

Module RateLimiterMore.
Import RateLimiter RateLimiterFacts RateLimiterRuns.

Lemma py_min_cases (a b : Q) :
  (py_min a b == a /\ (a <= b)%Q) \/ (py_min a b == b /\ (b < a)%Q).
Proof. unfold py_min. destruct (Qlt_le_dec b a); [right|left]; split; lra. Qed.

Lemma inject_Z_le_1 (z : Z) : 1 <= z -> (1 <= inject_Z z)%Q.
Proof. intros H. change 1%Q with (inject_Z 1). by rewrite <- Zle_Qle. Qed.

(** The outcome of a check is decided by the refilled count. *)
Lemma check_allowed (s : Settings) (client : string) (t_new now : Q)
    (buckets : Buckets) :
  rate_limit_window_seconds s <> 0 ->
  let got := bucket_get s client t_new buckets in
  (1 <= refill s (fst got) now)%Q ->
  check_rate_limit s client t_new now buckets
  = (Ret (true, 0),
     <[client := ((refill s (fst got) now - 1)%Q, now)]> (snd got)).
Proof.
  intros Hw got Hge. unfold check_rate_limit.
  destruct (rate_limit_window_seconds s =? 0) eqn:E; [lia|].
  fold got. destruct got as [bucket buckets1]. simpl in *.
  apply Qle_bool_iff in Hge. by rewrite Hge.
Qed.

Lemma check_denied (s : Settings) (client : string) (t_new now : Q)
    (buckets : Buckets) :
  0 < rate_limit_requests s -> 0 < rate_limit_window_seconds s ->
  let got := bucket_get s client t_new buckets in
  (refill s (fst got) now < 1)%Q ->
  check_rate_limit s client t_new now buckets
  = (Ret (false, Qfloor ((1 - refill s (fst got) now) / refill_rate s)),
     snd got).
Proof.
  intros Hm Hw got Hlt. unfold check_rate_limit.
  destruct (rate_limit_window_seconds s =? 0) eqn:E; [lia|].
  fold got. destruct got as [bucket buckets1]. simpl in *.
  destruct (Qle_bool 1 (refill s bucket now)) eqn:Hge.
  { apply Qle_bool_iff in Hge. lra. }
  pose proof (refill_rate_pos s Hm Hw) as Hrate.
  destruct (Qeq_bool (refill_rate s) 0) eqn:Hz.
  { apply Qeq_bool_iff in Hz. lra. }
  rewrite py_int_nonneg_floor; [done|].
  unfold Qdiv. apply Qmult_le_0_compat; [lra|].
  apply Qlt_le_weak, Qinv_lt_0_compat, Hrate.
Qed.

(** X1. With at least one token per window and a positive window, the
    first request of a client that has no bucket yet is admitted with
    [retry_after = 0], provided the clock does not run backwards between
    the reading the bucket is created with ([t_new]) and the reading of
    the check ([now]): the bucket starts full and is stored with
    [rate_limit_requests - 1] tokens, and no other client's bucket
    changes. (If [now] is before [t_new] the refill is negative and the
    request can be denied.) *)
Theorem new_client_admitted (s : Settings) (client : string) (t_new now : Q)
    (buckets : Buckets) :
  1 <= rate_limit_requests s ->
  0 < rate_limit_window_seconds s ->
  buckets !! client = None ->
  (t_new <= now)%Q ->
  exists tokens,
    check_rate_limit s client t_new now buckets
    = (Ret (true, 0), <[client := (tokens, now)]> buckets) /\
    tokens == inject_Z (rate_limit_requests s - 1).
Proof.
  intros Hm Hw Hnone Hclock.
  pose proof (refill_rate_pos s ltac:(lia) Hw) as Hrate.
  pose proof (check_allowed s client t_new now buckets ltac:(lia)) as Hrun.
  unfold bucket_get in Hrun. rewrite Hnone in Hrun. cbn [fst snd] in Hrun.
  assert (refill s (inject_Z (rate_limit_requests s), t_new) now
          == inject_Z (rate_limit_requests s)) as Hfull.
  { unfold refill.
    destruct (py_min_cases (inject_Z (rate_limit_requests s))
                (inject_Z (rate_limit_requests s) +
                 (now - t_new) * refill_rate s)) as [[-> _]|[_ Hlt]]; [done|].
    assert (0 <= (now - t_new) * refill_rate s)%Q
      by (apply Qmult_le_0_compat; lra).
    lra. }
  pose proof (inject_Z_le_1 _ Hm).
  rewrite Hrun by lra. rewrite insert_insert_eq.
  eexists. split; [reflexivity|].
  rewrite Hfull. unfold Z.sub. rewrite inject_Z_plus.
  rewrite inject_Z_opp. change (inject_Z 1) with 1%Q. lra.
Qed.

Lemma new_client_admitted_witness :
  exists tokens,
    check_rate_limit default_settings "203.0.113.7" 0 0 ∅
    = (Ret (true, 0), <["203.0.113.7" := (tokens, 0%Q)]> ∅) /\
    tokens == inject_Z (rate_limit_requests default_settings - 1).
Proof.
  apply (new_client_admitted default_settings "203.0.113.7" 0 0 ∅).
  - vm_compute. discriminate.
  - reflexivity.
  - reflexivity.
  - vm_compute. discriminate.
Defined.

Lemma refill_same_instant (s : Settings) (tok t : Q) :
  (tok <= inject_Z (rate_limit_requests s))%Q ->
  refill s (tok, t) t == tok.
Proof.
  intros Hle. unfold refill.
  destruct (py_min_cases (inject_Z (rate_limit_requests s))
              (tok + (t - t) * refill_rate s)) as [[-> Hge]|[-> _]]; lra.
Qed.

Lemma first_check_same_instant (s : Settings) (client : string) (t : Q)
    (buckets : Buckets) :
  1 <= rate_limit_requests s ->
  0 < rate_limit_window_seconds s ->
  buckets !! client = None ->
  exists tok,
    check_rate_limit s client t t buckets
    = (Ret (true, 0), <[client := (tok, t)]> buckets) /\
    tok == inject_Z (rate_limit_requests s - 1).
Proof.
  intros Hm Hw Hnone.
  pose proof (check_allowed s client t t buckets ltac:(lia)) as Hrun.
  unfold bucket_get in Hrun. rewrite Hnone in Hrun. cbn [fst snd] in Hrun.
  pose proof (refill_same_instant s (inject_Z (rate_limit_requests s)) t
                ltac:(lra)) as Hre.
  pose proof (inject_Z_le_1 _ Hm).
  rewrite Hrun by lra. rewrite insert_insert_eq.
  eexists. split; [reflexivity|].
  rewrite Hre. unfold Z.sub. rewrite inject_Z_plus, inject_Z_opp.
  change (inject_Z 1) with 1%Q. lra.
Qed.

Lemma burst_step_allowed (s : Settings) (client : string) (t tok : Q) (j : Z)
    (buckets : Buckets) :
  0 < rate_limit_window_seconds s ->
  1 <= j <= rate_limit_requests s ->
  buckets !! client = Some (tok, t) ->
  tok == inject_Z j ->
  exists tok',
    check_rate_limit s client t t buckets
    = (Ret (true, 0), <[client := (tok', t)]> buckets) /\
    tok' == inject_Z (j - 1).
Proof.
  intros Hw Hj Hlook Htok.
  pose proof (check_allowed s client t t buckets ltac:(lia)) as Hrun.
  unfold bucket_get in Hrun. rewrite Hlook in Hrun. cbn [fst snd] in Hrun.
  assert (tok <= inject_Z (rate_limit_requests s))%Q as Hle.
  { rewrite Htok, <- Zle_Qle. lia. }
  pose proof (refill_same_instant s tok t Hle) as Hre.
  pose proof (inject_Z_le_1 j ltac:(lia)).
  rewrite Hrun by lra. eexists. split; [reflexivity|].
  rewrite Hre, Htok. unfold Z.sub. rewrite inject_Z_plus, inject_Z_opp.
  change (inject_Z 1) with 1%Q. lra.
Qed.

Lemma burst_step_denied (s : Settings) (client : string) (t tok : Q)
    (buckets : Buckets) :
  0 < rate_limit_requests s ->
  0 < rate_limit_window_seconds s ->
  buckets !! client = Some (tok, t) ->
  tok == 0 ->
  check_rate_limit s client t t buckets
  = (Ret (false, rate_limit_window_seconds s / rate_limit_requests s),
     buckets).
Proof.
  intros Hm Hw Hlook Htok.
  pose proof (check_denied s client t t buckets Hm Hw) as Hrun.
  unfold bucket_get in Hrun. rewrite Hlook in Hrun. cbn [fst snd] in Hrun.
  assert (tok <= inject_Z (rate_limit_requests s))%Q as Hle.
  { rewrite Htok. change 0%Q with (inject_Z 0). rewrite <- Zle_Qle. lia. }
  pose proof (refill_same_instant s tok t Hle) as Hre.
  rewrite Hrun by lra. do 3 f_equal.
  rewrite Zdiv_Qdiv. apply Qfloor_comp.
  rewrite Hre, Htok. unfold refill_rate.
  assert (~ inject_Z (rate_limit_requests s) == 0) as Hm0.
  { change 0%Q with (inject_Z 0). rewrite inject_Z_injective. lia. }
  assert (~ inject_Z (rate_limit_window_seconds s) == 0) as Hw0.
  { change 0%Q with (inject_Z 0). rewrite inject_Z_injective. lia. }
  field. split; assumption.
Qed.

Lemma burst_from_bucket (s : Settings) (client : string) (t : Q) :
  0 < rate_limit_requests s ->
  0 < rate_limit_window_seconds s ->
  forall (n : nat) (j : Z) (tok : Q) (buckets : Buckets),
    0 <= j <= rate_limit_requests s ->
    buckets !! client = Some (tok, t) ->
    tok == inject_Z j ->
    fst (run_checks_log s (burst client t n) buckets)
    = replicate (n `min` Z.to_nat j) (Ret (true, 0)) ++
      replicate (n - Z.to_nat j)
        (Ret (false, rate_limit_window_seconds s / rate_limit_requests s)).
Proof.
  intros Hm Hw. induction n as [|n IH]; intros j tok buckets Hj Hlook Htok.
  { reflexivity. }
  cbn [burst replicate run_checks_log chk_client chk_t_new chk_now].
  fold (burst client t n).
  destruct (decide (j = 0)) as [->|Hpos].
  - rewrite (burst_step_denied s client t tok buckets Hm Hw Hlook Htok).
    specialize (IH 0 tok buckets ltac:(lia) Hlook Htok).
    destruct (run_checks_log s (burst client t n) buckets) as [os b'].
    cbn [fst] in *. rewrite IH. simpl. by rewrite Nat.min_0_r, Nat.sub_0_r.
  - destruct (burst_step_allowed s client t tok j buckets Hw ltac:(lia)
                Hlook Htok) as (tok' & -> & Htok').
    specialize (IH (j - 1) tok' (<[client := (tok', t)]> buckets)
                  ltac:(lia) (lookup_insert_eq _ _ _) Htok').
    destruct (run_checks_log s (burst client t n) (<[client:=(tok', t)]> buckets))
      as [os b'].
    cbn [fst] in *. rewrite IH.
    replace (Z.to_nat j) with (S (Z.to_nat (j - 1))) by lia.
    reflexivity.
Qed.

(** X2. Of [n] requests a new client sends at one instant, under
    settings with at least one and at most [2^53] tokens (which doubles
    hold exactly), the first [rate_limit_requests] are admitted and every
    later one is denied. All the denials carry the same [retry_after]; it
    is never negative, and it is 0 whenever the window in seconds is
    shorter than the number of tokens (as with the defaults 60 and
    100). *)
Theorem burst_admits_max_tokens (s : Settings) (client : string) (t : Q)
    (n : nat) (buckets : Buckets) :
  1 <= rate_limit_requests s ->
  rate_limit_requests s <= 2 ^ 53 ->
  0 < rate_limit_window_seconds s ->
  buckets !! client = None ->
  exists retry_after : Z,
    fst (run_checks_log s (burst client t n) buckets)
    = replicate (n `min` Z.to_nat (rate_limit_requests s)) (Ret (true, 0)) ++
      replicate (n - Z.to_nat (rate_limit_requests s))
        (Ret (false, retry_after)) /\
    0 <= retry_after /\
    (rate_limit_window_seconds s < rate_limit_requests s -> retry_after = 0).
Proof.
  intros Hm _ Hw Hnone.
  exists (rate_limit_window_seconds s / rate_limit_requests s).
  split; [|split; [apply Z.div_pos; lia|intros Hlt; apply Z.div_small; lia]].
  destruct n as [|n]; [reflexivity|].
  cbn [burst replicate run_checks_log chk_client chk_t_new chk_now].
  fold (burst client t n).
  destruct (first_check_same_instant s client t buckets Hm Hw Hnone)
    as (tok & -> & Htok).
  pose proof (burst_from_bucket s client t ltac:(lia) Hw n
                (rate_limit_requests s - 1) tok
                (<[client := (tok, t)]> buckets) ltac:(lia)
                (lookup_insert_eq _ _ _) Htok) as Hrest.
  destruct (run_checks_log s (burst client t n) (<[client:=(tok, t)]> buckets))
    as [os b'].
  cbn [fst] in *. rewrite Hrest.
  replace (Z.to_nat (rate_limit_requests s))
    with (S (Z.to_nat (rate_limit_requests s - 1))) by lia.
  reflexivity.
Qed.

Lemma burst_admits_max_tokens_witness :
  exists retry_after : Z,
    fst (run_checks_log default_settings (burst "203.0.113.7" 0 102) ∅)
    = replicate (102 `min` Z.to_nat (rate_limit_requests default_settings))
        (Ret (true, 0)) ++
      replicate (102 - Z.to_nat (rate_limit_requests default_settings))
        (Ret (false, retry_after)) /\
    0 <= retry_after /\
    (rate_limit_window_seconds default_settings
     < rate_limit_requests default_settings -> retry_after = 0).
Proof.
  apply (burst_admits_max_tokens default_settings "203.0.113.7" 0 102 ∅).
  - vm_compute. discriminate.
  - vm_compute. discriminate.
  - reflexivity.
  - reflexivity.
Defined.

(** X3. A client that was denied with [retry_after] and comes back at
    least [retry_after + 1] seconds later is admitted. (The hint itself is
    rounded down, so [retry_after] seconds alone need not be enough.) *)
Theorem retry_one_second_after_hint_admitted (s : Settings) (client : string)
    (t_new now t_new' now' : Q) (buckets buckets' : Buckets) (retry_after : Z) :
  1 <= rate_limit_requests s ->
  0 < rate_limit_window_seconds s ->
  check_rate_limit s client t_new now buckets
    = (Ret (false, retry_after), buckets') ->
  (now + inject_Z retry_after + 1 <= now')%Q ->
  exists buckets'',
    check_rate_limit s client t_new' now' buckets' = (Ret (true, 0), buckets'').
Proof.
  intros Hm Hw Hdenied Hwait.
  pose proof (refill_rate_pos s ltac:(lia) Hw) as Hrate.
  pose proof (check_rate_limit_cases s client t_new now buckets) as Hc.
  rewrite Hdenied in Hc. cbn zeta in Hc. destruct Hc as (Hra & Hlt & ->).
  pose proof (bucket_get_lookup s client t_new buckets) as Hlook.
  destruct (bucket_get s client t_new buckets) as [[tok last] b1].
  cbn [fst snd] in *.
  pose proof (check_allowed s client t_new' now' b1 ltac:(lia)) as Hrun.
  unfold bucket_get in Hrun. rewrite Hlook in Hrun. cbn [fst snd] in Hrun.
  eexists. apply Hrun. clear Hrun.
  pose proof (inject_Z_le_1 _ Hm) as Hmax.
  set (y := (tok + (now - last) * refill_rate s)%Q) in *.
  assert (refill s (tok, last) now == y /\ (y < 1)%Q) as [Hy Hy1].
  { unfold refill in *. fold y in Hlt |- *.
    destruct (py_min_cases (inject_Z (rate_limit_requests s)) y)
      as [[Heq Hle]|[Heq Hl]]; rewrite Heq in Hlt; split; lra. }
  assert (0 <= (1 - refill s (tok, last) now) / refill_rate s)%Q as Hx.
  { unfold Qdiv. apply Qmult_le_0_compat; [lra|].
    apply Qlt_le_weak, Qinv_lt_0_compat, Hrate. }
  rewrite (py_int_nonneg_floor _ Hx) in Hra.
  pose proof (Qlt_floor ((1 - refill s (tok, last) now) / refill_rate s))
    as Hfl.
  rewrite <- Hra in Hfl. rewrite inject_Z_plus in Hfl.
  change (inject_Z 1) with 1%Q in Hfl.
  assert (1 - y < (inject_Z retry_after + 1) * refill_rate s)%Q as Hgap.
  { rewrite Hy in Hfl.
    apply (Qmult_lt_compat_r _ _ (refill_rate s) Hrate) in Hfl.
    unfold Qdiv in Hfl.
    rewrite <- Qmult_assoc, (Qmult_comm (/ refill_rate s)),
      Qmult_inv_r, Qmult_1_r in Hfl by lra.
    exact Hfl. }
  assert ((inject_Z retry_after + 1) * refill_rate s
          <= (now' - now) * refill_rate s)%Q as Hmore.
  { apply Qmult_le_compat_r; lra. }
  unfold refill.
  destruct (py_min_cases (inject_Z (rate_limit_requests s))
              (tok + (now' - last) * refill_rate s)) as [[-> _]|[-> _]];
    [lra|].
  unfold y in Hgap.
  assert ((now' - last) * refill_rate s
          == (now - last) * refill_rate s + (now' - now) * refill_rate s)
    as -> by ring.
  lra.
Qed.

Lemma retry_one_second_after_hint_admitted_witness :
  exists buckets'',
    check_rate_limit default_settings "203.0.113.7" 1 1 Samples.drained_buckets
    = (Ret (true, 0), buckets'').
Proof.
  apply (retry_one_second_after_hint_admitted default_settings "203.0.113.7"
           0 0 1 1 Samples.drained_buckets Samples.drained_buckets 0).
  - vm_compute. discriminate.
  - reflexivity.
  - vm_compute. reflexivity.
  - vm_compute. discriminate.
Defined.

(** X4. [check_rate_limit] raises exactly when [rate_limit_window_seconds]
    or [rate_limit_requests] is zero (a division by zero); with any other
    settings every call returns. *)
Theorem check_raises_iff_zero_setting (s : Settings) (client : string)
    (t_new now : Q) (buckets : Buckets) :
  (exists e, fst (check_rate_limit s client t_new now buckets) = Raise e) <->
  rate_limit_window_seconds s = 0 \/ rate_limit_requests s = 0.
Proof.
  pose proof (check_rate_limit_cases s client t_new now buckets) as Hc.
  cbn zeta in Hc. split.
  - intros [e He].
    destruct (check_rate_limit s client t_new now buckets) as [[[[] ra]|e'|] b];
      cbn [fst] in He; try discriminate.
    destruct Hc as (_ & [[Hw _]|(Hz & _)]); [by left|].
    unfold refill_rate in Hz.
    destruct (decide (rate_limit_window_seconds s = 0)) as [|Hw]; [by left|].
    right. unfold Qdiv in Hz. apply Qmult_integral in Hz as [Hz|Hz].
    + change 0%Q with (inject_Z 0) in Hz.
      rewrite inject_Z_injective in Hz. exact Hz.
    + exfalso. apply Hw.
      assert (inject_Z (rate_limit_window_seconds s) == 0) as H0.
      { rewrite <- (Qinv_involutive (inject_Z _)), Hz. reflexivity. }
      change 0%Q with (inject_Z 0) in H0.
      rewrite inject_Z_injective in H0. exact H0.
  - intros Hzero. exists ZeroDivisionError.
    unfold check_rate_limit.
    destruct (rate_limit_window_seconds s =? 0) eqn:E; [done|].
    destruct Hzero as [Hw|Hm]; [lia|].
    destruct (bucket_get s client t_new buckets) as [bucket b1].
    pose proof (refill_le_max s bucket now) as Hle. rewrite Hm in Hle.
    change (inject_Z 0) with 0%Q in Hle.
    destruct (Qle_bool 1 (refill s bucket now)) eqn:Hge.
    { apply Qle_bool_iff in Hge. lra. }
    assert (Qeq_bool (refill_rate s) 0 = true) as ->; [|done].
    apply Qeq_bool_iff. unfold refill_rate. rewrite Hm.
    unfold Qdiv. change (inject_Z 0) with 0%Q. ring.
Qed.

End RateLimiterMore.

(** ** Queue manager: order, counters and capacity *)

Module QueueOpsFacts.
Import QueueOps QueueManager.

Lemma sound_init (s : Settings) :
  sound s {| manager := init s; accepted := []; handed_out := [] |}.
Proof. split; cbn; try done. intros. unfold get_size, Asyncio.qsize. cbn. lia. Qed.

Lemma task_done_effect (qm : t) :
  (Asyncio._unfinished_tasks (queue qm) <= 0 /\
   task_done qm = (Raise (ValueError "task_done() called too many times"), qm)) \/
  (0 < Asyncio._unfinished_tasks (queue qm) /\
   task_done qm =
   (Ret tt,
    {| queue := {| Asyncio._queue := Asyncio._queue (queue qm);
                   Asyncio._maxsize := Asyncio._maxsize (queue qm);
                   Asyncio._unfinished_tasks :=
                     Asyncio._unfinished_tasks (queue qm) - 1 |};
       total_enqueued := total_enqueued qm;
       total_processed := total_processed qm + 1 |})).
Proof.
  unfold task_done, bind, lift, Asyncio.task_done, incr_total_processed.
  destruct (Asyncio._unfinished_tasks (queue qm) <=? 0) eqn:E.
  - left. split; [lia|]. destruct qm as [[q m u] te tp]. reflexivity.
  - right. split; [lia|]. reflexivity.
Qed.

Lemma sound_step (s : Settings) (st : State) (op : Op) :
  sound s st -> sound s (apply_op st op).
Proof.
  intros [Hfifo Hmax Hbound Henq Hunf Hproc Hpend].
  destruct st as [qm acc out]. cbn in *. destruct op as [job| |]; cbn.
  - destruct (Asyncio.full (queue qm)) eqn:Hfull.
    + rewrite (QueueManagerFacts.enqueue_full _ _ Hfull). by split.
    + rewrite (QueueManagerFacts.enqueue_not_full _ _ Hfull).
      split; cbn; try done.
      * by rewrite Hfifo, app_assoc.
      * intros Hpos. unfold Asyncio.full in Hfull. rewrite Hmax in Hfull.
        destruct (max_queue_size s <=? 0) eqn:E; [lia|].
        unfold get_size, Asyncio.qsize in *. cbn.
        rewrite length_app. cbn. lia.
      * rewrite length_app. cbn. lia.
      * lia.
      * lia.
  - unfold dequeue, lift, Asyncio.get.
    destruct qm as [[q m u] te tp]. cbn in *.
    destruct q as [|job rest]; cbn.
    + by split.
    + split; cbn; try done.
      * by rewrite Hfifo, <- app_assoc.
      * intros Hpos. specialize (Hbound Hpos).
        unfold get_size, Asyncio.qsize in *. cbn in *. lia.
  - destruct (task_done_effect qm) as [[Hle ->]|[Hlt ->]]; cbn.
    + by split.
    + split; cbn; try done; lia.
Qed.

Lemma sound_run (s : Settings) (ops : list Op) : sound s (run_ops s ops).
Proof.
  unfold run_ops.
  generalize (sound_init s).
  generalize {| manager := init s; accepted := []; handed_out := [] |}.
  induction ops as [|op ops IH]; intros st Hst; cbn; [done|].
  apply IH. by apply sound_step.
Qed.

(** X5. Whatever sequence of [enqueue], [dequeue] and [task_done] calls
    is made on a fresh queue manager, the jobs handed out by [dequeue] so
    far, followed by the jobs still waiting, are exactly the jobs
    [enqueue] accepted, in the order it accepted them: jobs leave in
    arrival order, none is lost and none is handed out twice. *)
Theorem jobs_leave_in_arrival_order (s : Settings) (ops : list Op) :
  let st := run_ops s ops in
  accepted st
  = handed_out st ++ Asyncio._queue (queue (manager st)).
Proof. apply (sound_fifo _ _ (sound_run s ops)). Qed.

(** X6. After any sequence of calls on a fresh queue manager,
    [get_metrics] reports [total_enqueued] equal to the number of jobs
    [enqueue] accepted (a rejected job is not counted), [current_size]
    equal to [total_enqueued] minus the number of jobs handed out, and
    [0 <= total_processed <= total_enqueued]. *)
Theorem queue_metrics_add_up (s : Settings) (ops : list Op) :
  let st := run_ops s ops in
  let m := get_metrics s (manager st) in
  m_total_enqueued m = Z.of_nat (length (accepted st)) /\
  m_current_size m
  = m_total_enqueued m - Z.of_nat (length (handed_out st)) /\
  0 <= m_total_processed m <= m_total_enqueued m.
Proof.
  intros st m. destruct (sound_run s ops) as [Hfifo Hmax Hbound Henq Hunf Hproc Hpend].
  fold st in Hfifo, Hmax, Hbound, Henq, Hunf, Hproc, Hpend.
  unfold m, get_metrics. cbn.
  split; [done|]. split; [|lia].
  rewrite Henq, Hfifo, length_app. unfold get_size, Asyncio.qsize. lia.
Qed.

(** X7. With a positive [max_queue_size], no sequence of calls makes the
    queue hold more than [max_queue_size] jobs: [current_size <= max_size]
    in every [get_metrics]. *)
Theorem queue_never_exceeds_capacity (s : Settings) (ops : list Op) :
  0 < max_queue_size s ->
  let m := get_metrics s (manager (run_ops s ops)) in
  0 <= m_current_size m <= m_max_size m.
Proof.
  intros Hpos m. destruct (sound_run s ops) as [_ _ Hbound _ _ _ _].
  unfold m, get_metrics. cbn. split; [|by apply Hbound].
  unfold get_size, Asyncio.qsize. lia.
Qed.

Lemma queue_never_exceeds_capacity_witness :
  0 <= m_current_size
         (get_metrics Samples.small_queue_settings
            (manager (run_ops Samples.small_queue_settings
                        [Enqueue (Samples.job_of "r1");
                         Enqueue (Samples.job_of "r2");
                         Enqueue (Samples.job_of "r3")])))
    <= 2.
Proof.
  apply (queue_never_exceeds_capacity Samples.small_queue_settings
           [Enqueue (Samples.job_of "r1"); Enqueue (Samples.job_of "r2");
            Enqueue (Samples.job_of "r3")]).
  reflexivity.
Defined.

(** X8. After any sequence of calls on a fresh queue manager, one more
    [task_done] either finds as many jobs processed as enqueued, raises
    [ValueError] and changes nothing; or finds fewer, returns, and adds
    one to [total_processed] while [total_enqueued] and the size of the
    queue stay. *)
Theorem task_done_beyond_enqueued_raises (s : Settings) (ops : list Op) :
  let qm := manager (run_ops s ops) in
  (total_processed qm = total_enqueued qm /\
   task_done qm
   = (Raise (ValueError "task_done() called too many times"), qm)) \/
  (total_processed qm < total_enqueued qm /\
   fst (task_done qm) = Ret tt /\
   total_processed (snd (task_done qm)) = total_processed qm + 1 /\
   total_enqueued (snd (task_done qm)) = total_enqueued qm /\
   get_size (snd (task_done qm)) = get_size qm).
Proof.
  intros qm. destruct (sound_run s ops) as [_ _ _ _ Hunf _ Hpend].
  fold qm in Hunf, Hpend.
  destruct (task_done_effect qm) as [[Hle ->]|[Hlt ->]]; cbn.
  - left. split; [lia|done].
  - right. split; [lia|]. done.
Qed.

End QueueOpsFacts.

(** ** Callback delivery that succeeds *)

Module CallbackRunsFacts.
Import Callback CallbackTrace CallbackRuns CallbackFacts.

Lemma attempt_error_succeeded (s : Settings) (o : HttpOutcome) :
  failed_attempt o = false -> attempt_error s o = None.
Proof.
  destruct o as [c text| |msg|msg]; simpl; intros H; try done.
  assert ((c <? 400) = true) as -> by lia. done.
Qed.

Lemma attempts_made_bounds (target : Target) :
  forall n a, (attempts_made target a n <= n)%nat /\
              (n = 0 <-> attempts_made target a n = 0)%nat.
Proof.
  induction n as [|n IH]; intros a; simpl; [done|].
  destruct (failed_attempt (target a)); [|lia].
  specialize (IH (S a)). lia.
Qed.

Lemma first_success_attempts (target : Target) :
  forall n a,
    match first_success target a n with
    | Some k =>
        (a <= k < a + n)%nat /\ failed_attempt (target k) = false /\
        (forall i, (a <= i < k)%nat -> failed_attempt (target i) = true) /\
        (a + attempts_made target a n = S k)%nat
    | None =>
        (forall i, (a <= i < a + n)%nat -> failed_attempt (target i) = true) /\
        attempts_made target a n = n
    end.
Proof.
  induction n as [|n IH]; intros a; simpl.
  - split; [lia|done].
  - destruct (failed_attempt (target a)) eqn:Ha.
    + specialize (IH (S a)).
      destruct (first_success target (S a) n) as [k|].
      * destruct IH as (Hk & Hok & Hbefore & Hcount).
        split; [lia|]. split; [done|]. split; [|lia].
        intros i Hi. destruct (decide (i = a)) as [->|]; [done|].
        apply Hbefore. lia.
      * destruct IH as (Hall & Hcount). split; [|lia].
        intros i Hi. destruct (decide (i = a)) as [->|]; [done|].
        apply Hall. lia.
    + split; [lia|]. split; [done|]. split; [|lia]. intros i Hi. lia.
Qed.

(** What the loop does from any iteration on. *)
Lemma deliver_attempts_trace (s : Settings) (callback_url : string)
    (body : CallbackPayload.t) (target : Target) :
  forall (n a : nat) (err : option string) (w : World),
    (a + n)%nat = Z.to_nat (max_callback_retries s) ->
    let m := attempts_made target a n in
    exists o,
      deliver_attempts s callback_url body target n a err w
      = (o, set_events
              (events w ++ expected_backoff_trace s callback_url body (a + m) a m)
              w) /\
      (o = Ret (true, None) <-> is_Some (first_success target a n)).
Proof.
  induction n as [|n IH]; intros a err w Htotal; cbn zeta.
  - simpl. unfold expected_backoff_trace. simpl.
    rewrite app_nil_r, set_events_events.
    destruct err as [e|]; eexists; (split; [reflexivity|]);
      split; try done; intros []; done.
  - cbn [deliver_attempts attempts_made first_success].
    unfold bind at 1, emit at 1. cbn [fst snd].
    destruct (failed_attempt (target a)) eqn:Ha.
    + rewrite (attempt_error_failed s _ Ha). unfold bind at 1.
      destruct (attempts_made_bounds target n (S a)) as [_ Hzero].
      set (m := attempts_made target (S a) n) in *.
      assert ((Z.of_nat a <? max_callback_retries s - 1)
              = (S a <? a + S m)%nat) as ->.
      { destruct (Z.ltb_spec (Z.of_nat a) (max_callback_retries s - 1));
          destruct (Nat.ltb_spec (S a) (a + S m)); lia. }
      unfold expected_backoff_trace at 1. cbn [seq flat_map].
      fold (expected_backoff_trace s callback_url body (a + S m) (S a) m).
      destruct (S a <? a + S m)%nat;
        [unfold asyncio_sleep, emit|unfold ret at 1]; cbn [events set_events fst snd];
        match goal with
        | |- context [deliver_attempts _ _ _ _ _ _ ?e ?w'] =>
            destruct (IH (S a) e w') as (o & Hrun & Hok); [lia|]
        end;
        fold m in Hrun;
        replace (S a + m)%nat with (a + S m)%nat in Hrun by lia;
        exists o; (split; [|exact Hok]);
        rewrite Hrun; cbn [events set_events];
        rewrite <- !app_assoc; reflexivity.
    + rewrite (attempt_error_succeeded s _ Ha).
      exists (Ret (true, None)). split; [|by split; eauto].
      unfold ret, expected_backoff_trace. cbn [seq flat_map].
      assert ((S a <? a + 1)%nat = false) as -> by (apply Nat.ltb_ge; lia).
      reflexivity.
Qed.

Lemma sleeps_of_expected_all (s : Settings) (callback_url : string)
    (body : CallbackPayload.t) (total : nat) :
  sleeps_of (expected_backoff_trace s callback_url body total 0 total)
  = map (fun i => retry_backoff_base s ^ Z.of_nat i) (seq 0 (total - 1)).
Proof. by apply sleeps_of_expected. Qed.

(** X9. If attempt [k] is the first the target lets succeed, among the
    [max_callback_retries] attempts allowed, [deliver_callback] returns
    [(True, None)] after exactly the posts [0 .. k], having slept
    [backoff_base ^ i] seconds after each failed attempt [i < k]; it ends
    on the successful post, makes no further attempt and touches nothing
    else. *)
Theorem deliver_callback_stops_at_first_success (s : Settings)
    (callback_url : string) (body : CallbackPayload.t) (request_id : string)
    (target : Target) (w : World) (k : nat) :
  first_success target 0 (Z.to_nat (max_callback_retries s)) = Some k ->
  let trace := expected_backoff_trace s callback_url body (S k) 0 (S k) in
  deliver_callback s callback_url body request_id target w
  = (Ret (true, None), set_events (events w ++ trace) w) /\
  posts_of trace = map Z.of_nat (seq 0 (S k)) /\
  sleeps_of trace = map (fun i => retry_backoff_base s ^ Z.of_nat i) (seq 0 k) /\
  last trace = Some (EvPost callback_url body (Z.of_nat k)) /\
  (Z.of_nat k < max_callback_retries s).
Proof.
  intros Hk trace.
  destruct (deliver_attempts_trace s callback_url body target
              (Z.to_nat (max_callback_retries s)) 0 None w eq_refl)
    as (o & Hrun & Hok).
  pose proof (first_success_attempts target
                (Z.to_nat (max_callback_retries s)) 0) as Hfirst.
  rewrite Hk in Hfirst, Hok. destruct Hfirst as (Hlt & _ & _ & Hcount).
  cbn [Nat.add] in Hcount, Hrun. rewrite Hcount in Hrun.
  assert (o = Ret (true, None)) as -> by (apply Hok; eauto).
  split; [exact Hrun|]. split; [apply posts_of_expected|].
  split; [|split; [|lia]].
  - unfold trace. rewrite sleeps_of_expected_all. do 2 f_equal. lia.
  - unfold trace. rewrite last_of_expected by lia. do 3 f_equal. lia.
Qed.

Lemma deliver_callback_stops_at_first_success_witness :
  let trace :=
    expected_backoff_trace default_settings "https://client.example/hook"
      Samples.sample_body 2 0 2 in
  deliver_callback default_settings "https://client.example/hook"
    Samples.sample_body "r1" MoreSamples.flaky_target
    (init_world default_settings Samples.ticking_clock)
  = (Ret (true, None),
     set_events
       (events (init_world default_settings Samples.ticking_clock) ++ trace)
       (init_world default_settings Samples.ticking_clock)) /\
  posts_of trace = map Z.of_nat (seq 0 2) /\
  sleeps_of trace
  = map (fun i => retry_backoff_base default_settings ^ Z.of_nat i) (seq 0 1) /\
  last trace
  = Some (EvPost "https://client.example/hook" Samples.sample_body
            (Z.of_nat 1)) /\
  Z.of_nat 1 < max_callback_retries default_settings.
Proof.
  apply (deliver_callback_stops_at_first_success default_settings
           "https://client.example/hook" Samples.sample_body "r1"
           MoreSamples.flaky_target
           (init_world default_settings Samples.ticking_clock) 1).
  reflexivity.
Defined.

(** X10. Whatever the target answers and whatever the settings,
    [deliver_callback] makes [n <= max_callback_retries] posts, numbered
    [0 .. n-1] to the same URL with the same body, sleeps only between
    two posts, changes nothing else, and returns [(True, None)] exactly
    when one of the attempts [0 .. max_callback_retries - 1] succeeds. *)
Theorem deliver_callback_attempts_bounded (s : Settings)
    (callback_url : string) (body : CallbackPayload.t) (request_id : string)
    (target : Target) (w : World) :
  let retries := Z.to_nat (max_callback_retries s) in
  exists n,
    (n <= retries)%nat /\
    snd (deliver_callback s callback_url body request_id target w)
    = set_events
        (events w ++ expected_backoff_trace s callback_url body n 0 n) w /\
    posts_of (expected_backoff_trace s callback_url body n 0 n)
    = map Z.of_nat (seq 0 n) /\
    (fst (deliver_callback s callback_url body request_id target w)
     = Ret (true, None) <->
     exists i, (i < retries)%nat /\ failed_attempt (target i) = false).
Proof.
  intros retries.
  destruct (deliver_attempts_trace s callback_url body target retries 0 None w
              eq_refl) as (o & Hrun & Hok).
  cbn [Nat.add] in Hrun.
  exists (attempts_made target 0 retries).
  split; [apply attempts_made_bounds|].
  unfold deliver_callback. fold retries. rewrite Hrun. cbn [fst snd].
  split; [done|]. split; [apply posts_of_expected|].
  rewrite Hok. pose proof (first_success_attempts target retries 0) as Hfirst.
  destruct (first_success target 0 retries) as [k|].
  - destruct Hfirst as (Hk & Hgood & _). split; [|eauto].
    intros _. exists k. split; [lia|done].
  - destruct Hfirst as (Hall & _). split; [by intros []|].
    intros (i & Hi & Hgood). rewrite Hall in Hgood by lia. done.
Qed.

End CallbackRunsFacts.

(** ** Code that never suspends *)

Module NeverBlocks.
Import Callback.

Lemma nb_ret {A} (a : A) : never_blocks (ret a).
Proof. by intros w. Qed.

Lemma nb_raise {A} (e : Exn) : never_blocks (@raise World A e).
Proof. by intros w. Qed.

Lemma nb_bind {A B} (m : M World A) (k : A -> M World B) :
  never_blocks m -> (forall a, never_blocks (k a)) -> never_blocks (bind m k).
Proof.
  intros Hm Hk w. unfold bind. specialize (Hm w).
  destruct (m w) as [[a|e|] w']; simpl in *; [apply Hk|done..].
Qed.

Lemma nb_try_except {A} (m : M World A) (h : Exn -> M World A) :
  never_blocks m -> (forall e, never_blocks (h e)) ->
  never_blocks (try_except m h).
Proof.
  intros Hm Hh w. unfold try_except. specialize (Hm w).
  destruct (m w) as [[a|e|] w']; simpl in *; [done|apply Hh|done].
Qed.

Lemma nb_try_finally {A} (m : M World A) (fin : M World unit) :
  never_blocks m -> never_blocks fin -> never_blocks (try_finally m fin).
Proof.
  intros Hm Hfin w. unfold try_finally. specialize (Hm w).
  destruct (m w) as [[a|e|] w']; simpl in *; [| |done];
    specialize (Hfin w'); destruct (fin w') as [[[]|e'|] w'']; simpl in *; done.
Qed.

Lemma nb_emit (e : Event) : never_blocks (emit e).
Proof. by intros w. Qed.

Lemma nb_time_time : never_blocks time_time.
Proof. by intros w. Qed.

Lemma nb_update_row (request_id : string) (f : Request.t -> Request.t) :
  never_blocks (Repository.update_row request_id f).
Proof. intros w. unfold Repository.update_row. by destruct (db w !! _). Qed.

Lemma nb_update_request_status (request_id : string) (status : Status)
    (started_at completed_at : option Q) :
  never_blocks (Repository.update_request_status request_id status started_at
                  completed_at).
Proof.
  intros w. unfold Repository.update_request_status.
  destruct (db w !! request_id); [|done].
  apply nb_bind; [apply nb_update_row|intros _; apply nb_emit].
Qed.

Lemma nb_get_request (request_id : string) :
  never_blocks (Repository.get_request request_id).
Proof. by intros w. Qed.

Lemma nb_started_at_of (req : option Request.t) :
  never_blocks (Processor.started_at_of req).
Proof.
  intros w. unfold Processor.started_at_of.
  destruct req as [r|]; [destruct (Request.started_at r)|]; done.
Qed.

Lemma nb_wait_for_do_work (payload : WorkPayload) (run : WorkRun) (timeout : Z) :
  never_blocks (wait_for_do_work payload run timeout).
Proof.
  unfold wait_for_do_work. apply nb_bind; [apply nb_emit|intros _].
  destruct (wait_for_gives_up _ _); [apply nb_raise|].
  destruct (run_result run); [apply nb_raise|apply nb_ret].
Qed.

Lemma nb_deliver_callback (s : Settings) (callback_url : string)
    (body : CallbackPayload.t) (rid : string) (target : Target) :
  never_blocks (deliver_callback s callback_url body rid target).
Proof.
  unfold deliver_callback.
  generalize (Z.to_nat (max_callback_retries s)) 0%nat (@None string).
  induction n as [|n IH]; intros a err; simpl.
  - destruct err; [apply nb_ret|apply nb_raise].
  - apply nb_bind; [apply nb_emit|intros _].
    destruct (attempt_error s (target a)); [|apply nb_ret].
    apply nb_bind; [|intros _; apply IH].
    destruct (_ <? _); [apply nb_emit|apply nb_ret].
Qed.

Lemma nb_task_done : never_blocks (on_queue_manager QueueManager.task_done).
Proof.
  intros w. unfold on_queue_manager, lift.
  destruct (Exec.task_done_cases (queue_manager w)) as (o & qm' & -> & Hb & _).
  by destruct o.
Qed.

Lemma nb_on_failure (s : Settings) (job : Job.t) (target : Target)
    (error_msg : string) (execution_time_ms : Q) :
  never_blocks (Processor.on_failure s job target error_msg execution_time_ms).
Proof.
  unfold Processor.on_failure.
  repeat first [ apply nb_update_row | apply nb_time_time
               | apply nb_update_request_status | apply nb_deliver_callback
               | apply nb_ret | apply nb_bind; [|intros ?] ].
Qed.

Lemma nb_on_success (s : Settings) (job : Job.t) (run : WorkRun)
    (target : Target) :
  never_blocks (Processor.on_success s job run target).
Proof.
  unfold Processor.on_success.
  repeat first [ apply nb_update_row | apply nb_time_time
               | apply nb_wait_for_do_work | apply nb_get_request
               | apply nb_started_at_of
               | apply nb_update_request_status | apply nb_deliver_callback
               | apply nb_ret | apply nb_bind; [|intros ?] ].
  match goal with
  | r : (bool * option string)%type |- _ => destruct r as [[] e]
  end; [apply nb_ret|apply nb_update_row].
Qed.

Lemma nb_process_job (s : Settings) (job : Job.t) (run : WorkRun)
    (target : Target) :
  never_blocks (Processor.process_job s job run target).
Proof.
  unfold Processor.process_job.
  apply nb_bind; [apply nb_time_time|intros t].
  apply nb_bind; [apply nb_update_request_status|intros _].
  apply nb_try_finally; [|apply nb_task_done].
  apply nb_try_except; [apply nb_on_success|].
  intros e. unfold Processor.handler. destruct e; apply nb_on_failure.
Qed.

(** X11. A turn of the worker loop that finds a job waiting always runs
    to its end: whatever the settings, the job, the state of its row (even
    a missing one), the way the execution ends and the answers of the
    callback target, the turn neither suspends nor lets an exception
    escape, and it leaves in the queue exactly the jobs that were behind
    the one it took. *)
Theorem worker_turn_always_completes (s : Settings) (run : WorkRun)
    (target : Target) (w : World) (job : Job.t) (rest : list Job.t) :
  queued_jobs w = job :: rest ->
  fst (Processor.worker_iteration s run target w) = Ret tt /\
  queued_jobs (snd (Processor.worker_iteration s run target w)) = rest.
Proof.
  intros Hq. split.
  - destruct (ProcessorFacts.worker_iteration_dequeues s run target w job rest Hq)
      as (w1 & _ & _ & _ & ->).
    unfold try_except. pose proof (nb_process_job s job run target w1) as Hnb.
    destruct (Processor.process_job s job run target w1) as [[[]|e|] w']; done.
  - destruct (RejectionFacts.worker_iteration_touch s run target w job rest Hq)
      as (w1 & _ & _ & <- & Ht).
    apply Ht.
Qed.

Lemma worker_turn_always_completes_witness :
  fst (Processor.worker_iteration default_settings Samples.crashing_run
         Samples.broken_target Samples.one_job_world) = Ret tt /\
  queued_jobs (snd (Processor.worker_iteration default_settings
                      Samples.crashing_run Samples.broken_target
                      Samples.one_job_world)) = [].
Proof.
  apply (worker_turn_always_completes default_settings Samples.crashing_run
           Samples.broken_target Samples.one_job_world (Samples.job_of "r1") []).
  vm_compute. reflexivity.
Defined.

End NeverBlocks.

(** ** A worker turn, in full *)

Module WorkerRunsFacts.
Import Callback CallbackTrace CallbackRuns WorkerRuns CallbackFacts CallbackRunsFacts.

Lemma posted_expected (s : Settings) (callback_url : string)
    (body : CallbackPayload.t) (total : nat) :
  forall n a,
    posted (expected_backoff_trace s callback_url body total a n)
    = map (fun i => (callback_url, body, Z.of_nat i)) (seq a n).
Proof.
  unfold expected_backoff_trace, posted.
  induction n as [|n IH]; intros a; [done|].
  cbn [seq flat_map map]. rewrite <- (IH (S a)).
  destruct (S a <? total)%nat; reflexivity.
Qed.

Lemma posted_status (x : string) (st : Status) (l : list Event) :
  posted (EvStatus x st :: l) = posted l.
Proof. reflexivity. Qed.

Lemma posted_work (p : WorkPayload) (l : list Event) :
  posted (EvWork p :: l) = posted l.
Proof. reflexivity. Qed.

Lemma posted_sleep (seconds : Z) (l : list Event) :
  posted (EvSleep seconds :: l) = posted l.
Proof. reflexivity. Qed.

Lemma posted_app (l1 l2 : list Event) :
  posted (l1 ++ l2) = posted l1 ++ posted l2.
Proof. apply omap_app. Qed.

Lemma status_history_expected (s : Settings) (callback_url : string)
    (body : CallbackPayload.t) (total : nat) (x : string) :
  forall n a,
    status_history x (expected_backoff_trace s callback_url body total a n) = [].
Proof.
  unfold expected_backoff_trace.
  induction n as [|n IH]; intros a; [done|].
  cbn [seq flat_map]. destruct (S a <? total)%nat; simpl; apply IH.
Qed.

Lemma deliver_callback_run (s : Settings) (callback_url : string)
    (body : CallbackPayload.t) (request_id : string) (target : Target)
    (w : World) :
  1 <= max_callback_retries s ->
  let n := attempts_made target 0 (Z.to_nat (max_callback_retries s)) in
  deliver_callback s callback_url body request_id target w
  = (Ret (delivery_result s target),
     set_events (events w ++ expected_backoff_trace s callback_url body n 0 n) w).
Proof.
  intros HR n. unfold delivery_result.
  destruct (deliver_attempts_trace s callback_url body target
              (Z.to_nat (max_callback_retries s)) 0 None w eq_refl)
    as (o & Hrun & Hok).
  cbn [Nat.add] in Hrun. fold n in Hrun.
  unfold deliver_callback. rewrite Hrun. f_equal.
  pose proof (first_success_attempts target
                (Z.to_nat (max_callback_retries s)) 0) as Hfirst.
  destruct (first_success target 0 (Z.to_nat (max_callback_retries s))) as [k|].
  - apply Hok. eauto.
  - destruct Hfirst as (Hall & _).
    pose proof (deliver_callback_all_fail s callback_url body request_id target
                  w HR) as Hfail.
    unfold deliver_callback in Hfail. rewrite Hrun in Hfail.
    apply Hfail. intros i Hi. apply Hall. lia.
Qed.

Ltac deliver_run HR :=
  match goal with
  | |- context [Callback.deliver_callback ?s ?u ?b ?i ?t
                  (Build_World ?a1 ?a2 ?a3 ?a4 ?a5 ?a6)] =>
      rewrite (deliver_callback_run s u b i t
                 (Build_World a1 a2 a3 a4 a5 a6) HR)
  end.

(** What a turn of the loop leaves, in full, when a job is waiting, its
    row exists and the delivery has at least one attempt to make. *)
Lemma worker_iteration_settles (s : Settings) (run : WorkRun) (target : Target)
    (w : World) (job : Job.t) (rest : list Job.t) (r : Request.t) :
  1 <= max_callback_retries s ->
  queued_jobs w = job :: rest ->
  db w !! Job.request_id job = Some r ->
  let w' := snd (Processor.worker_iteration s run target w) in
  let v := verdict s run in
  let clock i := time_source w (time_reads w + i)%nat in
  let body :=
    outcome_payload s job v (clock 0%nat) (clock 1%nat)
      (match v with Succeeded _ => clock 3%nat | _ => clock 2%nat end) in
  exists L,
    db w' = <[Job.request_id job :=
                settled_row s v (fst (delivery_result s target))
                  (snd (delivery_result s target)) (clock 0%nat)
                  (match v with Succeeded _ => clock 2%nat | _ => clock 1%nat end)
                  r]> (db w) /\
    events w' = events w ++ L /\
    status_history (Job.request_id job) L = [processing; verdict_status v] /\
    posted L
    = map (fun i => (Job.callback_url job, body, Z.of_nat i))
        (seq 0 (attempts_made target 0 (Z.to_nat (max_callback_retries s)))).
Proof.
  intros HR Hq Hr. destruct w as [d [[q ms un] te tp] sem clk n evs].
  unfold queued_jobs in Hq. cbn in Hq. subst q. cbn [db] in Hr.
  cbn zeta. unfold verdict, outcome_payload. cbn [time_source time_reads].
  rewrite ?Nat.add_0_r, ?Nat.add_1_r.
  replace (n + 2)%nat with (S (S n)) by lia.
  replace (n + 3)%nat with (S (S (S n))) by lia.
  exec. rewrite Hr. exec.
  set (qm := QueueManager.Build_t (Asyncio.Build_Queue _ rest ms un) te tp).
  destruct (wait_for_gives_up (work_timeout_seconds s) run);
    [|destruct (run_result run) as [msg|result]]; exec; deliver_run HR; exec;
    [| |destruct (delivery_result s target) as [[] e]; exec];
    (destruct (Exec.task_done_cases qm) as (o & qm' & -> & Hb & Hqq);
     destruct o as [[]|?|]; [| |done]; exec;
     (eexists; split; [reflexivity|];
      split; [rewrite <- ?app_assoc; reflexivity|];
      cbn [app]; split;
      [ cbn [status_history]; rewrite !decide_True by done;
        rewrite ?Exec.status_history_app, status_history_expected; reflexivity
      | rewrite posted_status, posted_work, posted_status, ?posted_app,
          posted_expected;
        cbn [posted omap]; rewrite ?app_nil_r; reflexivity ])).
Qed.

Lemma posts_of_posted (l : list Event) :
  posts_of l = (fun x => snd x) <$> posted l.
Proof.
  induction l as [|[| |url body i|] l IH]; simpl; try done.
  unfold posts_of, posted in *. simpl. by rewrite IH.
Qed.

(** X12. When one of the allowed delivery attempts succeeds (the first
    such being attempt [k]), a worker turn on a job whose row exists
    leaves the row with the status and the error of the execution alone:
    the attempt counter keeps its value, [last_error] is the execution
    error ([None] after a success), the failed attempts before [k] leave
    no mark, and the turn made exactly the posts [0 .. k]. *)
Theorem delivered_callback_not_counted (s : Settings) (run : WorkRun)
    (target : Target) (w : World) (job : Job.t) (rest : list Job.t)
    (r : Request.t) (k : nat) :
  queued_jobs w = job :: rest ->
  db w !! Job.request_id job = Some r ->
  first_success target 0 (Z.to_nat (max_callback_retries s)) = Some k ->
  let w' := snd (Processor.worker_iteration s run target w) in
  exists r' L,
    db w' !! Job.request_id job = Some r' /\
    Request.status r' = verdict_status (verdict s run) /\
    Request.attempts r' = Request.attempts r /\
    Request.last_error r' = verdict_error s (verdict s run) /\
    events w' = events w ++ L /\
    posts_of L = map Z.of_nat (seq 0 (S k)).
Proof.
  intros Hq Hr Hk.
  pose proof (first_success_attempts target
                (Z.to_nat (max_callback_retries s)) 0) as Hfirst.
  rewrite Hk in Hfirst. destruct Hfirst as (Hlt & _ & _ & Hcount).
  cbn [Nat.add] in Hcount.
  destruct (worker_iteration_settles s run target w job rest r ltac:(lia) Hq Hr)
    as (L & Hdb & Hev & _ & Hposts).
  unfold delivery_result in Hdb. rewrite Hk in Hdb. cbn [fst snd] in Hdb.
  cbn zeta. rewrite Hdb, lookup_insert_eq. eexists _, L.
  split; [reflexivity|].
  split; [by destruct (verdict s run)|].
  split; [by destruct (verdict s run)|].
  split; [by destruct (verdict s run)|].
  split; [exact Hev|].
  rewrite posts_of_posted, Hposts, Hcount, <- list_fmap_compose.
  reflexivity.
Qed.

Lemma delivered_callback_not_counted_witness :
  exists r' L,
    db (snd (Processor.worker_iteration default_settings Samples.quick_run
               MoreSamples.flaky_target Samples.one_job_world)) !! "r1" = Some r' /\
    Request.status r' = done /\
    Request.attempts r' = 0 /\
    Request.last_error r' = None /\
    events (snd (Processor.worker_iteration default_settings Samples.quick_run
                   MoreSamples.flaky_target Samples.one_job_world))
    = events Samples.one_job_world ++ L /\
    posts_of L = [0; 1].
Proof.
  apply (delivered_callback_not_counted default_settings Samples.quick_run
           MoreSamples.flaky_target Samples.one_job_world (Samples.job_of "r1") []
           Samples.r1_row 1).
  - vm_compute. reflexivity.
  - vm_compute. reflexivity.
  - vm_compute. reflexivity.
Defined.

(** X13. With at least one delivery attempt allowed, a worker turn on a
    job whose row exists posts between one and [max_callback_retries]
    times, always to the job's [callback_url] and always the same body;
    that body names the job's request, carries the status the row ends
    with, the execution error ([None] after a success) and the result the
    row stores; its [execution_time_ms] is measured from the stored
    [started_at] after a success, is [work_timeout_seconds * 1000] after a
    timeout and [0] after any other failure. *)
Theorem callback_payload_reports_outcome (s : Settings) (run : WorkRun)
    (target : Target) (w : World) (job : Job.t) (rest : list Job.t)
    (r : Request.t) :
  1 <= max_callback_retries s ->
  queued_jobs w = job :: rest ->
  db w !! Job.request_id job = Some r ->
  let w' := snd (Processor.worker_iteration s run target w) in
  exists (body : CallbackPayload.t) (r' : Request.t) (L : list Event) (n : nat),
    events w' = events w ++ L /\
    posted L
    = map (fun i => (Job.callback_url job, body, Z.of_nat i)) (seq 0 n) /\
    (1 <= n <= Z.to_nat (max_callback_retries s))%nat /\
    db w' !! Job.request_id job = Some r' /\
    CallbackPayload.request_id body = Job.request_id job /\
    CallbackPayload.status body = Request.status r' /\
    CallbackPayload.error body = verdict_error s (verdict s run) /\
    Request.result r' = Repository.result_column (CallbackPayload.result body) /\
    match verdict s run with
    | Succeeded d =>
        CallbackPayload.result body = Some d /\
        exists measured,
          Request.started_at r' = Some (time_source w (time_reads w)) /\
          CallbackPayload.execution_time_ms body
          = ((measured - time_source w (time_reads w)) * 1000)%Q
    | TimedOut =>
        CallbackPayload.execution_time_ms body
        = inject_Z (work_timeout_seconds s * 1000)
    | Crashed _ => CallbackPayload.execution_time_ms body = 0%Q
    end.
Proof.
  intros HR Hq Hr.
  destruct (worker_iteration_settles s run target w job rest r HR Hq Hr)
    as (L & Hdb & Hev & _ & Hposts).
  cbn zeta. rewrite Hdb, lookup_insert_eq.
  eexists _, _, L, _. split; [exact Hev|]. split; [exact Hposts|].
  split.
  { destruct (attempts_made_bounds target
                (Z.to_nat (max_callback_retries s)) 0) as [Hle Hzero]. lia. }
  split; [reflexivity|]. rewrite Nat.add_0_r.
  destruct (verdict s run) as [d| |msg]; cbn.
  - destruct (delivery_result s target) as [[] e]; cbn; repeat split; eauto.
  - repeat split; eauto.
  - repeat split; eauto.
Qed.

Lemma callback_payload_reports_outcome_witness :
  exists (body : CallbackPayload.t) (r' : Request.t) (L : list Event) (n : nat),
    events (snd (Processor.worker_iteration default_settings
                   Samples.crashing_run Samples.broken_target
                   Samples.one_job_world))
    = events Samples.one_job_world ++ L /\
    posted L
    = map (fun i => ("https://client.example/hook", body, Z.of_nat i)) (seq 0 n) /\
    (1 <= n <= 3)%nat /\
    CallbackPayload.status body = failed /\
    CallbackPayload.error body
    = Some "Work execution error: Unknown operation: sort" /\
    CallbackPayload.execution_time_ms body = 0%Q.
Proof.
  destruct (callback_payload_reports_outcome default_settings
              Samples.crashing_run Samples.broken_target Samples.one_job_world
              (Samples.job_of "r1") [] Samples.r1_row)
    as (body & r' & L & n & Hev & Hposts & Hn & Hrow & _ & Hst & Herr & _ & Hms).
  - vm_compute. discriminate.
  - vm_compute. reflexivity.
  - vm_compute. reflexivity.
  - exists body, r', L, n. split; [exact Hev|]. split; [exact Hposts|].
    split; [exact Hn|]. split; [|split; [exact Herr|exact Hms]].
    rewrite Hst. vm_compute in Hrow. injection Hrow as <-. reflexivity.
Defined.

End WorkerRunsFacts.

(** ** The queue counters across the process *)

Module QueueCountersFacts.
Import Exec NeverBlocks.

#[local] Instance same_queue_manager_refl : Reflexive same_queue_manager.
Proof. by intros w. Qed.

#[local] Instance same_queue_manager_trans : Transitive same_queue_manager.
Proof. intros w1 w2 w3 H1 H2. unfold same_queue_manager in *. congruence. Qed.

Lemma kq_time_time : preserves same_queue_manager time_time.
Proof. by intros w. Qed.

Lemma kq_emit (e : Event) : preserves same_queue_manager (emit e).
Proof. by intros w. Qed.

Lemma kq_update_row (request_id : string) (f : Request.t -> Request.t) :
  preserves same_queue_manager (Repository.update_row request_id f).
Proof. intros w. unfold Repository.update_row. by destruct (db w !! _). Qed.

Lemma kq_update_request_status (request_id : string) (status : Status)
    (started_at completed_at : option Q) :
  preserves same_queue_manager (Repository.update_request_status request_id status started_at
                 completed_at).
Proof.
  intros w. unfold Repository.update_request_status.
  destruct (db w !! request_id); [|done].
  apply (preserves_bind same_queue_manager);
    [apply kq_update_row|intros _; apply kq_emit].
Qed.

Lemma kq_create_request (request_id : string) (mode : Mode)
    (payload : WorkPayload) (callback_url : option string) (client_ip : string) :
  preserves same_queue_manager (Repository.create_request request_id mode payload callback_url
                 client_ip).
Proof.
  intros w. unfold Repository.create_request, bind, time_time. cbn.
  by destruct (db w !! request_id).
Qed.

Lemma kq_get_request (request_id : string) :
  preserves same_queue_manager (Repository.get_request request_id).
Proof. by intros w. Qed.

Lemma kq_started_at_of (req : option Request.t) :
  preserves same_queue_manager (Processor.started_at_of req).
Proof.
  intros w. unfold Processor.started_at_of.
  destruct req as [r|]; [destruct (Request.started_at r)|]; done.
Qed.

Lemma kq_wait_for_do_work (payload : WorkPayload) (run : WorkRun) (timeout : Z) :
  preserves same_queue_manager (wait_for_do_work payload run timeout).
Proof.
  intros w. unfold wait_for_do_work, bind, emit. cbn.
  destruct (wait_for_gives_up _ _); [done|]. by destruct (run_result run).
Qed.

Lemma kq_deliver_callback (s : Settings) (callback_url : string)
    (body : CallbackPayload.t) (rid : string) (target : Callback.Target) :
  preserves same_queue_manager (Callback.deliver_callback s callback_url body rid target).
Proof.
  intros w.
  destruct (CallbackFacts.deliver_callback_effect s callback_url body rid
              target w) as (o & trace & -> & _). done.
Qed.

Lemma kq_on_semaphore {A} (m : M Asyncio.Semaphore A) :
  preserves same_queue_manager (on_semaphore m).
Proof.
  intros w. unfold on_semaphore, lift. by destruct (m (sync_semaphore w)).
Qed.

Ltac kq_steps :=
  repeat first
    [ apply kq_time_time | apply kq_emit | apply kq_update_row
    | apply kq_update_request_status | apply kq_create_request
    | apply kq_get_request | apply kq_started_at_of
    | apply kq_wait_for_do_work | apply kq_deliver_callback
    | apply kq_on_semaphore
    | apply (preserves_ret same_queue_manager)
    | apply (preserves_raise same_queue_manager)
    | apply (preserves_bind same_queue_manager); [|intros ?] ].

Lemma kq_job_body (s : Settings) (job : Job.t) (run : WorkRun)
    (target : Callback.Target) :
  preserves same_queue_manager (try_except (Processor.on_success s job run target)
                 (Processor.handler s job target)).
Proof.
  apply (preserves_try_except same_queue_manager).
  - unfold Processor.on_success. kq_steps.
    match goal with
    | r : (bool * option string)%type |- _ => destruct r as [[] e]
    end; kq_steps.
  - intros e. unfold Processor.handler, Processor.on_failure.
    destruct e; kq_steps.
Qed.

Lemma nb_job_body (s : Settings) (job : Job.t) (run : WorkRun)
    (target : Callback.Target) :
  never_blocks (try_except (Processor.on_success s job run target)
                  (Processor.handler s job target)).
Proof.
  apply nb_try_except; [apply nb_on_success|].
  intros e. unfold Processor.handler. destruct e; apply nb_on_failure.
Qed.

Lemma update_request_status_returns (request_id : string) (status : Status)
    (started_at completed_at : option Q) (w : World) :
  fst (Repository.update_request_status request_id status started_at
         completed_at w) = Ret tt.
Proof.
  unfold Repository.update_request_status.
  destruct (db w !! request_id) eqn:Hr; [|done].
  unfold Repository.update_row, bind. by rewrite Hr.
Qed.

(** Whatever happens to the job, the [finally] clause runs [task_done]
    once on the queue manager as the dequeue left it. *)
Lemma process_job_queue_manager (s : Settings) (job : Job.t) (run : WorkRun)
    (target : Callback.Target) (w : World) :
  queue_manager (snd (Processor.process_job s job run target w))
  = snd (QueueManager.task_done (queue_manager w)).
Proof.
  unfold Processor.process_job, bind at 1, time_time at 1. cbn [fst snd].
  set (w1 := Build_World _ _ _ _ _ _).
  change (queue_manager w) with (queue_manager w1). generalize w1. clear w1.
  intros w1. unfold bind.
  pose proof (kq_update_request_status (Job.request_id job) processing
                (Some (time_source w (time_reads w))) None w1) as H1.
  pose proof (update_request_status_returns (Job.request_id job) processing
                (Some (time_source w (time_reads w))) None w1) as N1.
  destruct (Repository.update_request_status _ _ _ _ w1) as [[[]|e|] w2];
    cbn [fst snd] in *; [|done..].
  unfold same_queue_manager in H1. rewrite <- H1.
  unfold try_finally.
  pose proof (kq_job_body s job run target w2) as H2.
  pose proof (nb_job_body s job run target w2) as N2.
  destruct (try_except _ _ w2) as [[[]|e|] w3]; cbn [fst snd] in *; [| |done];
    unfold same_queue_manager in H2; rewrite <- H2;
    unfold on_queue_manager, lift;
    destruct (QueueManager.task_done (queue_manager w3)) as [[[]|e'|] qm'];
    reflexivity.
Qed.

Lemma kq_sync_endpoint (s : Settings) (request_id client_ip : string)
    (payload : WorkPayload) (run : WorkRun) :
  preserves same_queue_manager
    (SyncEndpoint.sync_endpoint s request_id client_ip payload run).
Proof.
  intros w. unfold SyncEndpoint.sync_endpoint.
  destruct (_ && _); [done|].
  revert w. unfold SyncEndpoint.with_semaphore.
  apply (preserves_bind same_queue_manager); [apply kq_on_semaphore|intros _].
  apply (preserves_try_finally same_queue_manager); [|apply kq_on_semaphore].
  kq_steps. unfold SyncEndpoint.execute.
  apply (preserves_try_except same_queue_manager); [kq_steps|].
  intros e. destruct e; kq_steps.
Qed.

Lemma async_endpoint_queue_manager (validation : option string)
    (request_id client_ip : string) (payload : WorkPayload)
    (callback_url : string) (w : World) :
  let w' := snd (AsyncEndpoint.async_endpoint validation request_id client_ip
                   payload callback_url w) in
  queue_manager w' = queue_manager w \/
  queue_manager w'
  = snd (QueueManager.enqueue
           {| Job.request_id := request_id; Job.payload := payload;
              Job.callback_url := callback_url |} (queue_manager w)).
Proof.
  destruct w as [d qm sem clk n evs]. unfold AsyncEndpoint.async_endpoint.
  destruct validation as [error|]; [by left|].
  exec. destruct (d !! request_id); [by left|]. right. exec.
  destruct (QueueManager.enqueue _ qm) as [[[]|e|] qm']; reflexivity.
Qed.

Lemma settled_init (s : Settings) : settled_queue s (QueueManager.init s).
Proof.
  split; cbn; try done. unfold QueueManager.get_size, Asyncio.qsize. cbn. lia.
Qed.

Lemma settled_enqueue (s : Settings) (job : Job.t) (qm : QueueManager.t) :
  settled_queue s qm -> settled_queue s (snd (QueueManager.enqueue job qm)).
Proof.
  intros [Hun Hcount Hmax Hbound Hproc].
  destruct (Asyncio.full (QueueManager.queue qm)) eqn:Hfull.
  - rewrite (QueueManagerFacts.enqueue_full _ _ Hfull). by split.
  - rewrite (QueueManagerFacts.enqueue_not_full _ _ Hfull).
    unfold QueueManager.get_size, Asyncio.qsize in *.
    split; unfold QueueManager.get_size, Asyncio.qsize; cbn;
      rewrite ?length_app; cbn; try lia.
    intros Hpos. unfold Asyncio.full, Asyncio.qsize in Hfull.
    rewrite Hmax in Hfull.
    destruct (max_queue_size s <=? 0) eqn:E; lia.
Qed.

Lemma settled_worker_turn (s : Settings) (run : WorkRun)
    (target : Callback.Target) (w : World) :
  settled_queue s (queue_manager w) ->
  settled_queue s
    (queue_manager (snd (Processor.worker_iteration s run target w))).
Proof.
  intros Hs. destruct (queued_jobs w) as [|job rest] eqn:Hq.
  - by rewrite (ProcessorFacts.worker_iteration_idle s run target w Hq).
  - destruct w as [d [[q ms un] te tp] sem clk n evs].
    unfold queued_jobs in Hq. cbn in Hq. subst q.
    destruct Hs as [Hun Hcount Hmax Hbound Hproc].
    unfold QueueManager.get_size, Asyncio.qsize in *. cbn in *.
    unfold Processor.worker_iteration, try_except, bind at 1,
      on_queue_manager at 1, lift, QueueManager.dequeue, lift, Asyncio.get.
    cbn [queue_manager QueueManager.queue Asyncio._queue fst snd
         set_queue_manager QueueManager.set_queue].
    match goal with
    | |- context [Processor.process_job s job run target ?w1] =>
        pose proof (process_job_queue_manager s job run target w1) as Hqm;
        destruct (Processor.process_job s job run target w1) as [[[]|e|] w2]
    end; cbn [fst snd queue_manager] in *;
      [| change (queue_manager (snd (asyncio_sleep 1 w2)))
           with (queue_manager w2) |];
      rewrite Hqm; unfold QueueManager.task_done, bind, lift, Asyncio.task_done,
        QueueManager.incr_total_processed; cbn;
      (destruct (un <=? 0) eqn:E; [lia|]);
      cbn; split; unfold QueueManager.get_size, Asyncio.qsize; cbn; try lia.
Qed.

Lemma settled_step (s : Settings) (w : World) (a : Action) :
  settled_queue s (queue_manager w) -> settled_queue s (queue_manager (step s w a)).
Proof.
  intros Hs. destruct a as [rid ip payload run|validation rid ip payload url
                            |run target]; cbn [step].
  - by rewrite (kq_sync_endpoint s rid ip payload run w).
  - destruct (async_endpoint_queue_manager validation rid ip payload url w)
      as [->| ->]; [done|by apply settled_enqueue].
  - by apply settled_worker_turn.
Qed.

(** X14. In any run of sync requests, async submissions and worker
    turns from start-up, whenever no worker is in the middle of a job the
    queue counters balance: [total_enqueued = total_processed +
    current_size], and the queue's own count of unfinished tasks equals
    its size. Every job a worker takes is counted as processed exactly
    once, however its execution and delivery end ([task_done] sits in the
    [finally] clause and never finds the count exhausted). *)
Theorem queue_counters_balance (s : Settings) (clock : nat -> Q)
    (acts : list Action) :
  let w := run_actions s acts (init_world s clock) in
  let m := QueueManager.get_metrics s (queue_manager w) in
  QueueManager.m_total_enqueued m
  = QueueManager.m_total_processed m + QueueManager.m_current_size m /\
  0 <= QueueManager.m_total_processed m /\
  Asyncio._unfinished_tasks (QueueManager.queue (queue_manager w))
  = QueueManager.m_current_size m.
Proof.
  assert (forall w, settled_queue s (queue_manager w) ->
                    settled_queue s (queue_manager (run_actions s acts w))) as H.
  { unfold run_actions. induction acts as [|a acts IH]; intros w Hw; [done|].
    cbn. apply IH. by apply settled_step. }
  destruct (H (init_world s clock) (settled_init s))
    as [Hun Hcount Hmax Hbound Hproc].
  cbn. auto.
Qed.

End QueueCountersFacts.

(** ** Sync endpoint: permits and polling *)

Module SyncEndpointMore.
Import SyncEndpoint.

(** What an admitted sync request with a fresh identifier answers. *)
Lemma sync_endpoint_answer (s : Settings) (request_id client_ip : string)
    (payload : WorkPayload) (run : WorkRun) (w : World) :
  Asyncio.locked (sync_semaphore w) = false ->
  db w !! request_id = None ->
  exists (t0 t1 t2 ms : Q),
    let v := verdict s run in
    let w' := snd (sync_endpoint s request_id client_ip payload run w) in
    fst (sync_endpoint s request_id client_ip payload run w)
    = Ret (respond request_id (verdict_status v)
             (match v with Succeeded d => Some d | _ => None end)
             (verdict_error s v) ms) /\
    db w' = <[request_id :=
                settled_row s v true None t1 t2
                  (Repository.new_row request_id sync payload None t0
                     client_ip)]> (db w).
Proof.
  intros Hfree Hrow. destruct w as [d qm sem clk n evs].
  cbn [db sync_semaphore] in *.
  unfold sync_endpoint, verdict. cbn [sync_semaphore].
  rewrite Hfree. cbn [andb]. exec. rewrite Hfree. exec. rewrite Hrow. exec.
  destruct (wait_for_gives_up (work_timeout_seconds s) run);
    [|destruct (run_result run) as [msg|result]]; exec;
    eexists (clk n), (clk (S n)), _, _; split; reflexivity.
Qed.

(** X15. However a sync request ends (rejected with 503, failed on the
    insert, answered [done] or [failed]), it leaves the semaphore with the
    number of permits it found and the queue manager untouched: the permit
    it takes is always given back. It suspends only when the semaphore is
    locked by waiters while a permit is free. *)
Theorem sync_endpoint_returns_permit (s : Settings)
    (request_id client_ip : string) (payload : WorkPayload) (run : WorkRun)
    (w : World) :
  let out := sync_endpoint s request_id client_ip payload run w in
  Asyncio._value (sync_semaphore (snd out)) = Asyncio._value (sync_semaphore w) /\
  Asyncio._waiters (sync_semaphore (snd out))
  = Asyncio._waiters (sync_semaphore w) /\
  queue_manager (snd out) = queue_manager w /\
  (fst out = Block <->
   Asyncio.locked (sync_semaphore w) = true /\
   Asyncio._value (sync_semaphore w) <> 0).
Proof.
  cbn zeta. destruct w as [d qm [v k] clk n evs].
  unfold sync_endpoint. cbn [sync_semaphore Asyncio._value].
  destruct (Asyncio.locked _) eqn:Hlocked; cbn [andb].
  - destruct (Z.eqb_spec v 0) as [->|Hv].
    + cbn. repeat split; try done. by intros [_ ?].
    + exec. rewrite Hlocked. cbn. repeat split; done.
  - exec. rewrite Hlocked. exec.
    destruct (d !! request_id) eqn:Hrow; exec;
      [|destruct (wait_for_gives_up (work_timeout_seconds s) run);
        [|destruct (run_result run) as [msg|result]]; exec];
      (split; [lia|]); (split; [done|]); (split; [done|]);
      (split; [done|by intros [? _]]).
Qed.

(** X16. What an admitted sync request answers is what
    [GET /requests/{request_id}] shows afterwards: polling the identifier
    of the response returns a record of mode [sync] with the same status
    and error, the result as stored (an empty result is stored as NULL),
    no delivery attempts and a completion time; the poll changes
    nothing. *)
Theorem sync_response_matches_poll (s : Settings)
    (request_id client_ip : string) (payload : WorkPayload) (run : WorkRun)
    (w : World) :
  Asyncio.locked (sync_semaphore w) = false ->
  db w !! request_id = None ->
  let out := sync_endpoint s request_id client_ip payload run w in
  exists (resp : SyncResponse.t) (st : RequestStatus.t),
    fst out = Ret resp /\
    Queries.get_request (SyncResponse.request_id resp) (snd out)
    = (Ret st, snd out) /\
    RequestStatus.request_id st = SyncResponse.request_id resp /\
    RequestStatus.mode st = sync /\
    RequestStatus.status st = SyncResponse.status resp /\
    RequestStatus.last_error st = SyncResponse.error resp /\
    RequestStatus.result st
    = Repository.result_column (SyncResponse.result resp) /\
    RequestStatus.attempts st = 0 /\
    is_Some (RequestStatus.completed_at st).
Proof.
  intros Hfree Hrow.
  destruct (sync_endpoint_answer s request_id client_ip payload run w Hfree Hrow)
    as (t0 & t1 & t2 & ms & Hret & Hdb).
  cbn zeta in *. rewrite Hret. eexists _, _. split; [reflexivity|].
  unfold Queries.get_request, Repository.get_request, bind. cbn [fst snd].
  cbn [respond SyncResponse.request_id]. rewrite Hdb, lookup_insert_eq.
  split; [reflexivity|].
  destruct (verdict s run) as [result| |msg]; cbn; repeat split; eauto.
Qed.

Lemma sync_response_matches_poll_witness :
  exists (resp : SyncResponse.t) (st : RequestStatus.t),
    fst (sync_endpoint default_settings "r2" "198.51.100.4"
           Samples.hash_payload Samples.quick_run Samples.one_job_world)
    = Ret resp /\
    RequestStatus.status st = SyncResponse.status resp /\
    RequestStatus.status st = done.
Proof.
  destruct (sync_response_matches_poll default_settings "r2" "198.51.100.4"
              Samples.hash_payload Samples.quick_run Samples.one_job_world)
    as (resp & st & Hret & _ & _ & _ & Hst & _).
  - vm_compute. reflexivity.
  - vm_compute. reflexivity.
  - exists resp, st. split; [exact Hret|]. split; [exact Hst|].
    rewrite Hst. vm_compute in Hret. injection Hret as <-. reflexivity.
Defined.

End SyncEndpointMore.

(** ** Submit, process, poll *)

Module RoundTripFacts.
Import Callback CallbackRuns WorkerRuns.

(** X17. Submit, process, poll. With an empty queue, a fresh identifier,
    an accepted callback URL and at least one delivery attempt allowed, an
    async submission followed by one worker turn leaves a record that
    [GET /requests/{request_id}] shows with mode [async], the submitted
    payload, the status and the result of the execution and a completion
    time. [attempts] is 1, with the delivery error in [last_error],
    exactly when the execution succeeded and no delivery attempt did;
    otherwise [attempts] is 0 and [last_error] is the execution error. *)
Theorem submitted_job_polls_to_outcome (s : Settings)
    (request_id client_ip : string) (payload : WorkPayload)
    (callback_url : string) (run : WorkRun) (target : Target) (w : World) :
  1 <= max_callback_retries s ->
  db w !! request_id = None ->
  queued_jobs w = [] ->
  let w1 := snd (AsyncEndpoint.async_endpoint None request_id client_ip payload
                   callback_url w) in
  let w2 := snd (Processor.worker_iteration s run target w1) in
  let v := verdict s run in
  exists st : RequestStatus.t,
    Queries.get_request request_id w2 = (Ret st, w2) /\
    RequestStatus.request_id st = request_id /\
    RequestStatus.mode st = async /\
    RequestStatus.payload st = payload /\
    RequestStatus.status st = verdict_status v /\
    RequestStatus.result st
    = match v with
      | Succeeded d => Repository.result_column (Some d)
      | _ => None
      end /\
    is_Some (RequestStatus.completed_at st) /\
    match v, delivery_result s target with
    | Succeeded _, (false, delivery_error) =>
        RequestStatus.attempts st = 1 /\
        RequestStatus.last_error st = delivery_error
    | _, _ =>
        RequestStatus.attempts st = 0 /\
        RequestStatus.last_error st = verdict_error s v
    end.
Proof.
  intros HR Hfresh Hempty. cbn zeta.
  set (job := {| Job.request_id := request_id; Job.payload := payload;
                 Job.callback_url := callback_url |}).
  destruct (AsyncEndpointFacts.async_endpoint_cases None request_id client_ip
              payload callback_url w)
    as [Hsame|(_ & t0 & Hdb & _ & Hcase)].
  { exfalso. clear -Hsame Hfresh Hempty. cbn zeta in Hsame.
    destruct Hsame as (Hdb & _).
    destruct w as [d qm sem clk n evs]. cbn [db] in *.
    unfold AsyncEndpoint.async_endpoint in Hdb. revert Hdb.
    exec. rewrite Hfresh. exec.
    destruct (QueueManager.enqueue _ qm) as [[[]|e|] qm']; exec;
      intros Hdb; apply (f_equal (fun m => m !! request_id)) in Hdb;
      rewrite lookup_insert_eq, Hfresh in Hdb; discriminate. }
  cbn zeta in Hdb, Hcase.
  assert (queued_jobs (snd (AsyncEndpoint.async_endpoint None request_id
                              client_ip payload callback_url w)) = [job])
    as Hq.
  { destruct Hcase as [[Hq _]|[_ Hfull]]; [by rewrite Hq, Hempty|].
    exfalso. clear -Hfull Hfresh Hempty.
    destruct w as [d [[q ms un] te tp] sem clk n evs].
    unfold queued_jobs in Hempty. cbn in Hempty, Hfresh. subst q.
    revert Hfull. unfold AsyncEndpoint.async_endpoint. exec.
    rewrite Hfresh. exec.
    rewrite QueueManagerFacts.enqueue_not_full.
    - exec. discriminate.
    - unfold Asyncio.full, Asyncio.qsize. cbn.
      by destruct (ms <=? 0) eqn:E. }
  destruct (WorkerRunsFacts.worker_iteration_settles s run target _ job []
              (Repository.new_row request_id async payload (Some callback_url)
                 t0 client_ip) HR Hq)
    as (L & Hdb2 & _).
  { by rewrite Hdb, lookup_insert_eq. }
  unfold Queries.get_request, Repository.get_request, bind. cbn [fst snd].
  change (Job.request_id job) with request_id in Hdb2.
  rewrite Hdb2, lookup_insert_eq. eexists. split; [reflexivity|].
  destruct (verdict s run) as [d| |msg]; cbn;
    [destruct (delivery_result s target) as [[] e]; cbn|
     destruct (delivery_result s target) as [[] e]|
     destruct (delivery_result s target) as [[] e]];
    repeat split; eauto.
Qed.

Lemma submitted_job_polls_to_outcome_witness :
  exists st : RequestStatus.t,
    Queries.get_request "r1"
      (snd (Processor.worker_iteration default_settings Samples.quick_run
              Samples.broken_target Samples.one_job_world))
    = (Ret st,
       snd (Processor.worker_iteration default_settings Samples.quick_run
              Samples.broken_target Samples.one_job_world)) /\
    RequestStatus.status st = done /\
    RequestStatus.attempts st = 1.
Proof.
  destruct (submitted_job_polls_to_outcome default_settings "r1" "198.51.100.4"
              Samples.hash_payload "https://client.example/hook"
              Samples.quick_run Samples.broken_target
              (init_world default_settings Samples.ticking_clock))
    as (st & Hpoll & _ & _ & _ & Hst & _ & _ & Hatt).
  - vm_compute. discriminate.
  - reflexivity.
  - reflexivity.
  - exists st. split; [exact Hpoll|]. split; [exact Hst|]. apply Hatt.
Defined.

End RoundTripFacts.

(** ** Queued jobs and their rows *)

Module QueueBackedFacts.

Lemma queue_backed_init (s : Settings) (clock : nat -> Q) :
  queue_backed (init_world s clock).
Proof.
  split.
  - intros job Hjob. by apply elem_of_nil in Hjob.
  - constructor.
Qed.

Lemma queue_backed_same (w w' : World) :
  queue_backed w ->
  db w' = db w -> queued_jobs w' = queued_jobs w -> queue_backed w'.
Proof.
  intros [H1 H2] Hdb Hq. split; unfold queued_ids in *; rewrite ?Hdb, ?Hq; done.
Qed.

Lemma queued_id_has_row (w : World) (x : string) :
  queue_backed w -> x ∈ queued_ids w -> is_Some (db w !! x).
Proof.
  intros [H1 _] Hx. unfold queued_ids in Hx.
  apply list_elem_of_fmap in Hx as (job & -> & Hjob).
  destruct (H1 job Hjob) as (r & -> & _). eauto.
Qed.

Lemma queue_backed_sync (s : Settings) (request_id client_ip : string)
    (payload : WorkPayload) (run : WorkRun) (w : World) :
  queue_backed w ->
  queue_backed (snd (SyncEndpoint.sync_endpoint s request_id client_ip payload
                       run w)).
Proof.
  intros Hw.
  destruct (SyncEndpointFacts.sync_endpoint_cases s request_id client_ip
              payload run w) as [(Hdb & _ & Hq)|[Hfree Hrow]].
  { by apply (queue_backed_same w). }
  destruct (SyncEndpointFacts.sync_endpoint_fresh s request_id client_ip
              payload run w Hfree Hrow)
    as (t0 & t1 & t2 & resp & _ & _ & _ & Hdb & _ & Hq).
  destruct Hw as [H1 H2]. split.
  - rewrite Hq. intros job Hjob. destruct (H1 job Hjob) as (r & Hr & Hadm).
    exists r. split; [|done]. rewrite Hdb, lookup_insert_ne; [done|].
    intros ->. congruence.
  - unfold queued_ids. by rewrite Hq.
Qed.

Lemma queue_backed_async (validation : option string)
    (request_id client_ip : string) (payload : WorkPayload)
    (callback_url : string) (w : World) :
  queue_backed w ->
  queue_backed (snd (AsyncEndpoint.async_endpoint validation request_id
                       client_ip payload callback_url w)).
Proof.
  intros Hw.
  destruct (AsyncEndpointFacts.async_endpoint_cases validation request_id
              client_ip payload callback_url w)
    as [(Hdb & _ & Hq & _)|(Hrow & t0 & Hdb & _ & Hcase)].
  { by apply (queue_backed_same w). }
  assert (request_id ∉ queued_ids w) as Hfresh.
  { intros Hin. destruct (queued_id_has_row w request_id Hw Hin). congruence. }
  destruct Hw as [H1 H2].
  assert (forall job, job ∈ queued_jobs w ->
            exists r,
              db (snd (AsyncEndpoint.async_endpoint validation request_id
                         client_ip payload callback_url w))
                !! Job.request_id job = Some r /\ admitted_row job r) as Hold.
  { intros job Hjob. destruct (H1 job Hjob) as (r & Hr & Hadm).
    exists r. split; [|done]. rewrite Hdb, lookup_insert_ne; [done|].
    intros ->. congruence. }
  destruct Hcase as [[Hq _]|[Hq _]]; split; unfold queued_ids; rewrite Hq.
  - intros job Hjob. apply elem_of_app in Hjob as [Hjob|Hjob]; [by apply Hold|].
    apply list_elem_of_singleton in Hjob as ->. cbn.
    rewrite Hdb, lookup_insert_eq. eexists. split; [reflexivity|].
    by exists t0, client_ip.
  - rewrite fmap_app. cbn. apply NoDup_app. split; [done|].
    split; [|apply NoDup_singleton].
    intros x Hx Hx'. apply list_elem_of_singleton in Hx' as ->. done.
  - exact Hold.
  - done.
Qed.

Lemma queue_backed_worker (s : Settings) (run : WorkRun)
    (target : Callback.Target) (w : World) :
  queue_backed w ->
  queue_backed (snd (Processor.worker_iteration s run target w)).
Proof.
  intros Hw. destruct (queued_jobs w) as [|job rest] eqn:Hq.
  { by rewrite (ProcessorFacts.worker_iteration_idle s run target w Hq). }
  destruct (RejectionFacts.worker_iteration_touch s run target w job rest Hq)
    as (w1 & Hdb1 & _ & Hq1 & [Hother _ _ Hqueue]).
  destruct Hw as [H1 H2]. unfold queued_ids in H2. rewrite Hq in H2.
  cbn in H2. apply NoDup_cons in H2 as [Hhead Hrest].
  split.
  - rewrite Hqueue, Hq1. intros job' Hjob'.
    destruct (H1 job') as (r & Hr & Hadm); [rewrite Hq; by right|].
    exists r. split; [|done]. rewrite Hother, Hdb1; [done|].
    intros Heq. apply Hhead. rewrite <- Heq.
    apply list_elem_of_fmap. eauto.
  - unfold queued_ids. by rewrite Hqueue, Hq1.
Qed.

Lemma queue_backed_run (s : Settings) (acts : list Action) (w : World) :
  queue_backed w -> queue_backed (run_actions s acts w).
Proof.
  unfold run_actions. revert w.
  induction acts as [|a acts IH]; intros w Hw; [done|].
  cbn. apply IH. destruct a; cbn [step].
  - by apply queue_backed_sync.
  - by apply queue_backed_async.
  - by apply queue_backed_worker.
Qed.

(** X18. In any run of sync requests, async submissions and worker
    turns from start-up, under any settings, a job waiting in the queue
    has its row exactly as the async endpoint wrote it on admission:
    mode [async], status [pending], the job's payload and callback URL, no
    result, no error, no timestamps besides [created_at], no delivery
    attempts. No two waiting jobs share an identifier. *)
Theorem queued_job_row_untouched (s : Settings) (clock : nat -> Q)
    (acts : list Action) (job : Job.t) :
  let w := run_actions s acts (init_world s clock) in
  job ∈ queued_jobs w ->
  NoDup (queued_ids w) /\
  exists created_at client_ip,
    db w !! Job.request_id job
    = Some (Repository.new_row (Job.request_id job) async (Job.payload job)
              (Some (Job.callback_url job)) created_at client_ip).
Proof.
  intros w Hjob.
  destruct (queue_backed_run s acts (init_world s clock)
              (queue_backed_init s clock)) as [H1 H2].
  split; [exact H2|].
  destruct (H1 job Hjob) as (r & Hr & t0 & ip & ->). eauto.
Qed.

Lemma queued_job_row_untouched_witness :
  exists created_at client_ip,
    db (run_actions Samples.small_queue_settings Samples.filling_actions
          (init_world Samples.small_queue_settings Samples.ticking_clock))
      !! "r2"
    = Some (Repository.new_row "r2" async Samples.hash_payload
              (Some "https://client.example/hook") created_at client_ip).
Proof.
  apply (queued_job_row_untouched Samples.small_queue_settings
           Samples.ticking_clock Samples.filling_actions (Samples.job_of "r2")).
  vm_compute. apply list_elem_of_further, list_elem_of_here.
Defined.

End QueueBackedFacts.

(** ** The prime search *)

Module WorkFacts.
Import Work.

Lemma is_prime_true (num : Z) :
  is_prime num = true <->
  2 <= num /\ forall i, 2 <= i <= Z.sqrt num -> num mod i <> 0.
Proof.
  unfold is_prime, range. destruct (Z.ltb_spec num 2) as [Hlt|Hge].
  - split; [done|lia].
  - rewrite forallb_forall. split.
    + intros H. split; [done|]. intros i Hi Hmod.
      specialize (H i). rewrite <- list_elem_of_In, elem_of_seqZ in H.
      rewrite Hmod in H. cbn in H. discriminate H. lia.
    + intros [_ H] i Hi. rewrite <- list_elem_of_In, elem_of_seqZ in Hi.
      apply negb_true_iff, Z.eqb_neq, H. lia.
Qed.

Lemma is_prime_sound (num : Z) : is_prime num = true -> Z.prime num.
Proof.
  rewrite is_prime_true. unfold Z.prime.
  intros [Hge H]. split; [lia|]. intros d Hd [q Hq].
  assert (1 < q) as Hq1 by nia.
  destruct (Z.le_gt_cases d q) as [Hle|Hgt].
  - apply (H d).
    + split; [lia|]. apply Z.sqrt_le_square; nia.
    + rewrite Hq. apply Z.mod_mul. lia.
  - apply (H q).
    + split; [lia|]. apply Z.sqrt_le_square; nia.
    + rewrite Hq, Z.mul_comm. apply Z.mod_mul. lia.
Qed.

(** X19. [is_prime], the trial division up to the integer square root,
    answers [True] exactly for the prime numbers. *)
Theorem is_prime_correct (num : Z) : is_prime num = true <-> Z.prime num.
Proof.
  split; [apply is_prime_sound|].
  rewrite is_prime_true. intros [Hgt H]. split; [lia|]. intros i Hi Hmod.
  apply (H i).
  - pose proof (Z.sqrt_lt_lin num Hgt). lia.
  - apply Z.mod_divide; [lia|done].
Qed.

Lemma primes_met_succ (k : Z) :
  0 <= k ->
  primes_met (k + 1)
  = primes_met k ++ (if is_prime (2 + k) then [2 + k] else []).
Proof.
  intros Hk. unfold primes_met.
  rewrite seqZ_app by lia. rewrite List.filter_app. f_equal.
Qed.

Lemma primes_met_length (k : Z) :
  0 <= k -> Z.of_nat (length (primes_met k)) <= k.
Proof.
  intros Hk. unfold primes_met.
  pose proof (List.filter_length_le is_prime (seqZ 2 k)) as H.
  rewrite length_seqZ in H. lia.
Qed.

Lemma prime_step_after (k : Z) :
  0 <= k -> prime_step (after k) = after (k + 1).
Proof.
  intros Hk. unfold prime_step, after. cbn.
  rewrite primes_met_succ by done.
  destruct (is_prime (2 + k)).
  - rewrite length_app, last_last. cbn. f_equal; lia.
  - rewrite app_nil_r. f_equal; lia.
Qed.

Lemma prime_loop_after (n max_checks : Z) :
  forall (fuel : nat) (k : Z),
    0 <= k ->
    Z.of_nat (length (primes_met k)) <= Z.max 0 n ->
    max_checks - k <= Z.of_nat fuel ->
    exists k',
      k <= k' /\ k' <= Z.max k max_checks /\
      prime_loop fuel n max_checks (after k) = Some (after k') /\
      Z.of_nat (length (primes_met k')) <= Z.max 0 n /\
      (Z.of_nat (length (primes_met k')) < n -> max_checks <= k').
Proof.
  induction fuel as [|fuel IH]; intros k Hk Hcount Hfuel.
  - exists k. split; [lia|]. split; [lia|].
    cbn. destruct (Z.ltb_spec (Z.of_nat (length (primes_met k))) n);
      destruct (Z.ltb_spec k max_checks); cbn; try lia; repeat split; try done; lia.
  - cbn [prime_loop].
    destruct (Z.ltb_spec (count (after k)) n) as [Hlt|Hge];
      destruct (Z.ltb_spec (checks (after k)) max_checks) as [Hlt'|Hge'];
      cbn [andb]; cbn in *;
      try (exists k; split; [lia|]; split; [lia|]; repeat split; try done; lia).
    rewrite prime_step_after by done.
    destruct (IH (k + 1)) as (k' & H1 & H2 & H3 & H4 & H5); [lia| |lia|].
    { rewrite primes_met_succ by done.
      destruct (is_prime (2 + k)); rewrite ?length_app, ?app_nil_r; cbn; lia. }
    exists k'. split; [lia|]. split; [lia|]. done.
Qed.

Lemma filter_drops (f : Z -> bool) (l : list Z) (x : Z) :
  x ∈ l -> f x = false -> (length (List.filter f l) < length l)%nat.
Proof.
  induction l as [|y l IH]; intros Hx Hf.
  - by apply elem_of_nil in Hx.
  - cbn. apply elem_of_cons in Hx as [->|Hx].
    + rewrite Hf. pose proof (List.filter_length_le f l). lia.
    + specialize (IH Hx Hf). destruct (f y); cbn; lia.
Qed.

Lemma primes_met_prime (k p : Z) : p ∈ primes_met k -> Z.prime p /\ 2 <= p <= k + 1.
Proof.
  unfold primes_met. rewrite list_elem_of_In, List.filter_In.
  rewrite <- list_elem_of_In, elem_of_seqZ. intros [? ?].
  split; [by apply is_prime_sound|lia].
Qed.

Lemma prime_operation_run (n complexity : Z) :
  exists k,
    0 <= k <= Z.max 0 (n * complexity) /\
    _prime_operation n complexity
    = Some {| res_prime := List.last (primes_met k) 2;
              res_position := Z.of_nat (length (primes_met k)) |} /\
    Z.of_nat (length (primes_met k)) <= Z.max 0 n /\
    (Z.of_nat (length (primes_met k)) < n -> k = Z.max 0 (n * complexity)).
Proof.
  destruct (prime_loop_after n (n * complexity) (Z.to_nat (n * complexity)) 0)
    as (k & H1 & H2 & H3 & H4 & H5).
  { lia. }
  { unfold primes_met. rewrite seqZ_nil by lia. cbn. lia. }
  { lia. }
  exists k. split; [lia|]. split.
  - unfold _prime_operation.
    change {| count := 0; num := 2; prime := 2; checks := 0 |} with (after 0).
    rewrite H3. reflexivity.
  - split; [done|]. intros Hlt. specialize (H5 Hlt). lia.
Qed.

Lemma last_elem_of (l : list Z) (d : Z) : l <> [] -> List.last l d ∈ l.
Proof.
  intros Hl. destruct (exists_last Hl) as (l' & x & ->).
  rewrite last_last. apply elem_of_app. right. apply list_elem_of_here.
Qed.

Lemma primes_met_upto_last (m : nat) :
  primes_met (Z.of_nat m) <> [] ->
  primes_met (Z.of_nat m)
  = List.filter is_prime (seqZ 2 (List.last (primes_met (Z.of_nat m)) 2 - 1)).
Proof.
  induction m as [|m IH]; [done|].
  rewrite Nat2Z.inj_succ, <- Z.add_1_r, primes_met_succ by lia.
  destruct (is_prime (2 + Z.of_nat m)) eqn:Hp.
  - intros _. rewrite last_last.
    replace (2 + Z.of_nat m - 1) with (Z.of_nat m + 1) by lia.
    fold (primes_met (Z.of_nat m + 1)).
    by rewrite primes_met_succ, Hp by lia.
  - rewrite app_nil_r. exact IH.
Qed.

(** X20. [_prime_operation] always returns, for any [n] and
    [complexity]. The ["prime"] it returns is a prime number, not above
    [n * complexity + 1] (or 2); the ["position"] is between 0 and [n];
    and when the position is at least 1 it is the number of primes up to
    the returned one, so the returned prime is the [position]-th prime.
    (With position 0 the default 2 is returned.) *)
Theorem prime_operation_returns_prime (n complexity : Z) :
  exists r,
    _prime_operation n complexity = Some r /\
    Z.prime (res_prime r) /\
    0 <= res_position r <= Z.max 0 n /\
    res_prime r <= Z.max 2 (n * complexity + 1) /\
    (1 <= res_position r ->
     res_position r
     = Z.of_nat (length (List.filter is_prime (range 2 (res_prime r + 1))))).
Proof.
  destruct (prime_operation_run n complexity) as (k & Hk & -> & Hcount & _).
  eexists. split; [reflexivity|]. cbn.
  destruct (primes_met k) as [|p ps] eqn:Hmet.
  - cbn. split; [by apply is_prime_sound|]. split; [lia|]. split; [lia|].
    lia.
  - assert (List.last (p :: ps) 2 ∈ primes_met k) as Hin
      by (rewrite Hmet; by apply last_elem_of).
    destruct (primes_met_prime _ _ Hin) as [Hprime Hrange].
    split; [done|]. split; [lia|]. split; [lia|]. intros _.
    rewrite <- Hmet. unfold range.
    pose proof (primes_met_upto_last (Z.to_nat k)) as Hupto.
    rewrite Z2Nat.id in Hupto by lia.
    replace (List.last (primes_met k) 2 + 1 - 2)
      with (List.last (primes_met k) 2 - 1) by lia.
    rewrite <- Hupto; [done|]. by rewrite Hmet.
Qed.

(** X21. With [complexity = 1] the search examines only the [n]
    candidates [2 .. n + 1], so for every [n >= 3] it stops short: the
    returned position is below [n] and the returned prime is not the
    [n]-th prime. *)
Theorem prime_search_budget_too_small (n : Z) :
  3 <= n ->
  exists r,
    _prime_operation n 1 = Some r /\ res_position r < n.
Proof.
  intros Hn. destruct (prime_operation_run n 1) as (k & Hk & -> & _ & _).
  eexists. split; [reflexivity|]. cbn.
  destruct (Z.eq_dec k n) as [->|Hne].
  - assert (length (primes_met n) < length (seqZ 2 n))%nat as Hlt.
    { apply (filter_drops is_prime _ 4); [|reflexivity].
      apply elem_of_seqZ. lia. }
    rewrite length_seqZ in Hlt. lia.
  - pose proof (primes_met_length k). lia.
Qed.

Lemma prime_search_budget_too_small_witness :
  exists r, _prime_operation 100 1 = Some r /\ res_position r < 100.
Proof. apply (prime_search_budget_too_small 100). lia. Defined.

End WorkFacts.

(** ** The matrix operation *)

Module MatrixFacts.
Import Work Matrix.

Lemma for_each_additive {A} (body : A -> Z -> option Z) :
  (forall x acc, body x acc = Z.add acc <$> body x 0) ->
  forall xs acc, for_each xs body acc = Z.add acc <$> for_each xs body 0.
Proof.
  intros Hbody. induction xs as [|x xs IH]; intros acc; cbn.
  - f_equal. lia.
  - rewrite (Hbody x acc). destruct (body x 0) as [c|]; cbn; [|done].
    rewrite (IH (acc + c)), (IH c).
    destruct (for_each xs body 0) as [t|]; cbn; [|done]. f_equal. lia.
Qed.

Lemma one_pass_additive (a b : list (list Z)) (acc : Z) :
  one_pass a b acc = Z.add acc <$> one_pass a b 0.
Proof.
  unfold one_pass. apply for_each_additive. clear acc. intros i acc.
  destruct (index b 0) as [b0|]; cbn; try done.
  apply for_each_additive. clear acc. intros j acc.
  by destruct (term a b i j) as [t|].
Qed.

Lemma matrices_of_capped_size (size : Z) :
  matrix_a size = matrix_a (Z.max 0 (Z.min size 50)) /\
  matrix_b size = matrix_b (Z.max 0 (Z.min size 50)).
Proof.
  unfold matrix_a, matrix_b, range.
  destruct (Z.le_gt_cases 0 (Z.min size 50)) as [Hpos|Hneg].
  - replace (Z.min (Z.max 0 (Z.min size 50)) 50) with (Z.min size 50) by lia.
    done.
  - replace (Z.min (Z.max 0 (Z.min size 50)) 50) with 0 by lia.
    rewrite !(seqZ_nil 0 (Z.min size 50 - 0)) by lia. done.
Qed.

Lemma one_pass_table :
  forallb (fun m => bool_decide (one_pass (matrix_a m) (matrix_b m) 0
                                 = Some (pass_sum m)))
    (seqZ 0 51) = true.
Proof. vm_compute. reflexivity. Qed.

Lemma one_pass_sum (size : Z) (acc : Z) :
  one_pass (matrix_a size) (matrix_b size) acc
  = Some (acc + pass_sum (Z.max 0 (Z.min size 50))).
Proof.
  destruct (matrices_of_capped_size size) as [-> ->].
  rewrite one_pass_additive.
  pose proof one_pass_table as Htable. rewrite forallb_forall in Htable.
  specialize (Htable (Z.max 0 (Z.min size 50))).
  rewrite <- list_elem_of_In, elem_of_seqZ in Htable.
  apply bool_decide_eq_true in Htable; [|lia]. by rewrite Htable.
Qed.

Lemma repeated_passes (size : Z) (xs : list Z) (acc : Z) :
  for_each xs (fun _ acc => one_pass (matrix_a size) (matrix_b size) acc) acc
  = Some (acc + len xs * pass_sum (Z.max 0 (Z.min size 50))).
Proof.
  revert acc. induction xs as [|x xs IH]; intros acc; cbn.
  - f_equal. unfold len. cbn. lia.
  - rewrite one_pass_sum, IH. f_equal. unfold len. cbn [length]. lia.
Qed.

(** X22. [_matrix_operation] always returns, without an index or
    division error, for any [size] and [complexity]. With [m] the size
    capped to [0 .. 50], ["result_sum"] is [complexity * 100] (or 0 if
    that is negative) times [m^2 (m-1)^2 (2m-1) / 6], the sum of
    [(i + j) * (j * i)] over [i, j < m]; every size above 50 gives the
    result of 50 and every size below 1 gives 0. *)
Theorem matrix_operation_result (size complexity : Z) :
  _matrix_operation size complexity
  = Some {| result_sum :=
              Z.max 0 (complexity * 100) * pass_sum (Z.max 0 (Z.min size 50));
            mat_size := size;
            mat_iterations := complexity * 100 |}.
Proof.
  unfold _matrix_operation. cbn zeta. rewrite repeated_passes. cbn.
  do 2 f_equal. unfold len, range. rewrite length_seqZ. lia.
Qed.

End MatrixFacts.
